(** * Rate-controlled dispatch engine of the Event Hub load generator

    A shallow embedding of [eventhub_simulator.py]: the worker-count split
    done by [main], the batch plan of [message_sender_worker], the message
    generator, the sink wrapper [EventHubSender.send_batch], the shared
    [stats] dictionary with its reporter, and the shutdown flag; further
    the lookup of the connection details, the stock symbols of the command
    line and the worker tasks that [main] creates.

    Python integers are [Z]; [//] is floor division, which is [Z.div] for a
    non-zero divisor and raises [ZeroDivisionError] otherwise.  Python
    strings are [string]s whose characters are the code points 0..255.
    Exceptions are values of [exn] carried by [result]. *)

From Stdlib Require Import ZArith QArith Qabs List String Ascii Bool Lia.
From Stdlib Require Import DecimalString DecimalFacts DecimalPos DecimalN DecimalZ.
Import ListNotations.
Open Scope Z_scope.

(* ================================================================= *)
(** ** Python values and exceptions *)

Inductive exn : Type :=
| ZeroDivisionError
| ValueError
| IndexError
| TypeError
| OverflowError
| SinkError         (* any [Exception] raised by the Event Hub SDK *)
| CancelledError.   (* [asyncio.CancelledError], a [BaseException] *)

Inductive result (A : Type) : Type :=
| Ok (a : A)
| Raise (e : exn)
| OutOfFuel.        (* the fuel of a loop model ran out; never a Python outcome *)

Arguments Ok {A} a.
Arguments Raise {A} e.
Arguments OutOfFuel {A}.

(** [isinstance(e, Exception)]: what [except Exception] catches. *)
Definition is_Exception (e : exn) : bool :=
  match e with CancelledError => false | _ => true end.

(** [a // b] *)
Definition floordiv (a b : Z) : result Z :=
  if b =? 0 then Raise ZeroDivisionError else Ok (a / b).

(** [len(s)] *)
Definition len (s : string) : Z := Z.of_nat (String.length s).

(** [str(n)] for an [int], also what an f-string and [json.dumps] print *)
Definition str (n : Z) : string := NilZero.string_of_int (Z.to_int n).

(** [s[:n]] for [n >= 0] *)
Fixpoint take (n : nat) (s : string) : string :=
  match n, s with
  | S n', String c s' => String c (take n' s')
  | _, _ => EmptyString
  end.

(* ================================================================= *)
(** ** [main]: worker count and per-worker rate (lines 405-410) *)

(** The [simulator] section of [config.json], after the [.get(key, default)]
    lookups of [main] and [message_sender_worker]. *)
Record simulator_config : Type := {
  max_workers : Z;
  min_batch_size : Z;
  max_batch_size : Z;
  batch_size_per_1k_rate : Z
}.

Definition default_simulator_config : simulator_config :=
  {| max_workers := 50; min_batch_size := 1; max_batch_size := 1000;
     batch_size_per_1k_rate := 100 |}.

(** [num_workers = min(max_workers, max(1, args.rate // 1000))] *)
Definition num_workers (rate max_workers : Z) : Z :=
  Z.min max_workers (Z.max 1 (rate / 1000)).

(** [rate_per_worker = args.rate // num_workers]; the pair that [main]
    prints and hands to the workers. *)
Definition main_split (rate max_workers : Z) : result (Z * Z) :=
  let n := num_workers rate max_workers in
  match floordiv rate n with
  | Ok rate_per_worker => Ok (n, rate_per_worker)
  | Raise e => Raise e
  | OutOfFuel => OutOfFuel
  end.

(** [clamp(lo, hi, x)] of the specification: [x] brought into the interval
    [lo..hi]. *)
Definition clamp (lo hi x : Z) : Z := Z.max lo (Z.min hi x).

(* ================================================================= *)
(** ** [message_sender_worker]: batch plan (lines 261-270) *)

(** [target_batch = (rate_per_worker // 10) if rate_per_worker > 0
                    else batch_size_per_1k] *)
Definition target_batch (cfg : simulator_config) (rate_per_worker : Z) : Z :=
  if rate_per_worker >? 0 then rate_per_worker / 10
  else batch_size_per_1k_rate cfg.

(** [batch_size = max(min_batch, min(max_batch, target_batch))] *)
Definition batch_size (cfg : simulator_config) (rate_per_worker : Z) : Z :=
  Z.max (min_batch_size cfg)
        (Z.min (max_batch_size cfg) (target_batch cfg rate_per_worker)).

(** [sleep_time = batch_size / rate_per_worker if rate_per_worker > 0
                  else 0.01], in seconds.  Python's [/] on two integers is
    the exact quotient rounded to a double; the model keeps the exact
    quotient as a rational. *)
Definition sleep_time (cfg : simulator_config) (rate_per_worker : Z) : Q :=
  if rate_per_worker >? 0
  then (inject_Z (batch_size cfg rate_per_worker) / inject_Z rate_per_worker)%Q
  else (1 # 100)%Q.

(* ================================================================= *)
(** ** The pseudo-random source and the clock *)

(** A finite [float], kept as the pieces of the text [float.__repr__]
    prints for it: sign, integer digits, fraction digits and exponent.
    With no fraction and no exponent Python prints [.0].  Infinities and
    NaN are left out: [round(random.uniform(0.01, max_num / 100), p)]
    returns a finite float or raises [OverflowError] (see [truediv] and
    [round_uniform]). *)
Record pyfloat : Type := {
  fl_neg : bool;
  fl_whole : N;
  fl_frac : Decimal.uint;
  fl_exp : option Z
}.

(** Everything [generate_message] reads from outside: the raw draws of the
    [random] module, the floats that [round(random.uniform(..), ..)]
    returns, whether the float drawn is one whose rounding is too large to
    represent, and the readings of
    [datetime.now(timezone.utc).isoformat()].  A computation reads entry
    [pos] and moves on to [pos + 1]. *)
Record source : Type := {
  ints : nat -> N;
  floats : nat -> pyfloat;
  round_overflows : nat -> bool;
  clock : nat -> string
}.

(** Code that reads an environment [E], threads a state [S] and may raise:
    the state survives an exception. *)
Definition ST (E S A : Type) : Type := E -> S -> result A * S.

Definition ret {E S A} (a : A) : ST E S A := fun _ st => (Ok a, st).

Definition raise {E S A} (e : exn) : ST E S A := fun _ st => (Raise e, st).

Definition bind {E S A B} (c : ST E S A) (k : A -> ST E S B) : ST E S B :=
  fun env st =>
    match c env st with
    | (Ok a, st') => k a env st'
    | (Raise e, st') => (Raise e, st')
    | (OutOfFuel, st') => (OutOfFuel, st')
    end.

Notation "x <- c ;; k" := (bind c (fun x => k))
  (at level 61, c at next level, right associativity).

(** The generator's code: the state is the position in the [source]. *)
Definition M (A : Type) : Type := ST source nat A.

Definition draw : M N := fun src pos => (Ok (ints src pos), S pos).

(** A value or an exception that does not depend on the state. *)
Definition of_result {E S A} (r : result A) : ST E S A := fun _ st => (r, st).

(** The largest [float], [2^1024 - 2^971], and the least magnitude that
    rounds beyond it: the midpoint between it and [2^1024], a tie that
    goes to the even [2^1024]. *)
Definition float_max : Z := 2 ^ 1024 - 2 ^ 971.

Definition float_overflow : Z := 2 ^ 1024 - 2 ^ 970.

(** [a / b] on two [int]s: the quotient rounded to the nearest [float];
    [OverflowError] ("integer division result too large for a float")
    when that is beyond the largest one.  As for [sleep_time], the model
    keeps the exact quotient. *)
Definition truediv (a b : Z) : result Q :=
  if b =? 0 then Raise ZeroDivisionError
  else if float_overflow * Z.abs b <=? Z.abs a then Raise OverflowError
  else Ok (inject_Z a / inject_Z b)%Q.

(** Whether [round(x, ndigits)] can raise [OverflowError] ("rounded value
    too large to represent") for some float [x] between [a] and [b].
    [round] makes the multiple of [10^(-ndigits)] nearest to [x] and
    raises when no float is as large.  For [ndigits >= 0] it never does (a
    float from [2^52] on is an integer and rounds to itself), nor for
    [ndigits < -308], where the result is [0.0]; in between, the multiple
    is at most [10^(-ndigits) / 2] away from [x], and [x] is no larger
    than the floats nearest to [a] and [b]. *)
Definition round_can_overflow (a b : Q) (ndigits : Z) : bool :=
  ((-308 <=? ndigits) && (ndigits <? 0)
   && (Qle_bool (inject_Z float_max)
                (Qabs a + inject_Z (10 ^ (- ndigits)) / 2)
       || Qle_bool (inject_Z float_max)
                   (Qabs b + inject_Z (10 ^ (- ndigits)) / 2)))%bool.

(** [round(random.uniform(a, b), ndigits)] for an [int] [ndigits]: the
    float the source holds for this draw, or [OverflowError] where the
    rounding can overflow and the source says that it does for this
    draw. *)
Definition round_uniform (a b : Q) (ndigits : Z) : M pyfloat :=
  fun src pos =>
    if (round_can_overflow a b ndigits && round_overflows src pos)%bool
    then (Raise OverflowError, S pos)
    else (Ok (floats src pos), S pos).

(** [datetime.now(timezone.utc).isoformat()] *)
Definition now_isoformat : M string := fun src pos => (Ok (clock src pos), S pos).

(** [random.randint(a, b)]: some integer of [a..b]; [ValueError] on an
    empty range. *)
Definition randint (a b : Z) : M Z :=
  if b <? a then raise ValueError
  else n <- draw ;; ret (a + Z.of_N n mod (b - a + 1)).

(** [random.choice(seq)]: some element; [IndexError] on an empty sequence. *)
Definition choice {A} (seq : list A) : M A :=
  match seq with
  | [] => raise IndexError
  | _ =>
    n <- draw ;;
    match nth_error seq (N.to_nat n mod List.length seq) with
    | Some x => ret x
    | None => raise IndexError
    end
  end.

(** [''.join(random.choices(population, k=k))] *)
Fixpoint choices (population : list ascii) (k : nat) : M string :=
  match k with
  | O => ret EmptyString
  | S k' =>
    c <- choice population ;;
    s <- choices population k' ;;
    ret (String c s)
  end.

(* ================================================================= *)
(** ** [json.dumps(.., separators=(',', ':'))] on the generator's values *)

Inductive pyval : Type :=
| PInt (n : Z)
| PFloat (f : pyfloat)
| PBool (b : bool)
| PStr (s : string).

Definition quote : ascii := "034"%char.
Definition backslash : ascii := "092"%char.

Definition hexdigit (n : nat) : ascii :=
  nth n (list_ascii_of_string "0123456789abcdef") "0"%char.

(** One character under [ensure_ascii]: the two-character escapes of
    [ESCAPE_DCT], [\u00xx] for the rest outside [' '..'~'], itself
    otherwise. *)
Definition encode_char (c : ascii) : string :=
  let n := nat_of_ascii c in
  if Ascii.eqb c quote then String backslash (String quote EmptyString)
  else if Ascii.eqb c backslash then String backslash (String backslash EmptyString)
  else if Nat.eqb n 8 then String backslash "b"
  else if Nat.eqb n 12 then String backslash "f"
  else if Nat.eqb n 10 then String backslash "n"
  else if Nat.eqb n 13 then String backslash "r"
  else if Nat.eqb n 9 then String backslash "t"
  else if (Nat.ltb n 32 || Nat.ltb 126 n)%bool
       then String backslash
              (String "u" (String "0" (String "0"
                 (String (hexdigit (Nat.div n 16))
                    (String (hexdigit (Nat.modulo n 16)) EmptyString)))))
  else String c EmptyString.

Fixpoint encode_chars (s : string) : string :=
  match s with
  | EmptyString => EmptyString
  | String c s' => encode_char c ++ encode_chars s'
  end.

(** [encode_basestring_ascii(s)] *)
Definition encode_basestring (s : string) : string :=
  String quote (encode_chars s ++ String quote EmptyString).

(** Exponent digits of a float repr, at least two of them. *)
Definition exp_digits (n : N) : string :=
  if (n <? 10)%N then String "0" (NilEmpty.string_of_uint (N.to_uint n))
  else NilEmpty.string_of_uint (N.to_uint n).

(** [float.__repr__] of a finite float *)
Definition float_repr (f : pyfloat) : string :=
  (if fl_neg f then "-" else "")
  ++ NilEmpty.string_of_uint (N.to_uint (fl_whole f))
  ++ match fl_frac f, fl_exp f with
     | Decimal.Nil, None => ".0"
     | Decimal.Nil, Some _ => ""
     | d, _ => String "." (NilEmpty.string_of_uint d)
     end
  ++ match fl_exp f with
     | None => ""
     | Some e => String "e" ((if e <? 0 then "-" else "+")
                             ++ exp_digits (Z.abs_N e))
     end.

(** [json.dumps(value)] for the four kinds of value a field can hold *)
Definition dumps_value (v : pyval) : string :=
  match v with
  | PStr s => encode_basestring s
  | PBool true => "true"
  | PBool false => "false"
  | PInt n => str n
  | PFloat f => float_repr f
  end.

(** A Python [dict] with string keys: insertion-ordered, one entry per key. *)
Definition dict : Type := list (string * pyval).

(** [d[k] = v] *)
Fixpoint dict_set (d : dict) (k : string) (v : pyval) : dict :=
  match d with
  | [] => [(k, v)]
  | (k', v') :: d' =>
    if String.eqb k' k then (k', v) :: d' else (k', v') :: dict_set d' k v
  end.

(** [d.get(k)] *)
Fixpoint dict_get (d : dict) (k : string) : option pyval :=
  match d with
  | [] => None
  | (k', v') :: d' => if String.eqb k' k then Some v' else dict_get d' k
  end.

Definition dumps_item (kv : string * pyval) : string :=
  encode_basestring (fst kv) ++ String ":" (dumps_value (snd kv)).

Fixpoint dumps_items (d : dict) : string :=
  match d with
  | [] => EmptyString
  | [kv] => dumps_item kv
  | kv :: d' => dumps_item kv ++ String "," (dumps_items d')
  end.

(** [json.dumps(message, separators=(',', ':'))] *)
Definition dumps (d : dict) : string :=
  String "{" (dumps_items d ++ "}").

(* ================================================================= *)
(** ** A JSON reader (RFC 8259, texts without insignificant whitespace)

    A text is parseable when [json_loads] returns a value for it.  Numbers
    keep their lexeme; [\uXXXX] escapes above code point 255 fall outside
    the string type of this model and are refused. *)

#[warnings="-register-all"]
Inductive json : Type :=
| JNull
| JBool (b : bool)
| JNum (lexeme : string)
| JStr (s : string)
| JArr (elements : list json)
| JObj (members : list (string * json)).

Definition is_digit (c : ascii) : bool :=
  let n := nat_of_ascii c in (Nat.leb 48 n && Nat.leb n 57)%bool.

(** The longest prefix of digits, and what follows it. *)
Fixpoint take_digits (s : string) : string * string :=
  match s with
  | String c s' =>
    if is_digit c
    then let (ds, r) := take_digits s' in (String c ds, r)
    else (EmptyString, s)
  | EmptyString => (EmptyString, EmptyString)
  end.

(** [int = zero / ( digit1-9 *DIGIT )] *)
Definition valid_int_part (ds : string) : bool :=
  match ds with
  | EmptyString => false
  | String "0" EmptyString => true
  | String "0" _ => false
  | String _ _ => true
  end.

(** [frac = decimal-point 1*DIGIT], optional *)
Definition parse_frac (s : string) : option (string * string) :=
  match s with
  | String "." s' =>
    match take_digits s' with
    | (EmptyString, _) => None
    | (ds, r) => Some (String "." ds, r)
    end
  | _ => Some (EmptyString, s)
  end.

Definition exp_body (e : ascii) (sign : string) (s : string)
  : option (string * string) :=
  match take_digits s with
  | (EmptyString, _) => None
  | (ds, r) => Some (String e (sign ++ ds)%string, r)
  end.

(** [exp = e [ minus / plus ] 1*DIGIT], optional *)
Definition parse_exp (s : string) : option (string * string) :=
  match s with
  | String e s' =>
    if (Ascii.eqb e "e" || Ascii.eqb e "E")%bool then
      match s' with
      | String "+" s'' => exp_body e "+" s''
      | String "-" s'' => exp_body e "-" s''
      | _ => exp_body e "" s'
      end
    else Some (EmptyString, s)
  | EmptyString => Some (EmptyString, s)
  end.

Definition parse_unsigned (s : string) : option (string * string) :=
  let (ds, r) := take_digits s in
  if valid_int_part ds then
    match parse_frac r with
    | Some (fr, r') =>
      match parse_exp r' with
      | Some (ex, r'') => Some ((ds ++ fr ++ ex)%string, r'')
      | None => None
      end
    | None => None
    end
  else None.

(** [number = [ minus ] int [ frac ] [ exp ]] *)
Definition parse_number (s : string) : option (string * string) :=
  match s with
  | String "-" s' =>
    match parse_unsigned s' with
    | Some (lx, r) => Some (String "-" lx, r)
    | None => None
    end
  | _ => parse_unsigned s
  end.

Definition hexval (c : ascii) : option nat :=
  let n := nat_of_ascii c in
  if (Nat.leb 48 n && Nat.leb n 57)%bool then Some (n - 48)%nat
  else if (Nat.leb 97 n && Nat.leb n 102)%bool then Some (n - 87)%nat
  else if (Nat.leb 65 n && Nat.leb n 70)%bool then Some (n - 55)%nat
  else None.

(** The character of [\uh1h2h3h4], when it is one of this model. *)
Definition unicode_escape (h1 h2 h3 h4 : ascii) : option ascii :=
  match hexval h1, hexval h2, hexval h3, hexval h4 with
  | Some 0%nat, Some 0%nat, Some a, Some b => Some (ascii_of_nat (16 * a + b))
  | _, _, _, _ => None
  end.

Definition simple_escape (e : ascii) : option ascii :=
  if Ascii.eqb e quote then Some quote
  else if Ascii.eqb e backslash then Some backslash
  else if Ascii.eqb e "/" then Some "/"%char
  else if Ascii.eqb e "b" then Some "008"%char
  else if Ascii.eqb e "f" then Some "012"%char
  else if Ascii.eqb e "n" then Some "010"%char
  else if Ascii.eqb e "r" then Some "013"%char
  else if Ascii.eqb e "t" then Some "009"%char
  else None.

Definition cons_char (c : ascii) (r : option (string * string))
  : option (string * string) :=
  match r with
  | Some (t, rest) => Some (String c t, rest)
  | None => None
  end.

(** The characters of a string up to its closing quote, unescaped; the
    opening quote has been read. *)
Fixpoint parse_chars (s : string) : option (string * string) :=
  match s with
  | EmptyString => None
  | String c rest =>
    if Ascii.eqb c quote then Some (EmptyString, rest)
    else if Ascii.eqb c backslash then
      match rest with
      | String e rest' =>
        if Ascii.eqb e "u" then
          match rest' with
          | String h1 (String h2 (String h3 (String h4 rest''))) =>
            match unicode_escape h1 h2 h3 h4 with
            | Some a => cons_char a (parse_chars rest'')
            | None => None
            end
          | _ => None
          end
        else
          match simple_escape e with
          | Some a => cons_char a (parse_chars rest')
          | None => None
          end
      | EmptyString => None
      end
    else if Nat.ltb (nat_of_ascii c) 32 then None
    else cons_char c (parse_chars rest)
  end.

Definition is_number_start (c : ascii) : bool :=
  (Ascii.eqb c "-" || is_digit c)%bool.

Fixpoint parse_value (fuel : nat) (s : string) {struct fuel}
  : option (json * string) :=
  match fuel with
  | O => None
  | S fuel' =>
    match s with
    | EmptyString => None
    | String c rest =>
      if is_number_start c then
        match parse_number s with
        | Some (lx, r) => Some (JNum lx, r)
        | None => None
        end
      else if Ascii.eqb c quote then
        match parse_chars rest with
        | Some (t, r) => Some (JStr t, r)
        | None => None
        end
      else if Ascii.eqb c "{" then
        match rest with
        | String "}" r => Some (JObj [], r)
        | _ =>
          match parse_members fuel' rest with
          | Some (ms, r) => Some (JObj ms, r)
          | None => None
          end
        end
      else if Ascii.eqb c "[" then
        match rest with
        | String "]" r => Some (JArr [], r)
        | _ =>
          match parse_elements fuel' rest with
          | Some (es, r) => Some (JArr es, r)
          | None => None
          end
        end
      else
        match s with
        | String "t" (String "r" (String "u" (String "e" r))) =>
          Some (JBool true, r)
        | String "f" (String "a" (String "l" (String "s" (String "e" r)))) =>
          Some (JBool false, r)
        | String "n" (String "u" (String "l" (String "l" r))) =>
          Some (JNull, r)
        | _ => None
        end
    end
  end

with parse_members (fuel : nat) (s : string) {struct fuel}
  : option (list (string * json) * string) :=
  match fuel with
  | O => None
  | S fuel' =>
    match s with
    | String c rest =>
      if Ascii.eqb c quote then
        match parse_chars rest with
        | Some (k, String ":" r) =>
          match parse_value fuel' r with
          | Some (v, String "," r') =>
            match parse_members fuel' r' with
            | Some (ms, r'') => Some ((k, v) :: ms, r'')
            | None => None
            end
          | Some (v, String "}" r') => Some ([(k, v)], r')
          | _ => None
          end
        | _ => None
        end
      else None
    | EmptyString => None
    end
  end

with parse_elements (fuel : nat) (s : string) {struct fuel}
  : option (list json * string) :=
  match fuel with
  | O => None
  | S fuel' =>
    match parse_value fuel' s with
    | Some (v, String "," r) =>
      match parse_elements fuel' r with
      | Some (es, r') => Some (v :: es, r')
      | None => None
      end
    | Some (v, String "]" r) => Some ([v], r)
    | _ => None
    end
  end.

(** [json.loads(text)]: [None] stands for [JSONDecodeError]. *)
Definition json_loads (text : string) : option json :=
  match parse_value (S (String.length text)) text with
  | Some (v, EmptyString) => Some v
  | _ => None
  end.

(** The value [json.loads] gives back for what [json.dumps] wrote. *)
Definition json_of_pyval (v : pyval) : json :=
  match v with
  | PStr s => JStr s
  | PBool b => JBool b
  | PInt n => JNum (str n)
  | PFloat f => JNum (float_repr f)
  end.

Definition json_of_dict (d : dict) : json :=
  JObj (map (fun kv => (fst kv, json_of_pyval (snd kv))) d).

(** [obj.get(k)] on parsed members *)
Fixpoint member (ms : list (string * json)) (k : string) : option json :=
  match ms with
  | [] => None
  | (k', v) :: ms' => if String.eqb k' k then Some v else member ms' k
  end.

(* ================================================================= *)
(** ** [MessageGenerator] (lines 128-206) *)

(** The [message_generation] section of [config.json]; an absent key is
    [None]. *)
Record message_generation_config : Type := {
  cfg_target_field_count : option Z;
  cfg_field_count_variance : option Z;
  cfg_size_tolerance : option Z;
  cfg_string_length_range : option (Z * Z);
  cfg_number_range : option (Z * Z);
  cfg_float_precision : option Z
}.

Definition no_message_generation_config : message_generation_config :=
  {| cfg_target_field_count := None; cfg_field_count_variance := None;
     cfg_size_tolerance := None; cfg_string_length_range := None;
     cfg_number_range := None; cfg_float_precision := None |}.

Record MessageGenerator : Type := {
  target_size : Z;
  stock_symbols : list string;
  target_field_count : Z;
  field_count_variance : Z;
  size_tolerance : Z;
  string_length_range : Z * Z;
  number_range : Z * Z;
  float_precision : Z
}.

(** [dict.get(key, default)] *)
Definition get {A} (o : option A) (default : A) : A :=
  match o with Some a => a | None => default end.

Definition default_stock_symbols : list string :=
  ["AAPL"; "GOOGL"; "MSFT"; "TSLA"; "AMZN"]%string.

(** [MessageGenerator.__init__]; [stock_symbols or [...]] replaces an
    empty (or missing) list by the five default symbols. *)
Definition MessageGenerator_init (target_size : Z) (stock_symbols : list string)
    (msg_config : message_generation_config) : MessageGenerator :=
  {| target_size := target_size;
     stock_symbols := match stock_symbols with
                      | [] => default_stock_symbols
                      | _ => stock_symbols
                      end;
     target_field_count := get (cfg_target_field_count msg_config) 100;
     field_count_variance := get (cfg_field_count_variance msg_config) 5;
     size_tolerance := get (cfg_size_tolerance msg_config) 50;
     string_length_range := get (cfg_string_length_range msg_config) (5, 15);
     number_range := get (cfg_number_range msg_config) (1, 100000);
     float_precision := get (cfg_float_precision msg_config) 2 |}.

(** [string.ascii_letters + string.digits] *)
Definition ascii_letters_digits : list ascii :=
  list_ascii_of_string
    "abcdefghijklmnopqrstuvwxyzABCDEFGHIJKLMNOPQRSTUVWXYZ0123456789".

Definition status_strings : list string :=
  ["active"; "inactive"; "pending"; "completed"; "failed"]%string.

(** [_create_field_templates]: the eight closures, in the source's order. *)
Definition field_templates (g : MessageGenerator) : list (M pyval) :=
  let (min_str, max_str) := string_length_range g in
  let (min_num, max_num) := number_range g in
  [ (n <- randint min_num max_num ;; ret (PInt n));
    (upper <- of_result (truediv max_num 100) ;;
     f <- round_uniform (1 # 100) upper (float_precision g) ;; ret (PFloat f));
    (b <- choice [true; false] ;; ret (PBool b));
    (k <- randint min_str max_str ;;
     s <- choices ascii_letters_digits (Z.to_nat k) ;; ret (PStr s));
    (s <- choice status_strings ;; ret (PStr s));
    (n <- randint 1000 9999 ;; ret (PStr ("user_" ++ str n)));
    (n <- randint 100000 999999 ;; ret (PStr ("session_" ++ str n)));
    (n <- randint 1000000000 9999999999 ;; ret (PInt n)) ].

(** [random.choice(self.field_templates)()] *)
Definition draw_field (g : MessageGenerator) : M pyval :=
  template <- choice (field_templates g) ;; template.

(** [f'"{field_name}":{json.dumps(field_value, separators=(",", ":"))}'] *)
Definition field_json (field_name : string) (field_value : pyval) : string :=
  String quote (field_name ++ String quote (String ":" (dumps_value field_value))).

(** [isinstance(v, (int, float))]; [bool] is a subclass of [int]. *)
Definition is_int_or_float (v : pyval) : bool :=
  match v with PInt _ | PFloat _ | PBool _ => true | PStr _ => false end.

(** The branch taken when [current_size + field_size > self.target_size]
    (lines 189-200): the value to store, or [None] for [break]. *)
Definition shrink_field (g : MessageGenerator) (current_size field_count : Z)
    (field_name : string) (field_value : pyval) : M (option pyval) :=
  match field_value with
  | PStr s =>
    if len s >? 5 then
      let max_str_len := target_size g - current_size - len field_name - 10 in
      if max_str_len >? 0
      then ret (Some (PStr (take (Z.to_nat max_str_len) s)))
      else ret None
    else ret None        (* a [str] is no [(int, float)]: [break] *)
  | _ =>
    if (is_int_or_float field_value && (field_count >? 10))%bool
    then n <- randint 1 99 ;; ret (Some (PInt n))
    else ret None
  end.

(** The [while] loop of [generate_message] (lines 179-204).  Each turn
    either leaves the loop or adds one to [field_count], so [fuel] counts
    the turns still allowed. *)
Fixpoint fields_loop (fuel : nat) (g : MessageGenerator) (max_fields : Z)
    (message : dict) (current_size field_count : Z) : M dict :=
  if ((current_size <? target_size g - size_tolerance g)
      && (field_count <? max_fields))%bool then
    match fuel with
    | O => fun _ pos => (OutOfFuel, pos)
    | S fuel' =>
      let field_name := ("field_" ++ str field_count)%string in
      field_value <- draw_field g ;;
      let field_size := len (field_json field_name field_value) + 1 in
      kept <- (if current_size + field_size >? target_size g
               then shrink_field g current_size field_count field_name field_value
               else ret (Some field_value)) ;;
      match kept with
      | None => ret message
      | Some v =>
        fields_loop fuel' g max_fields (dict_set message field_name v)
                    (current_size + field_size) (field_count + 1)
      end
    end
  else ret message.

(** The dictionary [generate_message] serialises. *)
Definition generate_dict (g : MessageGenerator) : M dict :=
  timestamp <- now_isoformat ;;
  stockName <- choice (stock_symbols g) ;;
  let message := [("timestamp"%string, PStr timestamp);
                  ("stockName"%string, PStr stockName)] in
  let base_json := dumps message in
  let current_size := len base_json in
  delta <- randint (- field_count_variance g) (field_count_variance g) ;;
  let max_fields := target_field_count g + delta in
  fields_loop (Z.to_nat max_fields) g max_fields message current_size 0.

(** [generate_message] *)
Definition generate_message (g : MessageGenerator) : M string :=
  message <- generate_dict g ;;
  ret (dumps message).

(* ================================================================= *)
(** ** The process: globals, awaits and what can be observed *)

(** The module-level [stats] dictionary.  [time.time()] readings are
    rationals; [None] is Python's [None]. *)
Record stats_t : Type := {
  total_sent : Z;
  last_second_count : Z;
  start_time : option Q;
  last_stats_time : option Q
}.

(** What the outside decides at one [await]: whether the task is cancelled
    while suspended there, and whether an SDK call awaited there fails. *)
Record await_outcome : Type := {
  cancelled : bool;
  sdk_fails : bool
}.

Record environment : Type := {
  env_source : source;
  env_awaits : nat -> await_outcome;
  max_size_in_bytes : Z;          (* the limit of an [EventDataBatch] *)
  event_size : string -> Z        (* bytes an [EventData] takes in a batch *)
}.

Inductive output : Type :=
| ShutdownNotice
| RateReport (elapsed : Q) (current_rate : Z) (avg_rate : Q) (total : Z)
| FinalStatistics (elapsed : Q) (total : Z) (avg_rate : Q).

Inductive event : Type :=
| Submitted (messages : list string)      (* [sender.send_batch(messages)] entered *)
| Delivered (batch : list string)         (* [producer.send_batch] completed *)
| LoggedSendError (e : exn)               (* [logging.error] of [send_batch] *)
| LoggedWorkerError (worker_id : Z) (e : exn)
| Counted (sent_count : Z)                (* the two [+=] on [stats] *)
| Slept (seconds : Q)                     (* [asyncio.sleep] ran to its end *)
| Printed (line : output).

(** The mutable state of the process; [trace] has the newest event first. *)
Record world : Type := {
  shutdown_event : bool;
  stats : stats_t;
  rng_pos : nat;
  await_pos : nat;
  trace : list event
}.

Definition initial_stats : stats_t :=
  {| total_sent := 0; last_second_count := 0;
     start_time := None; last_stats_time := None |}.

Definition initial_world : world :=
  {| shutdown_event := false; stats := initial_stats;
     rng_pos := 0; await_pos := 0; trace := [] |}.

Definition IO (A : Type) : Type := ST environment world A.

Definition emit (ev : event) : IO unit :=
  fun _ w =>
    (Ok tt, {| shutdown_event := shutdown_event w; stats := stats w;
               rng_pos := rng_pos w; await_pos := await_pos w;
               trace := ev :: trace w |}).

Definition get_stats : IO stats_t := fun _ w => (Ok (stats w), w).

Definition put_stats (s : stats_t) : IO unit :=
  fun _ w =>
    (Ok tt, {| shutdown_event := shutdown_event w; stats := s;
               rng_pos := rng_pos w; await_pos := await_pos w;
               trace := trace w |}).

(** [shutdown_event.set()] *)
Definition set_shutdown : IO unit :=
  fun _ w =>
    (Ok tt, {| shutdown_event := true; stats := stats w;
               rng_pos := rng_pos w; await_pos := await_pos w;
               trace := trace w |}).

(** Generator code run inside the process. *)
Definition lift_gen {A} (c : M A) : IO A :=
  fun env w =>
    let (r, pos') := c (env_source env) (rng_pos w) in
    (r, {| shutdown_event := shutdown_event w; stats := stats w;
           rng_pos := pos'; await_pos := await_pos w; trace := trace w |}).

(** One suspension point.  [sdk] tells an SDK call from a plain sleep. *)
Definition await (sdk : bool) : IO unit :=
  fun env w =>
    let o := env_awaits env (await_pos w) in
    let w' := {| shutdown_event := shutdown_event w; stats := stats w;
                 rng_pos := rng_pos w; await_pos := S (await_pos w);
                 trace := trace w |} in
    if cancelled o then (Raise CancelledError, w')
    else if (sdk && sdk_fails o)%bool then (Raise SinkError, w')
    else (Ok tt, w').

(** [await asyncio.sleep(seconds)] *)
Definition sleep (seconds : Q) : IO unit :=
  _ <- await false ;; emit (Slept seconds).

(** [try: c  except <handles>: h] *)
Definition try_except {A} (c : IO A) (handles : exn -> bool) (h : exn -> IO A)
  : IO A :=
  fun env w =>
    match c env w with
    | (Raise e, w') => if handles e then h e env w' else (Raise e, w')
    | r => r
    end.

(* ================================================================= *)
(** ** [EventHubSender.send_batch] (lines 228-250) *)

Record EventDataBatch : Type := {
  events : list string;
  size_in_bytes : Z
}.

Definition empty_batch : EventDataBatch :=
  {| events := []; size_in_bytes := 0 |}.

(** [event_data_batch.add(EventData(message))]: [ValueError] when the
    batch would pass its size limit. *)
Definition batch_add (b : EventDataBatch) (message : string) : IO EventDataBatch :=
  fun env w =>
    if size_in_bytes b + event_size env message >? max_size_in_bytes env
    then (Raise ValueError, w)
    else (Ok {| events := (events b ++ [message])%list;
                size_in_bytes := size_in_bytes b + event_size env message |}, w).

(** [await self.producer.create_batch()] *)
Definition create_batch : IO EventDataBatch :=
  _ <- await true ;; ret empty_batch.

(** [await self.producer.send_batch(event_data_batch)] *)
Definition producer_send_batch (b : EventDataBatch) : IO unit :=
  _ <- await true ;; emit (Delivered (events b)).

Definition is_ValueError (e : exn) : bool :=
  match e with ValueError => true | _ => false end.

(** The [for message in messages] loop (lines 234-241). *)
Fixpoint add_messages (messages : list string) (event_data_batch : EventDataBatch)
  : IO EventDataBatch :=
  match messages with
  | [] => ret event_data_batch
  | message :: rest =>
    b <- try_except (batch_add event_data_batch message) is_ValueError
           (fun _ =>
              _ <- producer_send_batch event_data_batch ;;
              fresh <- create_batch ;;
              batch_add fresh message) ;;
    add_messages rest b
  end.

(** [async with self.producer: body]: the producer is closed on the way
    out, also when [body] raised; an exception of the close replaces the
    body's outcome. *)
Definition with_producer {A} (body : IO A) : IO A :=
  fun env w =>
    match body env w with
    | (r, w') =>
      match await true env w' with
      | (Ok _, w'') => (r, w'')
      | (Raise e, w'') => (Raise e, w'')
      | (OutOfFuel, w'') => (OutOfFuel, w'')
      end
    end.

(** The body of the [async with] (lines 232-247). *)
Definition send_batch_body (messages : list string) : IO Z :=
  event_data_batch <- create_batch ;;
  event_data_batch <- add_messages messages event_data_batch ;;
  _ <- (if Z.of_nat (List.length (events event_data_batch)) >? 0
        then producer_send_batch event_data_batch
        else ret tt) ;;
  ret (Z.of_nat (List.length messages)).

Definition send_batch (messages : list string) : IO Z :=
  _ <- emit (Submitted messages) ;;
  try_except
    (with_producer (send_batch_body messages))
    is_Exception
    (fun e => _ <- emit (LoggedSendError e) ;; ret 0).

(* ================================================================= *)
(** ** [message_sender_worker] (lines 253-294) *)

Record worker : Type := {
  message_generator : MessageGenerator;
  rate_per_worker : Z;
  worker_id : Z;
  config : simulator_config
}.

Inductive control : Type := Continue | Exit.

(** [[message_generator.generate_message() for _ in range(n)]] *)
Fixpoint generate_messages (g : MessageGenerator) (n : nat) : M (list string) :=
  match n with
  | O => ret []
  | S n' =>
    m <- generate_message g ;;
    ms <- generate_messages g n' ;;
    ret (m :: ms)
  end.

(** [stats['total_sent'] += n; stats['last_second_count'] += n] *)
Definition add_sent (sent_count : Z) : IO unit :=
  s <- get_stats ;;
  _ <- put_stats {| total_sent := total_sent s + sent_count;
                    last_second_count := last_second_count s;
                    start_time := start_time s;
                    last_stats_time := last_stats_time s |} ;;
  s <- get_stats ;;
  _ <- put_stats {| total_sent := total_sent s;
                    last_second_count := last_second_count s + sent_count;
                    start_time := start_time s;
                    last_stats_time := last_stats_time s |} ;;
  emit (Counted sent_count).

(** The body of the [try] (lines 276-288). *)
Definition worker_try (wk : worker) : IO unit :=
  let batch := batch_size (config wk) (rate_per_worker wk) in
  let pause := sleep_time (config wk) (rate_per_worker wk) in
  messages <- lift_gen (generate_messages (message_generator wk) (Z.to_nat batch)) ;;
  sent_count <- send_batch messages ;;
  _ <- add_sent sent_count ;;
  if Qle_bool pause 0 then ret tt else sleep pause.

(** One evaluation of the loop condition and, when it holds, one turn of
    the loop.  [Exit] is the end of the coroutine; a [CancelledError]
    raised in the error handler's own sleep leaves it by exception. *)
Definition worker_iteration (wk : worker) : IO control :=
  fun env w =>
    if shutdown_event w then (Ok Exit, w)
    else
      match worker_try wk env w with
      | (Ok _, w') => (Ok Continue, w')
      | (Raise CancelledError, w') => (Ok Exit, w')
      | (Raise e, w') =>
        (_ <- emit (LoggedWorkerError (worker_id wk) e) ;;
         _ <- sleep (1 # 10) ;;
         ret Continue) env w'
      | (OutOfFuel, w') => (OutOfFuel, w')
      end.

(** At most [n] turns of the worker's loop. *)
Fixpoint worker_iterations (n : nat) (wk : worker) : IO control :=
  match n with
  | O => ret Continue
  | S n' =>
    c <- worker_iteration wk ;;
    match c with
    | Continue => worker_iterations n' wk
    | Exit => ret Exit
    end
  end.

(* ================================================================= *)
(** ** [stats_reporter], [signal_handler] and the end of [main] *)

(** [a / b] on a count and a duration *)
Definition rate_of (count : Z) (elapsed : Q) : Q :=
  if Qle_bool elapsed 0 then 0%Q else (inject_Z count / elapsed)%Q.

(** Lines 299-300, before the reporter's loop. *)
Definition reporter_start (now : Q) : IO unit :=
  s <- get_stats ;;
  _ <- put_stats {| total_sent := total_sent s;
                    last_second_count := last_second_count s;
                    start_time := Some now;
                    last_stats_time := last_stats_time s |} ;;
  s <- get_stats ;;
  put_stats {| total_sent := total_sent s;
               last_second_count := last_second_count s;
               start_time := start_time s;
               last_stats_time := start_time s |}.

(** Lines 306-319: the report of one tick, after the one-second sleep.
    Subtracting [None] is a [TypeError]. *)
Definition reporter_tick (current_time : Q) : IO unit :=
  s <- get_stats ;;
  match start_time s with
  | None => raise TypeError
  | Some t0 =>
    let elapsed := (current_time - t0)%Q in
    let current_rate := last_second_count s in
    let avg_rate := rate_of (total_sent s) elapsed in
    _ <- emit (Printed (RateReport elapsed current_rate avg_rate (total_sent s))) ;;
    s <- get_stats ;;
    _ <- put_stats {| total_sent := total_sent s;
                      last_second_count := 0;
                      start_time := start_time s;
                      last_stats_time := last_stats_time s |} ;;
    s <- get_stats ;;
    put_stats {| total_sent := total_sent s;
                 last_second_count := last_second_count s;
                 start_time := start_time s;
                 last_stats_time := Some current_time |}
  end.

(** One evaluation of the reporter's loop condition and one turn. *)
Definition reporter_iteration (current_time : Q) : IO control :=
  fun env w =>
    if shutdown_event w then (Ok Exit, w)
    else
      match (_ <- sleep 1 ;; reporter_tick current_time) env w with
      | (Ok _, w') => (Ok Continue, w')
      | (Raise CancelledError, w') => (Ok Exit, w')
      | (Raise e, w') => (Raise e, w')
      | (OutOfFuel, w') => (OutOfFuel, w')
      end.

(** [signal_handler(signum, frame)] *)
Definition signal_handler : IO unit :=
  _ <- emit (Printed ShutdownNotice) ;; set_shutdown.

(** What the [finally] block of [main] prints (lines 452-458).
    [if stats['start_time']] is false for [None] and for [0.0]. *)
Definition final_statistics (now : Q) : IO output :=
  s <- get_stats ;;
  let elapsed := match start_time s with
                 | Some t0 => if Qeq_bool t0 0 then 0%Q else (now - t0)%Q
                 | None => 0%Q
                 end in
  let avg_rate := rate_of (total_sent s) elapsed in
  let summary := FinalStatistics elapsed (total_sent s) avg_rate in
  _ <- emit (Printed summary) ;;
  ret summary.

(** What can happen, one task at a time, under the event loop. *)
Inductive action : Type :=
| WorkerTurn (wk : worker)
| ReporterStart (now : Q)
| ReporterTurn (current_time : Q)
| Sigint
| DurationElapsed
| FinalSummary (now : Q).

Definition perform (a : action) : IO unit :=
  match a with
  | WorkerTurn wk => _ <- worker_iteration wk ;; ret tt
  | ReporterStart now => reporter_start now
  | ReporterTurn t => _ <- reporter_iteration t ;; ret tt
  | Sigint => signal_handler
  | DurationElapsed => set_shutdown
  | FinalSummary now => _ <- final_statistics now ;; ret tt
  end.

(** A run of the process; an exception ends the task that raised it, not
    the others.  Tasks are interleaved turn by turn: every write to [stats]
    sits in a stretch of code without [await] (the two [+=] of a worker,
    the report and reset of the reporter), so an interleaving at the awaits
    inside a turn orders the same writes as some run of whole turns.  The
    states of a run are those between turns: the state of a worker
    suspended inside [send_batch], with a batch handed over and not yet
    counted, is none of them. *)
Fixpoint run (actions : list action) (env : environment) (w : world) : world :=
  match actions with
  | [] => w
  | a :: rest => run rest env (snd (perform a env w))
  end.

(* ================================================================= *)
(** ** Coroutines under the event loop

    The workers are [asyncio] tasks of one thread: a task that runs keeps
    running until its next [await].  A statement [stats[k] += n] is a load,
    an addition and a store, with no [await] between them. *)

Inductive instr : Type :=
| IAwait                    (* [await ...]: the task is suspended *)
| ILoadTotal                (* read [stats['total_sent']] *)
| IStoreTotal (n : Z)       (* write the value read, plus [n] *)
| ILoadWindow               (* read [stats['last_second_count']] *)
| IStoreWindow (n : Z).

Record task : Type := {
  reg : Z;                  (* the value last read *)
  code : list instr         (* what is left to run *)
}.

Definition exec_instr (i : instr) (r : Z) (s : stats_t) : Z * stats_t :=
  match i with
  | IAwait => (r, s)
  | ILoadTotal => (total_sent s, s)
  | IStoreTotal n =>
    (r, {| total_sent := r + n; last_second_count := last_second_count s;
           start_time := start_time s; last_stats_time := last_stats_time s |})
  | ILoadWindow => (last_second_count s, s)
  | IStoreWindow n =>
    (r, {| total_sent := total_sent s; last_second_count := r + n;
           start_time := start_time s; last_stats_time := last_stats_time s |})
  end.

(** One turn of the worker's loop as the event loop sees it (lines
    280-288): the awaited send, the two [+=], the awaited sleep. *)
Definition turn_after_send (n : Z) : list instr :=
  [ILoadTotal; IStoreTotal n; ILoadWindow; IStoreWindow n; IAwait].

Definition turn_code (n : Z) : list instr := IAwait :: turn_after_send n.

(** A caller that adds [n], [m] times. *)
Fixpoint adder_code (n : Z) (m : nat) : list instr :=
  match m with
  | O => []
  | S m' => (turn_code n ++ adder_code n m')%list
  end.

Definition adder (n : Z) (m : nat) : task := {| reg := 0; code := adder_code n m |}.

(** A resumed task runs up to and including its next [await]. *)
Fixpoint resume (c : list instr) (r : Z) (s : stats_t) : task * stats_t :=
  match c with
  | [] => ({| reg := r; code := [] |}, s)
  | IAwait :: rest => ({| reg := r; code := rest |}, s)
  | i :: rest => let (r', s') := exec_instr i r s in resume rest r' s'
  end.

(** Replace element [i] of [l]; nothing happens out of range. *)
Fixpoint set_nth {A} (i : nat) (x : A) (l : list A) : list A :=
  match i, l with
  | _, [] => []
  | O, _ :: l' => x :: l'
  | S i', y :: l' => y :: set_nth i' x l'
  end.

(** The event loop resumes task [i]. *)
Definition loop_step (i : nat) (st : list task * stats_t) : list task * stats_t :=
  let (tasks, s) := st in
  match nth_error tasks i with
  | Some t => let (t', s') := resume (code t) (reg t) s in (set_nth i t' tasks, s')
  | None => st
  end.

(** A schedule: which task the event loop resumes, turn after turn. *)
Definition loop_run (schedule : list nat) (st : list task * stats_t)
  : list task * stats_t :=
  fold_left (fun st i => loop_step i st) schedule st.

Definition finished (t : task) : bool :=
  match code t with [] => true | _ => false end.

(** The schedule that runs each of [k] tasks of [m] turns to its end before
    the next one starts: two resumptions per turn. *)
Definition sequential_schedule (k m : nat) : list nat :=
  flat_map (fun i => repeat i (2 * m)) (seq 0 k).

(** For contrast: threads that may be switched after every instruction. *)
Definition thread_step (i : nat) (st : list task * stats_t) : list task * stats_t :=
  let (tasks, s) := st in
  match nth_error tasks i with
  | Some {| reg := r; code := ins :: rest |} =>
    let (r', s') := exec_instr ins r s in
    (set_nth i {| reg := r'; code := rest |} tasks, s')
  | _ => st
  end.

Definition thread_run (schedule : list nat) (st : list task * stats_t)
  : list task * stats_t :=
  fold_left (fun st i => thread_step i st) schedule st.

(* ================================================================= *)
(** ** Sample inputs *)

Definition sample_float : pyfloat :=
  {| fl_neg := false; fl_whole := 523;
     fl_frac := Decimal.D1 (Decimal.D7 Decimal.Nil); fl_exp := None |}.

(** A source whose draw number [i] is [7 i + 3]. *)
Definition sample_source : source :=
  {| ints := fun i => N.of_nat (7 * i + 3);
     floats := fun _ => sample_float;
     round_overflows := fun _ => false;
     clock := fun _ => "2026-11-03T22:57:01.123456+00:00"%string |}.

(** No cancellation, and every SDK call succeeds or every SDK call fails. *)
Definition sample_environment (sink_down : bool) : environment :=
  {| env_source := sample_source;
     env_awaits := fun _ => {| cancelled := false; sdk_fails := sink_down |};
     max_size_in_bytes := 1048576;
     event_size := fun m => len m + 64 |}.

(** The process two seconds in, 300 messages sent, 100 of them in the
    current window. *)
Definition sample_world : world :=
  {| shutdown_event := false;
     stats := {| total_sent := 300; last_second_count := 100;
                 start_time := Some (1000 # 1)%Q;
                 last_stats_time := Some (1001 # 1)%Q |};
     rng_pos := 0; await_pos := 0; trace := [] |}.

(** A generator for messages of 230 bytes with no tolerance, and a source
    under which it appends ten booleans and then draws the integer
    1000000002 as its eleventh candidate. *)
Definition tight_generator : MessageGenerator :=
  MessageGenerator_init 230 ["AAPL"%string]
    {| cfg_target_field_count := None; cfg_field_count_variance := None;
       cfg_size_tolerance := Some 0; cfg_string_length_range := None;
       cfg_number_range := None; cfg_float_precision := None |}.

Definition ten_bools_then_int : source :=
  {| ints := fun i => if Nat.eqb i 23 then 7%N else 2%N;
     floats := fun _ => sample_float;
     round_overflows := fun _ => false;
     clock := fun _ => "2026-11-03T22:57:01.123456+00:00"%string |}.

(** A source whose raw draws are all 1: the first template chosen is the
    second of the list, the float template. *)
Definition float_template_first : source :=
  {| ints := fun _ => 1%N;
     floats := fun _ => sample_float;
     round_overflows := fun _ => false;
     clock := fun _ => "2026-11-03T22:57:01.123456+00:00"%string |}.

Definition ten_bools : dict :=
  [("timestamp", PStr "2026-11-03T22:57:01.123456+00:00");
   ("stockName", PStr "AAPL");
   ("field_0", PBool true); ("field_1", PBool true); ("field_2", PBool true);
   ("field_3", PBool true); ("field_4", PBool true); ("field_5", PBool true);
   ("field_6", PBool true); ("field_7", PBool true); ("field_8", PBool true);
   ("field_9", PBool true)]%string.

(** A worker with the default generator and configuration. *)
Definition sample_worker (rate : Z) : worker :=
  {| message_generator := MessageGenerator_init 500 [] no_message_generation_config;
     rate_per_worker := rate;
     worker_id := 0;
     config := default_simulator_config |}.

(* ================================================================= *)
(** ** Vocabulary of the statements *)

(** The world in which [send_batch] starts its [try], after the worker
    generated [messages] and moved the source on to [pos]. *)
Definition submitting (messages : list string) (pos : nat) (w : world) : world :=
  {| shutdown_event := shutdown_event w; stats := stats w;
     rng_pos := pos; await_pos := await_pos w;
     trace := Submitted messages :: trace w |}.

(** The pause a worker takes at the end of a turn, as events. *)
Definition pacing_pause (wk : worker) : list event :=
  let pause := sleep_time (config wk) (rate_per_worker wk) in
  if Qle_bool pause 0 then [] else [Slept pause].

(** Observations that do not look at the position in the await outcomes. *)
Definition ignores_await {X : Type} (f : world -> X) : Prop :=
  forall w a,
    f {| shutdown_event := shutdown_event w; stats := stats w;
         rng_pos := rng_pos w; await_pos := a; trace := trace w |} = f w.

(** Observations that do not look at the position in the random source. *)
Definition ignores_rng {X : Type} (f : world -> X) : Prop :=
  forall w r,
    f {| shutdown_event := shutdown_event w; stats := stats w;
         rng_pos := r; await_pos := await_pos w; trace := trace w |} = f w.

(** The events that neither count messages nor submit a batch. *)
Definition bookkeeping (ev : event) : Prop :=
  match ev with
  | Counted _ | Submitted _ => False
  | _ => True
  end.

(** Observations that see no bookkeeping event of the trace. *)
Definition ignores_bookkeeping {X : Type} (f : world -> X) : Prop :=
  forall ev w,
    bookkeeping ev ->
    f {| shutdown_event := shutdown_event w; stats := stats w;
         rng_pos := rng_pos w; await_pos := await_pos w;
         trace := ev :: trace w |} = f w.

(** Observations that event [ev] does not change. *)
Definition ignores_event {X : Type} (f : world -> X) (ev : event) : Prop :=
  forall w,
    f {| shutdown_event := shutdown_event w; stats := stats w;
         rng_pos := rng_pos w; await_pos := await_pos w;
         trace := ev :: trace w |} = f w.

(** The counts of the [Counted] events of a trace, summed. *)
Fixpoint counted (tr : list event) : Z :=
  match tr with
  | [] => 0
  | Counted n :: tr' => n + counted tr'
  | _ :: tr' => counted tr'
  end.

(** The shutdown flag, [stats], and the sum of all counts handed to the
    two [+=]: what the properties of the counters and of the flag speak
    about. *)
Definition ledger (w : world) : bool * stats_t * Z :=
  (shutdown_event w, stats w, counted (trace w)).

(** The batches handed to [send_batch], newest first. *)
Fixpoint submissions (tr : list event) : list (list string) :=
  match tr with
  | [] => []
  | Submitted ms :: tr' => ms :: submissions tr'
  | _ :: tr' => submissions tr'
  end.

(** What was submitted so far, and how far the random source was read. *)
Definition submitted (w : world) : list (list string) * nat :=
  (submissions (trace w), rng_pos w).

(** [stats] after [n] more messages were counted. *)
Definition add_counts (n : Z) (s : stats_t) : stats_t :=
  {| total_sent := total_sent s + n;
     last_second_count := last_second_count s + n;
     start_time := start_time s;
     last_stats_time := last_stats_time s |}.

(** [c] leaves the observation [f] of the process as it found it, however
    it ends. *)
Definition preserves {X A : Type} (f : world -> X) (c : IO A) : Prop :=
  forall env w, f (snd (c env w)) = f w.

(** An outcome to be ruled out: running out of fuel ([None]) or raising a
    given exception. *)
Definition is_bad {A : Type} (b : option exn) (r : result A) : Prop :=
  match b, r with
  | None, OutOfFuel => True
  | Some e, Raise e' => e = e'
  | _, _ => False
  end.

(** In the environments of [P], [c] never ends in [b]. *)
Definition never {E S A : Type} (P : E -> Prop) (b : option exn) (c : ST E S A)
  : Prop :=
  forall env st, P env -> ~ is_bad b (fst (c env st)).

(** [c] ends as Python code ends: with a value or with an exception. *)
Definition terminates {E S A : Type} (c : ST E S A) : Prop :=
  never (fun _ => True) None c.

(** The two outcomes the code itself never produces: it cannot run out of
    fuel, and only an [await] raises [CancelledError]. *)
Definition benign (b : option exn) : Prop :=
  b = None \/ b = Some CancelledError.

(** The next character ends a number: it is no digit, point or exponent
    mark.  The separators [,] and [}] are such characters. *)
Definition ends_number (rest : string) : Prop :=
  match rest with
  | EmptyString => True
  | String c _ =>
    is_digit c = false /\ c <> "."%char /\ c <> "e"%char /\ c <> "E"%char
  end.

(** The next character is no digit. *)
Definition ends_digits (rest : string) : Prop :=
  match rest with
  | EmptyString => True
  | String c _ => is_digit c = false
  end.

(** The fraction and the exponent of a float repr. *)
Definition frac_text (f : pyfloat) : string :=
  match fl_frac f, fl_exp f with
  | Decimal.Nil, None => ".0"
  | Decimal.Nil, Some _ => ""
  | d, _ => String "." (NilEmpty.string_of_uint d)
  end.

Definition exp_text (f : pyfloat) : string :=
  match fl_exp f with
  | None => ""
  | Some e => String "e" ((if e <? 0 then "-" else "+") ++ exp_digits (Z.abs_N e))
  end.

(** A string that [json.dumps] writes between quotes as it is: none of its
    characters is escaped. *)
Fixpoint plain (s : string) : Prop :=
  match s with
  | EmptyString => True
  | String c s' => encode_char c = String c EmptyString /\ plain s'
  end.

(** The ranges of a generator from which [random.randint] can draw. *)
Definition ranges_ok (g : MessageGenerator) : Prop :=
  0 <= field_count_variance g
  /\ fst (string_length_range g) <= snd (string_length_range g)
  /\ fst (number_range g) <= snd (number_range g).

(** The number range and precision of a generator whose float template
    always returns: [max_num / 100] is not beyond the floats, and neither
    is the rounding of a float between 0.01 and it, because the precision
    is not negative, or is below -308, or because [|max_num| / 100] is more
    than [10^(-precision) / 2] below the largest float. *)
Definition floats_ok (g : MessageGenerator) : Prop :=
  Z.abs (snd (number_range g)) < 100 * float_overflow
  /\ (0 <= float_precision g
      \/ float_precision g < -308
      \/ 2 * Z.abs (snd (number_range g)) + 100 * 10 ^ (- float_precision g)
         < 200 * float_max).

(** What ruling out [b] asks of a generator: non-empty ranges against
    [ValueError], a non-empty symbol list against [IndexError], a number
    range within the floats against [OverflowError]. *)
Definition generator_ok (b : option exn) (g : MessageGenerator) : Prop :=
  (b = Some ValueError -> ranges_ok g)
  /\ (b = Some IndexError -> stock_symbols g <> [])
  /\ (b = Some OverflowError -> floats_ok g).

(** Every await completes: no cancellation, no failure of the SDK. *)
Definition sink_up (env : environment) : Prop :=
  forall i, cancelled (env_awaits env i) = false
            /\ sdk_fails (env_awaits env i) = false.

(** A message that an empty [EventDataBatch] can take. *)
Definition fits (env : environment) (message : string) : Prop :=
  event_size env message <= max_size_in_bytes env.

(** No task is cancelled at any await. *)
Definition uncancelled (env : environment) : Prop :=
  forall i, cancelled (env_awaits env i) = false.

(** The environments in which [b] is to be ruled out. *)
Definition quiet (b : option exn) (env : environment) : Prop :=
  b = Some CancelledError -> uncancelled env.

(** The two ways the shutdown flag is set: the signal handler and the end
    of the configured duration. *)
Definition trigger (by_signal : bool) : action :=
  if by_signal then Sigint else DurationElapsed.

(** How many additions to [total_sent] a task still has to make. *)
Fixpoint stores_left (c : list instr) : Z :=
  match c with
  | [] => 0
  | IStoreTotal _ :: c' => 1 + stores_left c'
  | _ :: c' => stores_left c'
  end.

Fixpoint all_stores_left (tasks : list task) : Z :=
  match tasks with
  | [] => 0
  | t :: tasks' => stores_left (code t) + all_stores_left tasks'
  end.

(** A task between two turns of its loop, or suspended in the awaited
    send of a turn. *)
Definition at_await (n : Z) (t : task) : Prop :=
  exists m, code t = adder_code n m
            \/ code t = (turn_after_send n ++ adder_code n m)%list.

(** The cumulative counter, [stats['total_sent']]. *)
Definition total (w : world) : Z := total_sent (stats w).

(** The window counter, [stats['last_second_count']]. *)
Definition window (w : world) : Z := last_second_count (stats w).

(* ================================================================= *)
(** ** [sys.exit], truth values and the strings of the command line *)

(** A function that returns or ends the process with [sys.exit(code)]. *)
Inductive exit_or (A : Type) : Type :=
| Returns (a : A)
| Exits (code : Z).

Arguments Returns {A} a.
Arguments Exits {A} code.

(** The truth value of a string or [None]: false for [None] and for [''];
    what [if v], [not v] and [v or w] look at. *)
Definition truthy (v : option string) : bool :=
  match v with
  | Some (String _ _) => true
  | _ => false
  end.

(** [a or b] *)
Definition py_or (a b : option string) : option string :=
  if truthy a then a else b.

(** [c in s] for a character [c] *)
Fixpoint contains (c : ascii) (s : string) : bool :=
  match s with
  | EmptyString => false
  | String c' s' => (Ascii.eqb c' c || contains c s')%bool
  end.

(** [s.split(sep)] for a one-character separator: the pieces between the
    separators, one more than there are separators. *)
Fixpoint split (sep : ascii) (s : string) : list string :=
  match s with
  | EmptyString => [EmptyString]
  | String c s' =>
    if Ascii.eqb c sep then EmptyString :: split sep s'
    else match split sep s' with
         | piece :: pieces => String c piece :: pieces
         | [] => [String c EmptyString]
         end
  end.

(** [sep.join(l)] *)
Fixpoint join (sep : string) (l : list string) : string :=
  match l with
  | [] => EmptyString
  | [x] => x
  | x :: l' => (x ++ sep ++ join sep l')%string
  end.

(** [c.isspace()] on the code points 0..255: tab to carriage return, the
    four separators 28..31, the space, NEL and the no-break space. *)
Definition isspace (c : ascii) : bool :=
  let n := nat_of_ascii c in
  ((Nat.leb 9 n && Nat.leb n 13) || (Nat.leb 28 n && Nat.leb n 32)
   || Nat.eqb n 133 || Nat.eqb n 160)%bool.

(** [s.lstrip()] *)
Fixpoint lstrip (s : string) : string :=
  match s with
  | EmptyString => EmptyString
  | String c s' => if isspace c then lstrip s' else s
  end.

(** [s.rstrip()] *)
Fixpoint rstrip (s : string) : string :=
  match s with
  | EmptyString => EmptyString
  | String c s' =>
    match rstrip s' with
    | EmptyString => if isspace c then EmptyString else String c EmptyString
    | r => String c r
    end
  end.

(** [s.strip()] *)
Definition strip (s : string) : string := rstrip (lstrip s).

(** [bool(s)] of a string *)
Definition nonempty (s : string) : bool :=
  match s with EmptyString => false | _ => true end.

(* ================================================================= *)
(** ** [get_eventhub_connection_details] (lines 75-125)

    The configuration is the [eventhub] and the [azure_keyvault] section
    of [config.json], with the types the shipped file gives their values;
    an absent key, like an absent section, is [None]. *)

Record connection_config : Type := {
  cfg_connection_string : option string;
  cfg_eventhub_name : option string;
  kv_enabled : option bool;
  kv_vault_url : option string;
  kv_connection_string_secret_name : option string;
  kv_eventhub_name_secret_name : option string
}.

(** What the Azure SDK does for this process: whether [azure.keyvault] and
    [azure.identity] can be imported; for a vault URL, whether a credential
    and a [SecretClient] can be made ([None]: that raises), and for a secret
    name the [.value] of the secret ([None]: [get_secret] raises;
    [Some None]: the value is Python's [None]). *)
Record keyvault_sdk : Type := {
  sdk_importable : bool;
  secret_client : string -> option (string -> option (option string))
}.

(** The lines the function prints, by kind. *)
Inductive notice : Type :=
| RetrievedFromKeyVault
| KeyVaultWarning
| ConnectionStringNotFound
| EventHubNameNotFound.

(** The [try] of lines 89-108 with its handler: the two settings
    afterwards, and what was printed. *)
Definition keyvault_lookup (sdk : keyvault_sdk) (config : connection_config)
    (connection_string eventhub_name : option string)
  : option string * option string * list notice :=
  if negb (sdk_importable sdk)
  then (connection_string, eventhub_name, [KeyVaultWarning])
  else
    let connection_secret_name :=
      get (kv_connection_string_secret_name config) "eventhub-connection-string"%string in
    let eventhub_secret_name :=
      get (kv_eventhub_name_secret_name config) "eventhub-name"%string in
    match kv_vault_url config with
    | Some (String _ _ as vault_url) =>
      match secret_client sdk vault_url with
      | None => (connection_string, eventhub_name, [KeyVaultWarning])
      | Some get_secret =>
        match (if truthy connection_string then Some connection_string
               else get_secret connection_secret_name) with
        | None => (connection_string, eventhub_name, [KeyVaultWarning])
        | Some connection_string' =>
          match (if truthy eventhub_name then Some eventhub_name
                 else get_secret eventhub_secret_name) with
          | None => (connection_string', eventhub_name, [KeyVaultWarning])
          | Some eventhub_name' =>
            (connection_string', eventhub_name', [RetrievedFromKeyVault])
          end
        end
      end
    | _ => (connection_string, eventhub_name, [])
    end.

(** [get_eventhub_connection_details(config)], given [os.getenv] and the
    SDK: what it prints, and the pair it returns or the exit code. *)
Definition get_eventhub_connection_details (getenv : string -> option string)
    (sdk : keyvault_sdk) (config : connection_config)
  : list notice * exit_or (string * string) :=
  let connection_string :=
    py_or (getenv "EVENT_HUB_CONNECTION_STRING"%string) (cfg_connection_string config) in
  let eventhub_name :=
    py_or (getenv "EVENT_HUB_NAME"%string) (cfg_eventhub_name config) in
  let '(connection_string, eventhub_name, notices) :=
    if (get (kv_enabled config) false && negb (truthy connection_string))%bool
    then keyvault_lookup sdk config connection_string eventhub_name
    else (connection_string, eventhub_name, []) in
  match connection_string with
  | Some (String _ _ as connection_string) =>
    match eventhub_name with
    | Some (String _ _ as eventhub_name) =>
      (notices, Returns (connection_string, eventhub_name))
    | _ => ((notices ++ [EventHubNameNotFound])%list, Exits 1)
    end
  | _ => ((notices ++ [ConnectionStringNotFound])%list, Exits 1)
  end.

(** [get_eventhub_connection_details] of [test_simulator.py] (lines 24-38):
    the configuration first, the environment when the configuration has
    no value; nothing is checked. *)
Definition test_get_eventhub_connection_details (getenv : string -> option string)
    (config : connection_config) : option string * option string :=
  let connection_string := cfg_connection_string config in
  let eventhub_name := cfg_eventhub_name config in
  let connection_string :=
    if negb (truthy connection_string)
    then getenv "EVENT_HUB_CONNECTION_STRING"%string else connection_string in
  let eventhub_name :=
    if negb (truthy eventhub_name)
    then getenv "EVENT_HUB_NAME"%string else eventhub_name in
  (connection_string, eventhub_name).

(** [check_environment] of [setup.py] (lines 22-43): the required
    variables that are missing; the function returns whether there is none. *)
Definition missing_vars (getenv : string -> option string) : list string :=
  filter (fun var => negb (truthy (getenv var)))
         ["EVENT_HUB_CONNECTION_STRING"; "EVENT_HUB_NAME"]%string.

Definition check_environment (getenv : string -> option string) : bool :=
  match missing_vars getenv with [] => true | _ => false end.

(* ================================================================= *)
(** ** [load_stock_symbols] (lines 331-346) and the symbols of [main] *)

(** What the file system has at a path: no regular file, a file that
    cannot be opened or read, or a text file as the lines that iterating
    over it gives, each with its line end. *)
Inductive file_state : Type :=
| NoFile
| Unreadable
| Lines (lines : list string).

Section StockSymbols.

(** [str.upper]: the case mapping of Unicode, which does not stay within
    the code points 0..255 (the upper case of [chr(255)] is [chr(376)]);
    the model leaves it open, and a property that needs a fact about it
    says so. *)
Variable upper : string -> string.

(** [os.path.isfile] and [open] *)
Variable files : string -> file_state.

(** [[s.strip().upper() for s in pieces if s.strip()]] *)
Definition stripped_upper (pieces : list string) : list string :=
  map (fun s => upper (strip s)) (filter (fun s => nonempty (strip s)) pieces).

Definition load_stock_symbols (stocks_input : string) : exit_or (list string) :=
  if contains "," stocks_input
  then Returns (stripped_upper (split "," stocks_input))
  else match files stocks_input with
       | Lines lines => Returns (stripped_upper lines)
       | Unreadable => Exits 1
       | NoFile => Returns [upper stocks_input]
       end.

(** Lines 356, 371-373, 385 and 395 of [main]: the default of [--stocks]
    is the configured [default_symbols] joined by commas, and the
    generator is made from what [load_stock_symbols] returns for the
    argument. *)
Definition main_generator (default_symbols : option (list string))
    (arg_stocks : option string) (msg_size : Z)
    (msg_config : message_generation_config) : exit_or MessageGenerator :=
  let default_stocks := join "," (get default_symbols default_stock_symbols) in
  match load_stock_symbols (get arg_stocks default_stocks) with
  | Returns stock_symbols =>
    Returns (MessageGenerator_init msg_size stock_symbols msg_config)
  | Exits code => Exits code
  end.

End StockSymbols.

(** [str.upper] on the letters [a..z]; other characters of the ASCII range
    have no upper case. *)
Definition ascii_upper_char (c : ascii) : ascii :=
  let n := nat_of_ascii c in
  if (Nat.leb 97 n && Nat.leb n 122)%bool then ascii_of_nat (n - 32) else c.

Fixpoint ascii_upper (s : string) : string :=
  match s with
  | EmptyString => EmptyString
  | String c s' => String (ascii_upper_char c) (ascii_upper s')
  end.

(* ================================================================= *)
(** ** [main]: the worker tasks (lines 405-424) *)

(** The workers [main] creates: [range(num_workers)] numbers them, and each
    gets the same share of the rate. *)
Definition main_workers (rate : Z) (cfg : simulator_config) (g : MessageGenerator)
  : result (list worker) :=
  match main_split rate (max_workers cfg) with
  | Ok (n, share) =>
    Ok (map (fun i => {| message_generator := g; rate_per_worker := share;
                         worker_id := Z.of_nat i; config := cfg |})
            (seq 0 (Z.to_nat n)))
  | Raise e => Raise e
  | OutOfFuel => OutOfFuel
  end.

(** The rates of a list of workers, summed. *)
Definition total_rate (workers : list worker) : Z :=
  fold_right (fun wk acc => rate_per_worker wk + acc) 0 workers.

(* ================================================================= *)
(** ** More vocabulary *)

(** The keys of a dictionary, in insertion order. *)
Definition keys (d : dict) : list string := map fst d.

(** [field_0], ..., [field_(k-1)] *)
Definition field_names (k : nat) : list string :=
  map (fun i => ("field_" ++ str (Z.of_nat i))%string) (seq 0 k).

(** The dictionary [generate_message] starts from. *)
Definition base_message (timestamp stockName : string) : dict :=
  [("timestamp"%string, PStr timestamp); ("stockName"%string, PStr stockName)].

(** The batches the producer has sent, newest first. *)
Fixpoint deliveries (tr : list event) : list (list string) :=
  match tr with
  | [] => []
  | Delivered b :: tr' => b :: deliveries tr'
  | _ :: tr' => deliveries tr'
  end.

(** How many messages the producer has been handed. *)
Fixpoint delivered_count (tr : list event) : Z :=
  match tr with
  | [] => 0
  | Delivered b :: tr' => Z.of_nat (List.length b) + delivered_count tr'
  | _ :: tr' => delivered_count tr'
  end.

(** The bytes a list of messages takes in a batch. *)
Definition batch_bytes (env : environment) (b : list string) : Z :=
  fold_right (fun m acc => event_size env m + acc) 0 b.

(** The per-second counts the reporter has printed, summed. *)
Fixpoint reported (tr : list event) : Z :=
  match tr with
  | [] => 0
  | Printed (RateReport _ current_rate _ _) :: tr' => current_rate + reported tr'
  | _ :: tr' => reported tr'
  end.

(** A string of which nothing is to be stripped at the left: the empty
    string, or one that begins with no whitespace. *)
Definition left_stripped (s : string) : Prop :=
  match s with
  | EmptyString => True
  | String c _ => isspace c = false
  end.

(** A symbol that [load_stock_symbols] passes on as it is. *)
Definition clean_symbol (upper : string -> string) (s : string) : Prop :=
  s <> EmptyString /\ strip s = s /\ contains "," s = false /\ upper s = s.

(** An environment without the two variables, and one with both. *)
Definition no_environment : string -> option string := fun _ => None.

Definition sample_getenv : string -> option string :=
  fun var =>
    if String.eqb var "EVENT_HUB_CONNECTION_STRING" then Some "Endpoint=sb://env/"%string
    else if String.eqb var "EVENT_HUB_NAME" then Some "env-hub"%string
    else None.

(** A vault that holds both secrets under their default names. *)
Definition sample_sdk : keyvault_sdk :=
  {| sdk_importable := true;
     secret_client := fun _ =>
       Some (fun name =>
               if String.eqb name "eventhub-connection-string"
               then Some (Some "Endpoint=sb://vault/"%string)
               else if String.eqb name "eventhub-name" then Some (Some "vault-hub"%string)
               else None) |}.

Definition sample_connection_config : connection_config :=
  {| cfg_connection_string := Some "Endpoint=sb://config/"%string;
     cfg_eventhub_name := None;
     kv_enabled := Some true;
     kv_vault_url := Some "https://vault.example/"%string;
     kv_connection_string_secret_name := None;
     kv_eventhub_name_secret_name := None |}.

(** An installation without the Key Vault packages. *)
Definition no_sdk : keyvault_sdk :=
  {| sdk_importable := false; secret_client := fun _ => None |}.

(** A file system with no file at all. *)
Definition no_files : string -> file_state := fun _ => NoFile.

(* ################################################################# *)
(** * Properties *)

(* ================================================================= *)
(** ** Clamping *)

Lemma clamp_bounds (lo hi x : Z) : lo <= hi -> lo <= clamp lo hi x <= hi.
Proof. unfold clamp. lia. Qed.

Lemma clamp_inside (lo hi x : Z) : lo <= x <= hi -> clamp lo hi x = x.
Proof. unfold clamp. lia. Qed.

Lemma clamp_below (lo hi x : Z) : lo <= hi -> x <= lo -> clamp lo hi x = lo.
Proof. unfold clamp. lia. Qed.

Lemma clamp_above (lo hi x : Z) : lo <= hi -> hi <= x -> clamp lo hi x = hi.
Proof. unfold clamp. lia. Qed.

(** [main] nests [min] and [max] the other way round; with [lo <= hi] the
    two agree. *)
Lemma min_max_clamp (lo hi x : Z) :
  lo <= hi -> Z.min hi (Z.max lo x) = clamp lo hi x.
Proof. unfold clamp. lia. Qed.

(* ================================================================= *)
(** ** C1: worker count and per-worker rate *)

(** C1, as stated, fails: with a concurrency cap of 0 the worker count is
    0, not floored at 1, and [main] raises [ZeroDivisionError] instead of
    computing a per-worker rate. *)
Lemma main_split_cap_zero :
  num_workers 10000 0 = 0 /\ main_split 10000 0 = Raise ZeroDivisionError.
Proof. split; reflexivity. Qed.

(** C1 (amended): for every global rate and every concurrency cap of at
    least 1, [main] computes [numWorkers = clamp(1, cap, rate // 1000)],
    which lies in [1..cap], and [perWorkerRate = rate // numWorkers]. *)
Theorem main_split_clamp (rate cap : Z) :
  1 <= cap ->
  main_split rate cap
    = Ok (clamp 1 cap (rate / 1000), rate / clamp 1 cap (rate / 1000))
  /\ 1 <= clamp 1 cap (rate / 1000) <= cap.
Proof.
  intros Hcap. split; [|apply clamp_bounds; assumption].
  unfold main_split, num_workers, floordiv.
  rewrite (min_max_clamp 1 cap (rate / 1000) Hcap).
  pose proof (clamp_bounds 1 cap (rate / 1000) Hcap) as Hb.
  destruct (Z.eqb_spec (clamp 1 cap (rate / 1000)) 0) as [E|_]; [lia|reflexivity].
Qed.

(** The three splits the specification lists. *)
Lemma main_split_examples :
  (1 <= 50 /\ main_split 10000 50 = Ok (10, 1000))
  /\ main_split 500 50 = Ok (1, 500)
  /\ main_split 200000 50 = Ok (50, 4000).
Proof.
  assert (H : 1 <= 50) by lia.
  split; [split|split].
  - exact H.
  - exact (proj1 (main_split_clamp 10000 50 H)).
  - exact (proj1 (main_split_clamp 500 50 H)).
  - exact (proj1 (main_split_clamp 200000 50 H)).
Defined.

(* ================================================================= *)
(** ** C2: the batch plan of a worker *)

Lemma batch_size_clamp (cfg : simulator_config) (rate : Z) :
  batch_size cfg rate
  = clamp (min_batch_size cfg) (max_batch_size cfg) (target_batch cfg rate).
Proof. reflexivity. Qed.



(* ================================================================= *)
(** ** Frame rules of the process monad *)

Lemma bind_unfold {E S A B} (c : ST E S A) (k : A -> ST E S B) env st :
  (x <- c ;; k x) env st
  = match c env st with
    | (Ok a, st') => k a env st'
    | (Raise e, st') => (Raise e, st')
    | (OutOfFuel, st') => (OutOfFuel, st')
    end.
Proof. reflexivity. Qed.

Lemma preserves_ret {X A} (f : world -> X) (a : A) : preserves f (ret a).
Proof. intros env w; reflexivity. Qed.

Lemma preserves_raise {X A} (f : world -> X) (e : exn) :
  preserves f (@raise environment world A e).
Proof. intros env w; reflexivity. Qed.

Lemma preserves_bind {X A B} (f : world -> X) (c : IO A) (k : A -> IO B) :
  preserves f c -> (forall a, preserves f (k a)) -> preserves f (x <- c ;; k x).
Proof.
  intros Hc Hk env w. rewrite bind_unfold.
  specialize (Hc env w). destruct (c env w) as [[a|e|] w1]; simpl in *.
  - rewrite Hk. exact Hc.
  - exact Hc.
  - exact Hc.
Qed.

Lemma preserves_try_except {X A} (f : world -> X) (c : IO A) handles h :
  preserves f c -> (forall e, preserves f (h e)) ->
  preserves f (try_except c handles h).
Proof.
  intros Hc Hh env w. unfold try_except.
  specialize (Hc env w). destruct (c env w) as [[a|e|] w1]; simpl in *; auto.
  destruct (handles e); simpl; auto. rewrite Hh. exact Hc.
Qed.

Lemma preserves_await {X} (f : world -> X) (sdk : bool) :
  ignores_await f -> preserves f (await sdk).
Proof.
  intros Hf env w. unfold await.
  destruct (cancelled _); [apply Hf|].
  destruct (sdk && _)%bool; apply Hf.
Qed.

Lemma preserves_with_producer {X A} (f : world -> X) (body : IO A) :
  ignores_await f -> preserves f body -> preserves f (with_producer body).
Proof.
  intros Hf Hb env w. pose proof (preserves_await f true Hf) as Ha.
  unfold with_producer.
  specialize (Hb env w). destruct (body env w) as [r w1]; simpl in *.
  specialize (Ha env w1).
  destruct (await true env w1) as [[a|e|] w2]; simpl in *; congruence.
Qed.

Lemma preserves_lift_gen {X A} (f : world -> X) (c : M A) :
  ignores_rng f -> preserves f (lift_gen c).
Proof.
  intros Hf env w. unfold lift_gen.
  destruct (c (env_source env) (rng_pos w)) as [r pos']. apply Hf.
Qed.

Lemma preserves_emit {X} (f : world -> X) (ev : event) :
  ignores_event f ev -> preserves f (emit ev).
Proof. intros Hf env w. apply Hf. Qed.

Lemma preserves_batch_add {X} (f : world -> X) b m : preserves f (batch_add b m).
Proof. intros env w. unfold batch_add. destruct (_ >? _); reflexivity. Qed.

Lemma never_ret {E S A} (P : E -> Prop) (b : option exn) (a : A) :
  never P b (@ret E S A a).
Proof. intros env st _. destruct b; exact (fun H => H). Qed.

Lemma never_raise {E S A} (P : E -> Prop) (b : option exn) (e : exn) :
  b <> Some e -> never P b (@raise E S A e).
Proof.
  intros He env st _. destruct b as [e'|]; simpl; [|exact (fun H => H)].
  intros H. apply He. now subst.
Qed.

Lemma benign_generator_ok (b : option exn) (g : MessageGenerator) :
  benign b -> generator_ok b g.
Proof. intros [->| ->]; repeat split; discriminate. Qed.

Lemma is_bad_Raise {A B} (b : option exn) (e : exn) :
  is_bad b (@Raise A e) -> is_bad b (@Raise B e).
Proof. destruct b; exact (fun H => H). Qed.

Lemma is_bad_OutOfFuel {A B} (b : option exn) :
  is_bad b (@OutOfFuel A) -> is_bad b (@OutOfFuel B).
Proof. destruct b; exact (fun H => H). Qed.

Lemma never_bind_ok {E S A B} (P : E -> Prop) (b : option exn)
    (c : ST E S A) (k : A -> ST E S B) :
  never P b c ->
  (forall env st a st', c env st = (Ok a, st') -> never P b (k a)) ->
  never P b (x <- c ;; k x).
Proof.
  intros Hc Hk env st HP. rewrite bind_unfold.
  specialize (Hc env st HP).
  destruct (c env st) as [[a|e|] st1] eqn:Hrun; simpl in *.
  - eapply Hk; eauto.
  - intros H. apply Hc. revert H. apply is_bad_Raise.
  - intros H. apply Hc. revert H. apply is_bad_OutOfFuel.
Qed.

Lemma never_bind {E S A B} (P : E -> Prop) (b : option exn)
    (c : ST E S A) (k : A -> ST E S B) :
  never P b c -> (forall a, never P b (k a)) -> never P b (x <- c ;; k x).
Proof. intros Hc Hk. apply never_bind_ok; auto. Qed.

Lemma never_try_except {A} P (b : option exn) (c : IO A) handles h :
  never P b c -> (forall e, never P b (h e)) -> never P b (try_except c handles h).
Proof.
  intros Hc Hh env w HP. unfold try_except.
  specialize (Hc env w HP). destruct (c env w) as [[a|e|] w1]; simpl in *; auto.
  destruct (handles e); [apply Hh; exact HP|exact Hc].
Qed.

(** An await is cancelled only when the environment says so. *)
Lemma never_await (b : option exn) (sdk : bool) :
  benign b -> never (quiet b) b (await sdk).
Proof.
  intros [->| ->] env w Hq; unfold await.
  - destruct (cancelled _); [exact (fun H => H)|].
    destruct (sdk && _)%bool; exact (fun H => H).
  - rewrite (Hq eq_refl (await_pos w)).
    destruct (sdk && _)%bool; simpl; [discriminate|exact (fun H => H)].
Qed.

Lemma never_emit P (b : option exn) (ev : event) : never P b (emit ev).
Proof. intros env w _. destruct b; exact (fun H => H). Qed.

Lemma never_sleep (b : option exn) (q : Q) : benign b -> never (quiet b) b (sleep q).
Proof.
  intros Hb. apply never_bind; [apply never_await, Hb|intros; apply never_emit].
Qed.

Lemma never_batch_add P (b : option exn) batch m :
  benign b -> never P b (batch_add batch m).
Proof.
  intros [->| ->] env w _; unfold batch_add; destruct (_ >? _); simpl;
    try exact (fun H => H); discriminate.
Qed.

Lemma never_create_batch (b : option exn) : benign b -> never (quiet b) b create_batch.
Proof.
  intros Hb. apply never_bind; [apply never_await, Hb|intros; apply never_ret].
Qed.

Lemma never_producer_send_batch (b : option exn) batch :
  benign b -> never (quiet b) b (producer_send_batch batch).
Proof.
  intros Hb. apply never_bind; [apply never_await, Hb|intros; apply never_emit].
Qed.

Lemma never_add_messages (b : option exn) messages :
  benign b -> forall batch, never (quiet b) b (add_messages messages batch).
Proof.
  intros Hb. induction messages as [|m rest IH]; intros batch; simpl.
  - apply never_ret.
  - apply never_bind; [|exact IH].
    apply never_try_except; [apply never_batch_add, Hb|].
    intros _. apply never_bind; [apply never_producer_send_batch, Hb|].
    intros _. apply never_bind; [apply never_create_batch, Hb|].
    intros fresh. apply never_batch_add, Hb.
Qed.

Lemma never_with_producer {A} (b : option exn) (body : IO A) :
  benign b -> never (quiet b) b body -> never (quiet b) b (with_producer body).
Proof.
  intros Hb Hbody env w HP. unfold with_producer.
  specialize (Hbody env w HP). destruct (body env w) as [r w1]; simpl in *.
  pose proof (never_await b true Hb env w1 HP) as Ha.
  destruct (await true env w1) as [[a|e|] w2]; simpl in *.
  - exact Hbody.
  - intros H. apply Ha. revert H. apply is_bad_Raise.
  - intros H. apply Ha. revert H. apply is_bad_OutOfFuel.
Qed.

Lemma never_send_batch_body (b : option exn) messages :
  benign b -> never (quiet b) b (send_batch_body messages).
Proof.
  intros Hb. unfold send_batch_body.
  apply never_bind; [apply never_create_batch, Hb|intros batch].
  apply never_bind; [apply never_add_messages, Hb|intros batch'].
  apply never_bind; [|intros; apply never_ret].
  destruct (_ >? _); [apply never_producer_send_batch, Hb|apply never_ret].
Qed.

Lemma never_send_batch (b : option exn) messages :
  benign b -> never (quiet b) b (send_batch messages).
Proof.
  intros Hb. unfold send_batch.
  apply never_bind; [apply never_emit|intros _].
  apply never_try_except.
  - apply never_with_producer, never_send_batch_body; exact Hb.
  - intros e. apply never_bind; [apply never_emit|intros; apply never_ret].
Qed.

Lemma quiet_None (env : environment) : quiet None env.
Proof. intros H; discriminate. Qed.

(* ================================================================= *)
(** ** The count [send_batch] returns *)

(** Whatever the body of the [async with] returns is [len(messages)]. *)
Lemma send_batch_body_value messages env w a w' :
  send_batch_body messages env w = (Ok a, w') ->
  a = Z.of_nat (List.length messages).
Proof.
  unfold send_batch_body. rewrite bind_unfold.
  destruct (create_batch env w) as [[b| |] w1]; try discriminate.
  rewrite bind_unfold.
  destruct (add_messages messages b env w1) as [[b'| |] w2]; try discriminate.
  rewrite bind_unfold.
  match goal with
  | |- context [?c env w2] => destruct (c env w2) as [[u| |] w3]; try discriminate
  end.
  unfold ret. intros H; inversion H; reflexivity.
Qed.

Lemma with_producer_value {A} (body : IO A) env w a w' :
  with_producer body env w = (Ok a, w') ->
  exists w1, body env w = (Ok a, w1).
Proof.
  unfold with_producer. destruct (body env w) as [r w1].
  destruct (await true env w1) as [[u|e|] w2]; intros H; inversion H; subst.
  exists w1; reflexivity.
Qed.

(** [send_batch] returns [len(messages)] or 0, unless it is cancelled: a
    [CancelledError] is no [Exception] and passes through. *)
Lemma send_batch_result (messages : list string)
    (env : environment) (w : world) :
  let r := fst (send_batch messages env w) in
  r = Ok (Z.of_nat (List.length messages))
  \/ r = Ok 0
  \/ r = Raise CancelledError.
Proof.
  unfold send_batch. rewrite bind_unfold. cbn [emit].
  set (w0 := {| shutdown_event := _ |}).
  unfold try_except.
  pose proof (never_with_producer None _ (or_introl eq_refl)
                (never_send_batch_body None messages (or_introl eq_refl))
                env w0 (quiet_None env)) as Hfuel.
  destruct (with_producer (send_batch_body messages) env w0) as [[a|e|] w1] eqn:E;
    simpl in *.
  - left. apply with_producer_value in E. destruct E as [w2 E].
    apply send_batch_body_value in E. now subst.
  - destruct e; simpl; auto.
  - now elim Hfuel.
Qed.

(* ================================================================= *)
(** ** What [send_batch] and [sleep] leave alone *)

Section Frame.

Context {X : Type} (f : world -> X).
Hypothesis f_await : ignores_await f.
Hypothesis f_events : ignores_bookkeeping f.

Lemma frame_emit (ev : event) : bookkeeping ev -> preserves f (emit ev).
Proof. intros Hev env w. apply f_events, Hev. Qed.

Lemma frame_sleep (q : Q) : preserves f (sleep q).
Proof.
  apply preserves_bind; [apply preserves_await, f_await|intros _].
  apply frame_emit. exact I.
Qed.

Lemma frame_create_batch : preserves f create_batch.
Proof.
  apply preserves_bind; [apply preserves_await, f_await|intros _].
  apply preserves_ret.
Qed.

Lemma frame_producer_send_batch b : preserves f (producer_send_batch b).
Proof.
  apply preserves_bind; [apply preserves_await, f_await|intros _].
  apply frame_emit. exact I.
Qed.

Lemma frame_add_messages messages :
  forall b, preserves f (add_messages messages b).
Proof.
  induction messages as [|m rest IH]; intros b; simpl.
  - apply preserves_ret.
  - apply preserves_bind; [|exact IH].
    apply preserves_try_except; [apply preserves_batch_add|].
    intros _. apply preserves_bind; [apply frame_producer_send_batch|].
    intros _. apply preserves_bind; [apply frame_create_batch|].
    intros fresh. apply preserves_batch_add.
Qed.

Lemma frame_send_batch_body messages : preserves f (send_batch_body messages).
Proof.
  unfold send_batch_body.
  apply preserves_bind; [apply frame_create_batch|intros b].
  apply preserves_bind; [apply frame_add_messages|intros b'].
  apply preserves_bind; [|intros; apply preserves_ret].
  destruct (_ >? _); [apply frame_producer_send_batch|apply preserves_ret].
Qed.

Lemma frame_send_batch_try messages :
  preserves f (with_producer (send_batch_body messages)).
Proof.
  apply preserves_with_producer; [exact f_await|apply frame_send_batch_body].
Qed.

Lemma frame_send_batch messages :
  ignores_event f (Submitted messages) -> preserves f (send_batch messages).
Proof.
  intros Hsub. unfold send_batch.
  apply preserves_bind; [apply preserves_emit, Hsub|intros _].
  apply preserves_try_except; [apply frame_send_batch_try|].
  intros e. apply preserves_bind; [|intros; apply preserves_ret].
  apply frame_emit. exact I.
Qed.

End Frame.

(* ================================================================= *)
(** ** The ledger: flag, counters and counted messages *)

Lemma ledger_ignores_await : ignores_await ledger.
Proof. intros w a; reflexivity. Qed.

Lemma ledger_ignores_rng : ignores_rng ledger.
Proof. intros w r; reflexivity. Qed.

Lemma ledger_ignores_event (ev : event) :
  (forall n, ev <> Counted n) -> ignores_event ledger ev.
Proof.
  intros Hev w. unfold ledger; simpl.
  destruct ev; try reflexivity. now elim (Hev sent_count).
Qed.

Lemma ledger_ignores_bookkeeping : ignores_bookkeeping ledger.
Proof.
  intros ev w Hev. apply ledger_ignores_event. intros n ->. exact Hev.
Qed.

Lemma add_counts_0 (s : stats_t) : add_counts 0 s = s.
Proof. destruct s; unfold add_counts; simpl. now rewrite !Z.add_0_r. Qed.

Lemma ledger_sleep (q : Q) : preserves ledger (sleep q).
Proof.
  apply frame_sleep; [apply ledger_ignores_await|apply ledger_ignores_bookkeeping].
Qed.

(** [send_batch] itself touches neither the flag nor the counters. *)
Lemma ledger_send_batch messages : preserves ledger (send_batch messages).
Proof.
  apply frame_send_batch;
    [apply ledger_ignores_await|apply ledger_ignores_bookkeeping|].
  apply ledger_ignores_event. discriminate.
Qed.

Lemma add_sent_ledger (n : Z) env w :
  fst (add_sent n env w) = Ok tt
  /\ ledger (snd (add_sent n env w))
     = (shutdown_event w, add_counts n (stats w), n + counted (trace w)).
Proof. split; reflexivity. Qed.

Lemma generate_messages_length g n :
  forall src pos ms pos',
    generate_messages g n src pos = (Ok ms, pos') -> List.length ms = n.
Proof.
  induction n as [|n IH]; intros src pos ms pos'; simpl.
  - unfold ret. intros H; inversion H; reflexivity.
  - rewrite bind_unfold.
    destruct (generate_message g src pos) as [[m| |] p1]; try discriminate.
    rewrite bind_unfold.
    destruct (generate_messages g n src p1) as [[ms'| |] p2] eqn:E; try discriminate.
    unfold ret. intros H; inversion H; subst. simpl. f_equal. eapply IH; eauto.
Qed.

(* ================================================================= *)
(** ** One turn of a worker *)

(** The messages a worker generates for one batch. *)
Lemma batch_length_max (b : Z) : Z.of_nat (Z.to_nat b) = Z.max 0 b.
Proof. lia. Qed.

(** The body of the worker's [try] counts 0 or the whole batch. *)
Lemma worker_try_ledger (wk : worker) env w :
  exists n,
    (n = 0 \/ n = Z.max 0 (batch_size (config wk) (rate_per_worker wk)))
    /\ ledger (snd (worker_try wk env w))
       = (shutdown_event w, add_counts n (stats w), n + counted (trace w)).
Proof.
  unfold worker_try. rewrite bind_unfold.
  pose proof (preserves_lift_gen ledger
                (generate_messages (message_generator wk)
                   (Z.to_nat (batch_size (config wk) (rate_per_worker wk))))
                ledger_ignores_rng env w) as Hgen.
  unfold lift_gen in *.
  destruct (generate_messages _ _ (env_source env) (rng_pos w))
    as [[ms|e|] p1] eqn:Egen; simpl in Hgen |- *;
    try (exists 0; split; [now left|];
         rewrite Hgen, add_counts_0; reflexivity).
  set (w1 := {| shutdown_event := _ |}) in *.
  apply generate_messages_length in Egen.
  rewrite bind_unfold.
  pose proof (send_batch_result ms env w1) as Hres.
  pose proof (ledger_send_batch ms env w1) as Hsend.
  destruct (send_batch ms env w1) as [r w2]; simpl in Hres, Hsend.
  assert (Hflag : shutdown_event w2 = shutdown_event w
                  /\ stats w2 = stats w
                  /\ counted (trace w2) = counted (trace w)).
  { unfold ledger in Hsend, Hgen. rewrite Hgen in Hsend.
    inversion Hsend. auto. }
  destruct Hflag as (Hsd & Hst & Hct).
  assert (Hcount : forall n, exists w3,
             (_ <- add_sent n ;;
              if Qle_bool (sleep_time (config wk) (rate_per_worker wk)) 0
              then ret tt
              else sleep (sleep_time (config wk) (rate_per_worker wk))) env w2
             = (fst ((_ <- add_sent n ;;
              if Qle_bool (sleep_time (config wk) (rate_per_worker wk)) 0
              then ret tt
              else sleep (sleep_time (config wk) (rate_per_worker wk))) env w2), w3)
             /\ ledger w3
                = (shutdown_event w, add_counts n (stats w), n + counted (trace w))).
  { intros n. rewrite bind_unfold.
    destruct (add_sent_ledger n env w2) as [Hok Hled].
    destruct (add_sent n env w2) as [r3 w3]; simpl in Hok, Hled; subst r3.
    destruct (Qle_bool _ 0).
    - exists w3. split; [reflexivity|]. rewrite Hled, Hsd, Hst, Hct. reflexivity.
    - pose proof (ledger_sleep (sleep_time (config wk) (rate_per_worker wk)) env w3)
        as Hsl.
      destruct (sleep _ env w3) as [r4 w4]; simpl in Hsl |- *.
      exists w4. split; [reflexivity|].
      rewrite Hsl, Hled, Hsd, Hst, Hct. reflexivity. }
  destruct Hres as [->|[->| ->]].
  - exists (Z.max 0 (batch_size (config wk) (rate_per_worker wk))).
    split; [now right|].
    rewrite Egen, batch_length_max.
    destruct (Hcount (Z.max 0 (batch_size (config wk) (rate_per_worker wk))))
      as (w3 & -> & Hl). exact Hl.
  - exists 0. split; [now left|].
    destruct (Hcount 0) as (w3 & -> & Hl). exact Hl.
  - exists 0. split; [now left|]. simpl.
    unfold ledger. rewrite Hsd, Hst, Hct, add_counts_0. reflexivity.
Qed.

(** One turn of the worker's loop counts 0 or the whole batch, and leaves
    the shutdown flag alone. *)
Lemma worker_iteration_ledger (wk : worker) env w :
  exists n,
    (n = 0 \/ n = Z.max 0 (batch_size (config wk) (rate_per_worker wk)))
    /\ ledger (snd (worker_iteration wk env w))
       = (shutdown_event w, add_counts n (stats w), n + counted (trace w)).
Proof.
  unfold worker_iteration.
  destruct (shutdown_event w) eqn:Hsd.
  - exists 0. split; [now left|]. simpl. unfold ledger.
    rewrite Hsd, add_counts_0. reflexivity.
  - destruct (worker_try_ledger wk env w) as (n & Hn & Hl).
    rewrite Hsd in Hl.
    destruct (worker_try wk env w) as [[u|e|] w1]; simpl in Hl;
      try (exists n; split; [exact Hn|exact Hl]).
    destruct e; try (exists n; split; [exact Hn|exact Hl]);
      (exists n; split; [exact Hn|];
       rewrite <- Hl;
       match goal with
       | |- ledger (snd (?c env w1)) = _ =>
         assert (Hp : preserves ledger c); [|apply Hp]
       end;
       (apply preserves_bind;
        [apply preserves_emit, ledger_ignores_event; discriminate|intros _];
        apply preserves_bind; [apply ledger_sleep|intros; apply preserves_ret])).
Qed.

(* ================================================================= *)
(** ** A submission that succeeds, a submission that fails *)

Lemma await_up (sdk : bool) env w :
  sink_up env ->
  await sdk env w
  = (Ok tt, {| shutdown_event := shutdown_event w; stats := stats w;
               rng_pos := rng_pos w; await_pos := S (await_pos w);
               trace := trace w |}).
Proof.
  intros Hup. unfold await. destruct (Hup (await_pos w)) as [-> ->].
  now rewrite andb_false_r.
Qed.

(** With the sink up, every message ends up in a batch: a full batch is
    sent and a new one takes the message. *)
Lemma add_messages_up env messages :
  sink_up env -> Forall (fits env) messages ->
  forall b w, exists b' w', add_messages messages b env w = (Ok b', w').
Proof.
  intros Hup Hfit. induction Hfit as [|m rest Hm Hrest IH]; intros b w.
  - exists b, w. reflexivity.
  - cbn [add_messages]. rewrite bind_unfold. unfold try_except.
    unfold batch_add at 1.
    destruct (size_in_bytes b + event_size env m >? max_size_in_bytes env).
    + cbn [is_ValueError]. rewrite bind_unfold.
      unfold producer_send_batch. rewrite bind_unfold, await_up by exact Hup.
      cbn [emit]. rewrite bind_unfold.
      unfold create_batch. rewrite bind_unfold, await_up by exact Hup.
      cbn [ret]. unfold batch_add, empty_batch. cbn [size_in_bytes events].
      assert (Hz : (0 + event_size env m >? max_size_in_bytes env) = false).
      { rewrite Z.gtb_ltb. apply Z.ltb_ge. unfold fits in Hm. lia. }
      rewrite Hz. apply IH.
    + apply IH.
Qed.

(** With the sink up and messages that fit, the count is the length of
    the list, however many batches it took. *)
Lemma send_batch_up env messages w :
  sink_up env -> Forall (fits env) messages ->
  fst (send_batch messages env w) = Ok (Z.of_nat (List.length messages)).
Proof.
  intros Hup Hfit. unfold send_batch. rewrite bind_unfold. cbn [emit].
  unfold try_except, with_producer, send_batch_body.
  rewrite bind_unfold. unfold create_batch. rewrite bind_unfold, await_up by exact Hup.
  cbn [ret]. rewrite bind_unfold.
  match goal with
  | |- context [add_messages messages ?b env ?w0] =>
    destruct (add_messages_up env messages Hup Hfit b w0) as (b' & w' & ->)
  end.
  rewrite bind_unfold.
  destruct (Z.of_nat (List.length (events b')) >? 0).
  - unfold producer_send_batch. rewrite bind_unfold, await_up by exact Hup.
    cbn [emit ret]. rewrite await_up by exact Hup. reflexivity.
  - cbn [ret]. rewrite await_up by exact Hup. reflexivity.
Qed.

(** An exception of the submission is logged and turned into a count of 0. *)
Lemma send_batch_down env messages w e w2 :
  with_producer (send_batch_body messages) env (submitting messages (rng_pos w) w)
  = (Raise e, w2) ->
  is_Exception e = true ->
  send_batch messages env w
  = (Ok 0, {| shutdown_event := shutdown_event w2; stats := stats w2;
              rng_pos := rng_pos w2; await_pos := await_pos w2;
              trace := LoggedSendError e :: trace w2 |}).
Proof.
  intros Hfail Hexc. unfold send_batch. rewrite bind_unfold. cbn [emit].
  unfold try_except. unfold submitting in Hfail. rewrite Hfail, Hexc.
  reflexivity.
Qed.

(* ================================================================= *)
(** ** C10: all-or-nothing counts *)

(** C10: for every batch, every state of the process and every behaviour
    of the SDK, [send_batch] returns exactly [len(messages)] or 0 (or is
    cancelled, which returns nothing): [len(messages)] when the sink is up
    and each message fits a batch, however many batches that takes, 0 when
    the submission raises; so one turn of a worker adds to both counters
    either 0 or the size of its batch, never a count strictly between the
    two. *)
Theorem send_batch_all_or_nothing (messages : list string) (wk : worker)
    (env : environment) (w : world) :
  (let r := fst (send_batch messages env w) in
   r = Ok (Z.of_nat (List.length messages)) \/ r = Ok 0 \/ r = Raise CancelledError)
  /\ (sink_up env -> Forall (fits env) messages ->
      fst (send_batch messages env w) = Ok (Z.of_nat (List.length messages)))
  /\ (forall e w2,
        with_producer (send_batch_body messages) env
          (submitting messages (rng_pos w) w) = (Raise e, w2) ->
        is_Exception e = true ->
        fst (send_batch messages env w) = Ok 0)
  /\ (let w' := snd (worker_iteration wk env w) in
      let size := Z.max 0 (batch_size (config wk) (rate_per_worker wk)) in
      (total w' = total w /\ window w' = window w)
      \/ (total w' = total w + size /\ window w' = window w + size)).
Proof.
  split; [apply send_batch_result|].
  split; [apply send_batch_up|].
  split.
  { intros e w2 Hfail Hexc.
    now rewrite (send_batch_down env messages w e w2 Hfail Hexc). }
  destruct (worker_iteration_ledger wk env w) as (n & Hn & Hl).
  unfold ledger in Hl. inversion Hl as [[Hsd Hst Hct]].
  unfold total, window. simpl. rewrite Hst. unfold add_counts; simpl.
  destruct Hn as [->| ->]; [left|right]; split; lia.
Qed.

(** Two messages against a sink that is up, and against a sink that is
    down. *)
Lemma send_batch_all_or_nothing_sample :
  let messages := ["{}"; "[]"]%string in
  (sink_up (sample_environment false)
   /\ Forall (fits (sample_environment false)) messages
   /\ fst (send_batch messages (sample_environment false) initial_world) = Ok 2)
  /\ (exists w2,
        with_producer (send_batch_body messages) (sample_environment true)
          (submitting messages (rng_pos initial_world) initial_world)
        = (Raise SinkError, w2)
        /\ fst (send_batch messages (sample_environment true) initial_world) = Ok 0).
Proof.
  cbv zeta.
  assert (Hup : sink_up (sample_environment false)) by (intros i; split; reflexivity).
  assert (Hfit : Forall (fits (sample_environment false)) ["{}"; "[]"]%string).
  { repeat constructor; unfold fits; simpl; lia. }
  split.
  - split; [exact Hup|]. split; [exact Hfit|].
    exact (proj1 (proj2 (send_batch_all_or_nothing ["{}"; "[]"]%string
                           (sample_worker 5) (sample_environment false)
                           initial_world)) Hup Hfit).
  - eexists. split; [reflexivity|].
    exact (proj1 (proj2 (proj2 (send_batch_all_or_nothing ["{}"; "[]"]%string
                                  (sample_worker 5) (sample_environment true)
                                  initial_world))) SinkError _ eq_refl eq_refl).
Defined.

(* ================================================================= *)
(** ** The reporter, the handler and the final summary *)

Lemma reporter_start_ledger now env w :
  let w' := snd (reporter_start now env w) in
  shutdown_event w' = shutdown_event w
  /\ total w' = total w /\ window w' = window w
  /\ counted (trace w') = counted (trace w).
Proof. repeat split. Qed.

Lemma reporter_tick_ledger t env w :
  let w' := snd (reporter_tick t env w) in
  shutdown_event w' = shutdown_event w
  /\ total w' = total w
  /\ start_time (stats w') = start_time (stats w)
  /\ counted (trace w') = counted (trace w).
Proof.
  unfold reporter_tick. rewrite bind_unfold. cbn [get_stats].
  destruct (start_time (stats w)) eqn:E; simpl; rewrite ?E; repeat split.
Qed.

Lemma reporter_iteration_ledger t env w :
  let w' := snd (reporter_iteration t env w) in
  shutdown_event w' = shutdown_event w
  /\ total w' = total w
  /\ start_time (stats w') = start_time (stats w)
  /\ counted (trace w') = counted (trace w).
Proof.
  unfold reporter_iteration.
  destruct (shutdown_event w) eqn:Hsd; [simpl; rewrite Hsd; repeat split|].
  rewrite bind_unfold.
  pose proof (ledger_sleep 1 env w) as Hsl.
  destruct (sleep 1 env w) as [[u|e|] w1]; simpl in Hsl;
    unfold ledger in Hsl; inversion Hsl as [[H1 H2 H3]].
  - pose proof (reporter_tick_ledger t env w1) as Ht.
    destruct (reporter_tick t env w1) as [[u'|e|] w2]; simpl in Ht;
      destruct Ht as (T1 & T2 & T3 & T4); try destruct e; simpl;
      unfold total in *; repeat split; congruence.
  - destruct e; simpl; unfold total; repeat split; congruence.
  - simpl; unfold total; repeat split; congruence.
Qed.

Lemma final_statistics_ledger now env w :
  ledger (snd (final_statistics now env w)) = ledger w.
Proof. reflexivity. Qed.

Lemma signal_handler_ledger env w :
  fst (signal_handler env w) = Ok tt
  /\ ledger (snd (signal_handler env w)) = (true, stats w, counted (trace w)).
Proof. split; reflexivity. Qed.

Lemma set_shutdown_ledger env w :
  fst (set_shutdown env w) = Ok tt
  /\ ledger (snd (set_shutdown env w)) = (true, stats w, counted (trace w)).
Proof. split; reflexivity. Qed.

(** What one action does to the ledger: the flag is only ever set, the
    cumulative counter grows by exactly what is counted, and that is not
    negative. *)
Lemma perform_ledger (a : action) env w :
  let w' := snd (perform a env w) in
  (shutdown_event w = true -> shutdown_event w' = true)
  /\ total w <= total w'
  /\ total w' - total w = counted (trace w') - counted (trace w).
Proof.
  destruct a as [wk|now|t| | |now]; cbn [perform]; cbv zeta.
  - assert (Hw : snd ((_ <- worker_iteration wk ;; ret tt) env w)
                 = snd (worker_iteration wk env w)).
    { rewrite bind_unfold. destruct (worker_iteration wk env w) as [[c|e|] w1];
        reflexivity. }
    rewrite Hw.
    destruct (worker_iteration_ledger wk env w) as (n & Hn & Hl).
    unfold ledger in Hl. inversion Hl as [[Hsd Hst Hct]].
    unfold total. rewrite Hst. unfold add_counts; simpl.
    split; [auto|]. destruct Hn as [->| ->]; lia.
  - destruct (reporter_start_ledger now env w) as (H1 & H2 & _ & H4).
    unfold total in *. repeat split; [congruence|lia|lia].
  - assert (Hw : snd ((_ <- reporter_iteration t ;; ret tt) env w)
                 = snd (reporter_iteration t env w)).
    { rewrite bind_unfold. destruct (reporter_iteration t env w) as [[c|e|] w1];
        reflexivity. }
    rewrite Hw.
    destruct (reporter_iteration_ledger t env w) as (H1 & H2 & _ & H4).
    unfold total in *. repeat split; [congruence|lia|lia].
  - simpl. unfold total; simpl. repeat split; auto; lia.
  - simpl. unfold total; simpl. repeat split; auto; lia.
  - simpl. unfold total; simpl. repeat split; auto; lia.
Qed.

Lemma run_app (a1 a2 : list action) env w :
  run (a1 ++ a2) env w = run a2 env (run a1 env w).
Proof.
  revert w. induction a1 as [|a a1 IH]; intros w; simpl; [reflexivity|apply IH].
Qed.

Lemma run_ledger (actions : list action) env :
  forall w,
    (shutdown_event w = true -> shutdown_event (run actions env w) = true)
    /\ total w <= total (run actions env w)
    /\ total (run actions env w) - total w
       = counted (trace (run actions env w)) - counted (trace w).
Proof.
  induction actions as [|a rest IH]; intros w; simpl.
  - repeat split; auto; lia.
  - destruct (perform_ledger a env w) as (H1 & H2 & H3).
    destruct (IH (snd (perform a env w))) as (I1 & I2 & I3).
    repeat split; auto; lia.
Qed.

Lemma final_statistics_reads_stats now env w w' :
  stats w = stats w' ->
  fst (final_statistics now env w) = fst (final_statistics now env w').
Proof. unfold final_statistics. cbn. intros ->. reflexivity. Qed.

Lemma perform_reporter_turn t env w :
  snd (perform (ReporterTurn t) env w) = snd (reporter_iteration t env w).
Proof.
  cbn [perform]. rewrite bind_unfold.
  destruct (reporter_iteration t env w) as [[c|e|] w1]; reflexivity.
Qed.

(* ================================================================= *)
(** ** C7: the cumulative counter never goes down *)

(** C7: [total_sent] is non-decreasing for the life of the run and grows
    by exactly the counts handed to the [+=] of the workers: over any
    stretch of a run it grows by the sum of those counts, from the start of
    the process it equals their sum, a worker's turn adds a count that is
    not negative, and a reporter tick, a shutdown trigger and the final
    summary leave it unchanged. *)
Theorem total_sent_monotone (env : environment) (before after : list action)
    (w : world) :
  (let w1 := run before env w in
   let w2 := run (before ++ after) env w in
   total w1 <= total w2
   /\ total w2 - total w1 = counted (trace w2) - counted (trace w1))
  /\ total (run before env initial_world)
     = counted (trace (run before env initial_world))
  /\ (forall a, total w <= total (snd (perform a env w)))
  /\ (forall t, total (snd (perform (ReporterTurn t) env w)) = total w)
  /\ (forall now, total (snd (perform (ReporterStart now) env w)) = total w)
  /\ (forall by_signal, total (snd (perform (trigger by_signal) env w)) = total w)
  /\ (forall now, total (snd (perform (FinalSummary now) env w)) = total w).
Proof.
  split; [|split; [|split; [|split; [|split; [|split]]]]].
  - cbv zeta. rewrite run_app.
    destruct (run_ledger after env (run before env w)) as (_ & H2 & H3).
    split; assumption.
  - destruct (run_ledger before env initial_world) as (_ & _ & H3).
    change (total initial_world) with 0 in H3.
    change (counted (trace initial_world)) with 0 in H3. lia.
  - intros a. apply (perform_ledger a env w).
  - intros t. rewrite perform_reporter_turn.
    apply (reporter_iteration_ledger t env w).
  - intros now. reflexivity.
  - intros [|]; reflexivity.
  - intros now. reflexivity.
Qed.

(* ================================================================= *)
(** ** C8: shutting down twice *)

(** C8: a second shutdown trigger right after a first one, whichever of
    the signal handler and the duration timer each of them is, returns
    normally and changes neither the flag, nor the counters, nor the final
    summary; once set, the flag stays set whatever the process does next. *)
Theorem shutdown_idempotent (first second : bool) (env : environment)
    (w : world) (now : Q) :
  let w1 := run [trigger first] env w in
  let w2 := run [trigger first; trigger second] env w in
  shutdown_event w1 = true
  /\ fst (perform (trigger second) env w1) = Ok tt
  /\ ledger w2 = ledger w1
  /\ fst (final_statistics now env w2) = fst (final_statistics now env w1)
  /\ (forall actions, shutdown_event (run actions env w1) = true).
Proof.
  cbv zeta.
  assert (H1 : shutdown_event (run [trigger first] env w) = true)
    by (destruct first; reflexivity).
  split; [exact H1|]. split; [destruct first, second; reflexivity|].
  split; [destruct first, second; reflexivity|].
  split.
  - apply final_statistics_reads_stats. destruct first, second; reflexivity.
  - intros actions.
    destruct (run_ledger actions env (run [trigger first] env w)) as (H & _).
    apply H, H1.
Qed.

(* ================================================================= *)
(** ** C9: what a reporting tick touches *)

(** A tick that runs to its end. *)
Lemma reporter_iteration_tick t env w t0 :
  shutdown_event w = false ->
  cancelled (env_awaits env (await_pos w)) = false ->
  start_time (stats w) = Some t0 ->
  reporter_iteration t env w
  = (Ok Continue,
     {| shutdown_event := false;
        stats := {| total_sent := total w;
                    last_second_count := 0;
                    start_time := Some t0;
                    last_stats_time := Some t |};
        rng_pos := rng_pos w;
        await_pos := S (await_pos w);
        trace := Printed (RateReport (t - t0) (window w)
                            (rate_of (total w) (t - t0)) (total w))
                 :: Slept 1 :: trace w |}).
Proof.
  intros Hsd Hc Hst. unfold reporter_iteration. rewrite Hsd.
  unfold sleep. rewrite !bind_unfold. unfold await. rewrite Hc. simpl.
  unfold reporter_tick. rewrite bind_unfold. cbn [get_stats stats].
  rewrite Hst. simpl. rewrite Hst, Hsd. reflexivity.
Qed.

(** C9: a reporting tick leaves [total_sent], [start_time] and the shutdown
    flag as they were, however it ends; a tick that runs to its end prints
    the window count it read, sets the window counter to zero and the
    last-report time to the current time, and changes nothing else of
    [stats]; the final summary changes nothing of [stats]. *)
Theorem reporter_tick_frame (t : Q) (env : environment) (w : world) :
  (let w' := snd (reporter_iteration t env w) in
   total w' = total w
   /\ start_time (stats w') = start_time (stats w)
   /\ shutdown_event w' = shutdown_event w)
  /\ (forall t0,
        shutdown_event w = false ->
        cancelled (env_awaits env (await_pos w)) = false ->
        start_time (stats w) = Some t0 ->
        let w' := snd (reporter_iteration t env w) in
        stats w' = {| total_sent := total_sent (stats w);
                      last_second_count := 0;
                      start_time := start_time (stats w);
                      last_stats_time := Some t |}
        /\ exists elapsed avg,
             trace w' = Printed (RateReport elapsed (window w) avg (total w))
                        :: Slept 1 :: trace w)
  /\ (forall now,
        stats (snd (final_statistics now env w)) = stats w
        /\ shutdown_event (snd (final_statistics now env w)) = shutdown_event w).
Proof.
  split; [|split].
  - destruct (reporter_iteration_ledger t env w) as (H1 & H2 & H3 & _).
    cbv zeta. auto.
  - intros t0 Hsd Hc Hst. cbv zeta.
    rewrite (reporter_iteration_tick t env w t0 Hsd Hc Hst). simpl.
    rewrite Hst. split; [reflexivity|]. eauto.
  - intros now. split; reflexivity.
Qed.

(** A tick at time 1002 of a process started at time 1000. *)
Lemma reporter_tick_frame_sample :
  let env := sample_environment false in
  let w' := snd (reporter_iteration (1002 # 1) env sample_world) in
  shutdown_event sample_world = false
  /\ cancelled (env_awaits env (await_pos sample_world)) = false
  /\ start_time (stats sample_world) = Some (1000 # 1)%Q
  /\ stats w' = {| total_sent := 300; last_second_count := 0;
                   start_time := Some (1000 # 1)%Q;
                   last_stats_time := Some (1002 # 1)%Q |}.
Proof.
  cbv zeta.
  split; [reflexivity|]. split; [reflexivity|]. split; [reflexivity|].
  exact (proj1 (proj1 (proj2 (reporter_tick_frame (1002 # 1)
                         (sample_environment false) sample_world))
                  (1000 # 1)%Q eq_refl eq_refl eq_refl)).
Defined.

(* ================================================================= *)
(** ** C6: concurrent additions under the event loop *)

Lemma stores_left_adder (n : Z) (m : nat) :
  stores_left (adder_code n m) = Z.of_nat m.
Proof.
  induction m as [|m IH]; [reflexivity|].
  cbn [adder_code turn_code turn_after_send app stores_left]. rewrite IH. lia.
Qed.

(** Resuming a task at an await leaves it at an await, and what it added
    to the counter is what it no longer has to add. *)
Lemma resume_at_await (n : Z) (t : task) (s : stats_t) :
  at_await n t ->
  let (t', s') := resume (code t) (reg t) s in
  at_await n t'
  /\ total_sent s' + n * stores_left (code t')
     = total_sent s + n * stores_left (code t).
Proof.
  intros [m [Hc|Hc]]; rewrite Hc.
  - destruct m as [|m]; simpl.
    + split; [exists 0%nat; left; reflexivity|reflexivity].
    + split; [exists m; right; reflexivity|]. reflexivity.
  - cbn [turn_after_send app resume exec_instr code reg total_sent stores_left].
    split; [exists m; left; reflexivity|].
    rewrite stores_left_adder. ring.
Qed.

Lemma all_stores_left_set_nth (i : nat) (t t' : task) (tasks : list task) :
  nth_error tasks i = Some t ->
  all_stores_left (set_nth i t' tasks)
  = all_stores_left tasks - stores_left (code t) + stores_left (code t').
Proof.
  revert i. induction tasks as [|u tasks IH]; intros [|i]; simpl; try discriminate.
  - intros H; inversion H; subst. lia.
  - intros H. rewrite (IH i H). lia.
Qed.

Lemma Forall_set_nth {A} (P : A -> Prop) (i : nat) (x : A) (l : list A) :
  P x -> Forall P l -> Forall P (set_nth i x l).
Proof.
  intros Hx Hl. revert i. induction Hl as [|y l Hy Hl IH]; intros [|i]; simpl;
    constructor; auto.
Qed.

Lemma loop_step_invariant (n : Z) (i : nat) (tasks : list task) (s : stats_t) :
  Forall (at_await n) tasks ->
  let (tasks', s') := loop_step i (tasks, s) in
  Forall (at_await n) tasks'
  /\ total_sent s' + n * all_stores_left tasks'
     = total_sent s + n * all_stores_left tasks.
Proof.
  intros Hall. unfold loop_step.
  destruct (nth_error tasks i) as [t|] eqn:Hi; [|split; [assumption|reflexivity]].
  assert (Ht : at_await n t).
  { rewrite Forall_forall in Hall. eapply Hall, nth_error_In; eauto. }
  pose proof (resume_at_await n t s Ht) as Hr.
  destruct (resume (code t) (reg t) s) as [t' s']. destruct Hr as [Ht' Heq].
  split; [apply Forall_set_nth; assumption|].
  rewrite (all_stores_left_set_nth i t t' tasks Hi). lia.
Qed.

Lemma loop_run_invariant (n : Z) (schedule : list nat) :
  forall tasks s,
    Forall (at_await n) tasks ->
    let (tasks', s') := loop_run schedule (tasks, s) in
    Forall (at_await n) tasks'
    /\ total_sent s' + n * all_stores_left tasks'
       = total_sent s + n * all_stores_left tasks.
Proof.
  unfold loop_run.
  induction schedule as [|i rest IH]; intros tasks s Hall; cbn [fold_left].
  - split; [assumption|reflexivity].
  - pose proof (loop_step_invariant n i tasks s Hall) as Hs.
    destruct (loop_step i (tasks, s)) as [tasks1 s1]. destruct Hs as [H1 H2].
    specialize (IH tasks1 s1 H1).
    destruct (fold_left _ rest (tasks1, s1)) as [tasks2 s2].
    destruct IH as [H3 H4]. split; [assumption|lia].
Qed.

Lemma adders_at_await (n : Z) (m k : nat) :
  Forall (at_await n) (repeat (adder n m) k)
  /\ all_stores_left (repeat (adder n m) k) = Z.of_nat k * Z.of_nat m.
Proof.
  induction k as [|k IH]; [split; [constructor|reflexivity]|].
  destruct IH as [IH1 IH2]. split.
  - constructor; [exists m; left; reflexivity|exact IH1].
  - cbn [repeat all_stores_left adder code]. rewrite IH2, stores_left_adder. lia.
Qed.

Lemma finished_stores_left (tasks : list task) :
  forallb finished tasks = true -> all_stores_left tasks = 0.
Proof.
  induction tasks as [|t tasks IH]; simpl; [reflexivity|].
  intros H. apply andb_prop in H. destruct H as [Ht Hr].
  rewrite (IH Hr). unfold finished in Ht.
  destruct (code t); [reflexivity|discriminate].
Qed.

Lemma loop_run_app (a b : list nat) st :
  loop_run (a ++ b) st = loop_run b (loop_run a st).
Proof. unfold loop_run. apply fold_left_app. Qed.

Lemma set_nth_middle {A} (l1 l2 : list A) (x y : A) :
  set_nth (List.length l1) y (l1 ++ x :: l2) = (l1 ++ y :: l2)%list.
Proof. induction l1 as [|z l1 IH]; simpl; [reflexivity|now rewrite IH]. Qed.

Lemma nth_error_middle {A} (l1 l2 : list A) (x : A) :
  nth_error (l1 ++ x :: l2) (List.length l1) = Some x.
Proof. induction l1 as [|z l1 IH]; simpl; [reflexivity|exact IH]. Qed.

Lemma loop_run_cons (i : nat) (schedule : list nat) st :
  loop_run (i :: schedule) st = loop_run schedule (loop_step i st).
Proof. reflexivity. Qed.

Lemma loop_step_middle (done rest : list task) (t : task) (s : stats_t) :
  loop_step (List.length done) ((done ++ t :: rest)%list, s)
  = (let (t', s') := resume (code t) (reg t) s in
     ((done ++ t' :: rest)%list, s')).
Proof.
  unfold loop_step. rewrite nth_error_middle.
  destruct (resume (code t) (reg t) s) as [t' s'].
  now rewrite set_nth_middle.
Qed.

(** Resumed twice per turn, a task runs to its end. *)
Lemma loop_run_one_task (n : Z) (m : nat) :
  forall done rest r s,
  exists r' s',
    loop_run (repeat (List.length done) (2 * m))
             ((done ++ {| reg := r; code := adder_code n m |} :: rest)%list, s)
    = ((done ++ {| reg := r'; code := [] |} :: rest)%list, s').
Proof.
  induction m as [|m IH]; intros done rest r s.
  - exists r, s. reflexivity.
  - replace (2 * S m)%nat with (S (S (2 * m))) by lia.
    cbn [repeat]. rewrite !loop_run_cons, !loop_step_middle.
    cbn [code reg adder_code turn_code turn_after_send app resume exec_instr].
    rewrite loop_step_middle.
    cbn [code reg adder_code turn_code turn_after_send app resume exec_instr].
    apply IH.
Qed.

(** Under the sequential schedule every task finishes, whatever [K] and
    [M]: schedules that run all callers to their end exist. *)
Lemma sequential_schedule_finishes (n : Z) (K M : nat) (s0 : stats_t) :
  forallb finished
    (fst (loop_run (sequential_schedule K M) (repeat (adder n M) K, s0))) = true.
Proof.
  unfold sequential_schedule.
  set (t := adder n M).
  assert (H : forall k done s,
             forallb finished done = true ->
             forallb finished
               (fst (loop_run
                       (flat_map (fun i => repeat i (2 * M))
                                 (seq (List.length done) k))
                       ((done ++ repeat t k)%list, s))) = true).
  { induction k as [|k IH]; intros done s Hdone.
    - cbn. rewrite List.app_nil_r. exact Hdone.
    - cbn [seq flat_map]. rewrite loop_run_app.
      change (repeat t (S k)) with (t :: repeat t k).
      destruct (loop_run_one_task n M done (repeat t k) 0 s)
        as (r' & s' & Hrun).
      fold (adder n M) in Hrun. fold t in Hrun. rewrite Hrun.
      replace (done ++ {| reg := r'; code := [] |} :: repeat t k)%list
        with ((done ++ [{| reg := r'; code := [] |}]) ++ repeat t k)%list
        by (rewrite <- List.app_assoc; reflexivity).
      replace (S (List.length done))
        with (List.length (done ++ [{| reg := r'; code := [] |}]))
        by (rewrite List.length_app; simpl; lia).
      apply IH. rewrite forallb_app, Hdone. reflexivity. }
  exact (H K [] s0 eq_refl).
Qed.

(** C6: [K] tasks of the event loop each add 1 to the counters [M] times,
    by the load-add-store of [+=] between two awaits.  Under every
    schedule of the event loop [total_sent] has grown, at each moment, by
    the number of additions made so far, and once all tasks are done it
    has grown by exactly [K * M]: no addition is lost.  Schedules under
    which all tasks get done exist for every [K] and [M]. *)
Theorem concurrent_add_sent (K M : nat) (schedule : list nat) (s0 : stats_t) :
  (let (tasks, s) := loop_run schedule (repeat (adder 1 M) K, s0) in
   total_sent s + all_stores_left tasks = total_sent s0 + Z.of_nat K * Z.of_nat M
   /\ (forallb finished tasks = true ->
       total_sent s = total_sent s0 + Z.of_nat K * Z.of_nat M))
  /\ forallb finished
       (fst (loop_run (sequential_schedule K M) (repeat (adder 1 M) K, s0))) = true.
Proof.
  split; [|apply sequential_schedule_finishes].
  destruct (adders_at_await 1 M K) as [Hall Hsum].
  pose proof (loop_run_invariant 1 schedule _ s0 Hall) as Hinv.
  destruct (loop_run schedule (repeat (adder 1 M) K, s0)) as [tasks s].
  destruct Hinv as [_ Heq]. rewrite Hsum in Heq.
  split; [lia|]. intros Hfin. apply finished_stores_left in Hfin. lia.
Qed.

(** Three tasks adding 1 twice each, interleaved turn by turn. *)
Lemma concurrent_add_sent_sample :
  let schedule := [0; 1; 2; 2; 1; 0; 1; 0; 2; 0; 1; 2]%nat in
  let st := loop_run schedule (repeat (adder 1 2) 3, initial_stats) in
  forallb finished (fst st) = true /\ total_sent (snd st) = 6.
Proof.
  cbv zeta.
  destruct (concurrent_add_sent 3 2 [0; 1; 2; 2; 1; 0; 1; 0; 2; 0; 1; 2]%nat
              initial_stats) as [H _].
  destruct (loop_run [0; 1; 2; 2; 1; 0; 1; 0; 2; 0; 1; 2]%nat
              (repeat (adder 1 2) 3, initial_stats)) as [tasks s] eqn:E.
  assert (Hfin : forallb finished tasks = true).
  { apply (f_equal fst) in E. vm_compute in E. subst tasks. reflexivity. }
  split; [exact Hfin|]. exact (proj2 H Hfin).
Defined.

(** The same load-add-store run by threads that can be switched between
    the load and the store does lose additions: what keeps the counter
    exact is that no await stands between them. *)
Remark threads_lose_updates :
  let schedule := [0; 1; 0; 1; 0; 1; 0; 0; 0; 1; 1; 1]%nat in
  let st := thread_run schedule (repeat (adder 1 1) 2, initial_stats) in
  forallb finished (fst st) = true /\ total_sent (snd st) = 1.
Proof. split; reflexivity. Qed.

(* ================================================================= *)
(** ** The generator always ends, and is never cancelled *)

Lemma never_draw P (b : option exn) : never P b draw.
Proof. intros src pos _. destruct b; exact (fun H => H). Qed.

(** Within [floats_ok], [max_num / 100] is a float and no rounding of a
    float between 0.01 and it overflows. *)
Lemma round_cannot_overflow (max_num p : Z) :
  0 <= p \/ p < -308
  \/ 2 * Z.abs max_num + 100 * 10 ^ (- p) < 200 * float_max ->
  round_can_overflow (1 # 100) (inject_Z max_num / inject_Z 100) p = false.
Proof.
  intros Hp. unfold round_can_overflow.
  destruct (Z.leb_spec (-308) p) as [Hlo|Hlo]; [|reflexivity].
  destruct (Z.ltb_spec p 0) as [Hhi|Hhi]; [|reflexivity].
  destruct Hp as [Hp|[Hp|Hp]]; [lia|lia|]. cbn [andb].
  assert (Hpow : 0 < 10 ^ (- p) <= 10 ^ 308).
  { split; [apply Z.pow_pos_nonneg; lia|apply Z.pow_le_mono_r; lia]. }
  assert (Hbig : 100 * 10 ^ 308 + 2 < 200 * float_max) by (vm_compute; reflexivity).
  revert Hp Hpow Hbig.
  generalize (10 ^ (- p)) (10 ^ 308) float_max. intros t t308 F Hp Hpow Hbig.
  apply orb_false_iff. split; apply not_true_is_false; rewrite Qle_bool_iff;
    unfold Qle, Qabs, Qplus, Qdiv, Qmult, Qinv, inject_Z; cbn [Qnum Qden];
    cbn [Z.abs Pos.mul]; lia.
Qed.

Lemma floats_ok_truediv (g : MessageGenerator) :
  floats_ok g ->
  truediv (snd (number_range g)) 100
  = Ok (inject_Z (snd (number_range g)) / inject_Z 100)%Q
  /\ round_can_overflow (1 # 100) (inject_Z (snd (number_range g)) / inject_Z 100)
       (float_precision g) = false.
Proof.
  intros [Hdiv Hround]. split; [|apply round_cannot_overflow, Hround].
  unfold truediv. cbn [Z.eqb]. revert Hdiv. generalize float_overflow. intros B Hdiv.
  destruct (Z.leb_spec (B * Z.abs 100) (Z.abs (snd (number_range g)))) as [H|H];
    [|reflexivity].
  change (Z.abs 100) with 100 in H. lia.
Qed.

(** [max_num / 100] raises nothing but [OverflowError]. *)
Lemma truediv_100_raises (a : Z) (e : exn) :
  truediv a 100 = Raise e -> e = OverflowError.
Proof.
  unfold truediv. cbn [Z.eqb].
  destruct (_ <=? _); intros H; inversion H; reflexivity.
Qed.

Lemma never_float_template P (b : option exn) (g : MessageGenerator) :
  (b = Some OverflowError -> floats_ok g) ->
  never P b (upper <- of_result (truediv (snd (number_range g)) 100) ;;
             f <- round_uniform (1 # 100) upper (float_precision g) ;;
             ret (PFloat f)).
Proof.
  intros Hb src pos _. rewrite bind_unfold. unfold of_result.
  destruct (truediv (snd (number_range g)) 100) as [hi|e|] eqn:Hdiv.
  - rewrite bind_unfold. unfold round_uniform.
    destruct (round_can_overflow (1 # 100) hi (float_precision g)
              && round_overflows src pos)%bool eqn:Hover;
      [|destruct b; exact (fun H => H)].
    destruct b as [e|]; [|exact (fun H => H)].
    cbn [fst is_bad]. intros ->.
    destruct (floats_ok_truediv g (Hb eq_refl)) as [Hok Hround].
    rewrite Hok in Hdiv. inversion Hdiv; subst hi.
    rewrite Hround in Hover. discriminate Hover.
  - apply truediv_100_raises in Hdiv as He. subst e.
    destruct b as [e|]; [|exact (fun H => H)].
    cbn [fst is_bad]. intros ->.
    destruct (floats_ok_truediv g (Hb eq_refl)) as [Hok _].
    rewrite Hok in Hdiv. discriminate Hdiv.
  - unfold truediv in Hdiv. cbn [Z.eqb] in Hdiv.
    destruct (_ <=? _); discriminate Hdiv.
Qed.

Lemma never_now_isoformat P (b : option exn) : never P b now_isoformat.
Proof. intros src pos _. destruct b; exact (fun H => H). Qed.

Lemma never_randint P (b : option exn) (lo hi : Z) :
  (b = Some ValueError -> lo <= hi) -> never P b (randint lo hi).
Proof.
  intros Hb. unfold randint.
  destruct (Z.ltb_spec hi lo) as [Hlt|Hle].
  - apply never_raise. intros Heq. specialize (Hb Heq). lia.
  - apply never_bind; [apply never_draw|intros; apply never_ret].
Qed.

Lemma choice_In {A} (seq : list A) src pos x pos' :
  choice seq src pos = (Ok x, pos') -> In x seq.
Proof.
  unfold choice. destruct seq as [|y seq]; [discriminate|].
  rewrite bind_unfold. cbn [draw].
  destruct (nth_error (y :: seq) _) as [z|] eqn:Hnth; [|discriminate].
  unfold ret. intros H; inversion H; subst. eapply nth_error_In; eauto.
Qed.

Lemma never_choice {A} P (b : option exn) (seq : list A) :
  (b = Some IndexError -> seq <> []) -> never P b (choice seq).
Proof.
  intros Hb. unfold choice.
  destruct seq as [|y seq].
  - apply never_raise. intros Heq. now apply (Hb Heq).
  - apply never_bind; [apply never_draw|intros n].
    destruct (nth_error (y :: seq) _) eqn:Hnth; [apply never_ret|].
    apply nth_error_None in Hnth.
    pose proof (Nat.mod_upper_bound (N.to_nat n) (List.length (y :: seq))) as Hm.
    simpl in Hm, Hnth. lia.
Qed.

Lemma never_choices P (b : option exn) (population : list ascii) (k : nat) :
  (b = Some IndexError -> population <> []) -> never P b (choices population k).
Proof.
  intros Hb. induction k as [|k IH]; simpl; [apply never_ret|].
  apply never_bind; [apply never_choice, Hb|intros c].
  apply never_bind; [exact IH|intros; apply never_ret].
Qed.

Lemma never_field_templates P (b : option exn) (g : MessageGenerator) :
  (b = Some ValueError -> ranges_ok g) ->
  (b = Some OverflowError -> floats_ok g) ->
  Forall (never P b) (field_templates g).
Proof.
  intros Hb Hfl. pose proof (never_float_template P b g Hfl) as Hfloat.
  revert Hfloat. unfold field_templates.
  assert (Hstr : b = Some ValueError ->
                 fst (string_length_range g) <= snd (string_length_range g))
    by (intros Heq; apply (Hb Heq)).
  assert (Hnum : b = Some ValueError ->
                 fst (number_range g) <= snd (number_range g))
    by (intros Heq; apply (Hb Heq)).
  destruct (string_length_range g) as [min_str max_str].
  destruct (number_range g) as [min_num max_num].
  simpl in Hstr, Hnum. cbn [snd]. intros Hfloat.
  repeat constructor;
    try exact Hfloat;
    try (apply never_bind;
         [first [apply never_randint; first [exact Hnum | intros _; lia]
                | apply never_choice; intros _; discriminate]
         |intros; apply never_ret]).
  apply never_bind; [apply never_randint, Hstr|intros k].
  apply never_bind; [|intros; apply never_ret].
  apply never_choices. intros _. discriminate.
Qed.

Lemma never_draw_field P (b : option exn) (g : MessageGenerator) :
  (b = Some ValueError -> ranges_ok g) ->
  (b = Some OverflowError -> floats_ok g) ->
  never P b (draw_field g).
Proof.
  intros Hb Hfl. unfold draw_field.
  apply never_bind_ok.
  - apply never_choice. intros _.
    unfold field_templates.
    destruct (string_length_range g), (number_range g). discriminate.
  - intros src pos t pos' H. apply choice_In in H.
    pose proof (never_field_templates P b g Hb Hfl) as Hall.
    rewrite Forall_forall in Hall. auto.
Qed.

Lemma never_shrink_field P (b : option exn) g cur cnt name v :
  never P b (shrink_field g cur cnt name v).
Proof.
  unfold shrink_field.
  destruct v;
    try (destruct (_ && _)%bool;
         [apply never_bind;
          [apply never_randint; intros _; lia|intros; apply never_ret]
         |apply never_ret]).
  destruct (len s >? 5); [|apply never_ret].
  destruct (_ >? 0); apply never_ret.
Qed.

(** The loop needs at most [max_fields - field_count] turns. *)
Lemma never_fields_loop P (b : option exn) g max_fields :
  (b = Some ValueError -> ranges_ok g) ->
  (b = Some OverflowError -> floats_ok g) ->
  forall fuel message current_size field_count,
    (Z.to_nat (max_fields - field_count) <= fuel)%nat ->
    never P b (fields_loop fuel g max_fields message current_size field_count).
Proof.
  intros Hb Hfl.
  induction fuel as [|fuel IH]; intros message cur cnt Hfuel; cbn [fields_loop].
  - destruct (cur <? _); simpl; [|apply never_ret].
    destruct (Z.ltb_spec cnt max_fields); [lia|apply never_ret].
  - destruct (_ && _)%bool eqn:Hguard; [|apply never_ret].
    apply andb_prop in Hguard. destruct Hguard as [_ Hcnt].
    apply Z.ltb_lt in Hcnt.
    apply never_bind; [apply never_draw_field; [exact Hb|exact Hfl]|intros v].
    apply never_bind.
    + destruct (_ >? _); [apply never_shrink_field|apply never_ret].
    + intros [v'|]; [|apply never_ret]. apply IH. lia.
Qed.

Lemma never_generate_dict P (b : option exn) (g : MessageGenerator) :
  generator_ok b g -> never P b (generate_dict g).
Proof.
  intros (Hval & Hidx & Hfl). unfold generate_dict.
  apply never_bind; [apply never_now_isoformat|intros ts].
  apply never_bind; [apply never_choice, Hidx|intros sym].
  apply never_bind.
  - apply never_randint. intros Heq. destruct (Hval Heq) as (H & _). lia.
  - intros delta. apply never_fields_loop; [exact Hval|exact Hfl|lia].
Qed.

Lemma never_generate_message P (b : option exn) (g : MessageGenerator) :
  generator_ok b g -> never P b (generate_message g).
Proof.
  intros Hb. unfold generate_message.
  apply never_bind; [apply never_generate_dict, Hb|intros; apply never_ret].
Qed.

Lemma never_generate_messages P (b : option exn) (g : MessageGenerator) (n : nat) :
  generator_ok b g -> never P b (generate_messages g n).
Proof.
  intros Hb. induction n as [|n IH]; simpl; [apply never_ret|].
  apply never_bind; [apply never_generate_message, Hb|intros m].
  apply never_bind; [exact IH|intros; apply never_ret].
Qed.

Lemma never_lift_gen {A} P (b : option exn) (c : M A) :
  never (fun _ => True) b c -> never P b (lift_gen c).
Proof.
  intros Hc env w _. unfold lift_gen.
  specialize (Hc (env_source env) (rng_pos w) I).
  destruct (c (env_source env) (rng_pos w)) as [r pos']. exact Hc.
Qed.

(** [generate_message] returns or raises for every generator, source and
    position: its loop cannot run out of the fuel it is given. *)
Lemma generate_message_terminates (g : MessageGenerator) :
  terminates (generate_message g).
Proof. apply never_generate_message, benign_generator_ok. now left. Qed.

(* ================================================================= *)
(** ** C5: a worker whose sink fails *)

Lemma never_add_sent P (b : option exn) (n : Z) : never P b (add_sent n).
Proof. intros env w _. destruct b; exact (fun H => H). Qed.

Lemma never_worker_try (b : option exn) (wk : worker) :
  benign b -> never (quiet b) b (worker_try wk).
Proof.
  intros Hb. unfold worker_try.
  apply never_bind.
  { apply never_lift_gen, never_generate_messages, benign_generator_ok, Hb. }
  intros ms. apply never_bind; [apply never_send_batch, Hb|intros n].
  apply never_bind; [apply never_add_sent|intros _].
  destruct (Qle_bool _ 0); [apply never_ret|apply never_sleep, Hb].
Qed.

Lemma sleep_completes (q : Q) env w :
  cancelled (env_awaits env (await_pos w)) = false ->
  sleep q env w
  = (Ok tt, {| shutdown_event := shutdown_event w; stats := stats w;
               rng_pos := rng_pos w; await_pos := S (await_pos w);
               trace := Slept q :: trace w |}).
Proof.
  intros Hc. unfold sleep. rewrite bind_unfold. unfold await. rewrite Hc.
  reflexivity.
Qed.

(** Unless the flag is set or the task is cancelled, a turn of the loop
    ends with the worker still in its loop. *)
Lemma worker_iteration_continues (wk : worker) env w :
  uncancelled env ->
  shutdown_event w = false ->
  exists w', worker_iteration wk env w = (Ok Continue, w')
             /\ shutdown_event w' = false.
Proof.
  intros Hun Hsd.
  destruct (worker_iteration_ledger wk env w) as (n & _ & Hl).
  apply (f_equal (fun x => fst (fst x))) in Hl. cbn [ledger fst] in Hl.
  rewrite Hsd in Hl. revert Hl. unfold worker_iteration. rewrite Hsd.
  pose proof (never_worker_try None wk (or_introl eq_refl) env w (quiet_None env))
    as Hfuel.
  pose proof (never_worker_try (Some CancelledError) wk (or_intror eq_refl) env w
                (fun _ => Hun)) as Hcancel.
  destruct (worker_try wk env w) as [[u|e|] w1]; simpl in Hfuel, Hcancel.
  - intros Hflag. exists w1. split; [reflexivity|exact Hflag].
  - destruct e; try (now elim Hcancel);
      rewrite bind_unfold; cbn [emit]; rewrite bind_unfold;
      rewrite sleep_completes by apply Hun;
      cbn; intros Hflag; eexists; (split; [reflexivity|exact Hflag]).
  - now elim Hfuel.
Qed.

Lemma worker_iterations_continue (wk : worker) env (n : nat) :
  uncancelled env ->
  forall w, shutdown_event w = false ->
  exists w', worker_iterations n wk env w = (Ok Continue, w')
             /\ shutdown_event w' = false.
Proof.
  intros Hun. induction n as [|n IH]; intros w Hsd; simpl.
  - exists w. split; [reflexivity|exact Hsd].
  - rewrite bind_unfold.
    destruct (worker_iteration_continues wk env w Hun Hsd) as (w1 & -> & Hsd1).
    apply IH, Hsd1.
Qed.

(** A turn in which the submission raises inside [send_batch]. *)
Lemma worker_iteration_sink_failure (wk : worker) env w ms pos e w2 :
  shutdown_event w = false ->
  generate_messages (message_generator wk)
    (Z.to_nat (batch_size (config wk) (rate_per_worker wk)))
    (env_source env) (rng_pos w) = (Ok ms, pos) ->
  with_producer (send_batch_body ms) env (submitting ms pos w) = (Raise e, w2) ->
  is_Exception e = true ->
  cancelled (env_awaits env (await_pos w2)) = false ->
  exists w',
    worker_iteration wk env w = (Ok Continue, w')
    /\ shutdown_event w' = false
    /\ stats w' = stats w
    /\ rng_pos w' = pos
    /\ trace w' = (pacing_pause wk
                   ++ [Counted 0; LoggedSendError e] ++ trace w2)%list.
Proof.
  intros Hsd Hgen Hfail Hexc Hcancel.
  assert (Hframe : shutdown_event w2 = false /\ stats w2 = stats w /\ rng_pos w2 = pos).
  { pose proof (frame_send_batch_try
                  (fun w => (shutdown_event w, stats w, rng_pos w))
                  (fun w a => eq_refl) (fun ev w _ => eq_refl) ms
                  env (submitting ms pos w)) as Hp.
    rewrite Hfail in Hp. simpl in Hp. inversion Hp. rewrite <- Hsd. auto. }
  destruct Hframe as (Hsd2 & Hst2 & Hrng2).
  unfold worker_iteration. rewrite Hsd.
  unfold worker_try. rewrite bind_unfold. unfold lift_gen. rewrite Hgen.
  rewrite bind_unfold. unfold send_batch. rewrite bind_unfold. cbn [emit].
  unfold try_except, submitting in *.
  cbn [shutdown_event stats rng_pos await_pos trace].
  rewrite Hfail, Hexc.
  rewrite bind_unfold. cbn [emit]. unfold ret at 1.
  rewrite bind_unfold.
  destruct (add_sent_ledger 0 env
              {| shutdown_event := shutdown_event w2; stats := stats w2;
                 rng_pos := rng_pos w2; await_pos := await_pos w2;
                 trace := LoggedSendError e :: trace w2 |}) as [Hok _].
  unfold pacing_pause.
  cbn [add_sent get_stats put_stats emit bind stats shutdown_event rng_pos
       await_pos trace].
  destruct (Qle_bool (sleep_time (config wk) (rate_per_worker wk)) 0).
  - cbn. eexists. split; [reflexivity|]. cbn.
    rewrite !Z.add_0_r. repeat split; try assumption.
    destruct (stats w2) eqn:Es. rewrite <- Hst2. reflexivity.
  - rewrite sleep_completes by exact Hcancel.
    eexists. split; [reflexivity|]. cbn.
    rewrite !Z.add_0_r. repeat split; try assumption.
    destruct (stats w2) eqn:Es. rewrite <- Hst2. reflexivity.
Qed.

(** A turn in which generating the batch raises: the only place where the
    worker's own handler, with its fixed pause of 0.1 s, is reached. *)
Lemma worker_iteration_generation_error (wk : worker) env w e pos :
  shutdown_event w = false ->
  generate_messages (message_generator wk)
    (Z.to_nat (batch_size (config wk) (rate_per_worker wk)))
    (env_source env) (rng_pos w) = (Raise e, pos) ->
  cancelled (env_awaits env (await_pos w)) = false ->
  worker_iteration wk env w
  = (Ok Continue,
     {| shutdown_event := false; stats := stats w; rng_pos := pos;
        await_pos := S (await_pos w);
        trace := Slept (1 # 10) :: LoggedWorkerError (worker_id wk) e :: trace w |}).
Proof.
  intros Hsd Hgen Hcancel.
  pose proof (never_generate_messages (fun _ => True) (Some CancelledError)
                (message_generator wk)
                (Z.to_nat (batch_size (config wk) (rate_per_worker wk)))
                (benign_generator_ok _ _ (or_intror eq_refl))
                (env_source env) (rng_pos w) I) as Hnc.
  rewrite Hgen in Hnc. simpl in Hnc.
  unfold worker_iteration. rewrite Hsd.
  unfold worker_try. rewrite bind_unfold. unfold lift_gen. rewrite Hgen.
  destruct e; try (now elim Hnc);
    rewrite bind_unfold; cbn [emit]; rewrite bind_unfold;
    rewrite sleep_completes by exact Hcancel;
    cbn; rewrite Hsd; reflexivity.
Qed.

Lemma submitted_ignores_await : ignores_await submitted.
Proof. intros w a; reflexivity. Qed.

Lemma submitted_ignores_bookkeeping : ignores_bookkeeping submitted.
Proof. intros ev w Hev. destruct ev; try reflexivity; now elim Hev. Qed.

Lemma submitted_add_sent (n : Z) : preserves submitted (add_sent n).
Proof. intros env w. reflexivity. Qed.

(** The worker's own handler only logs and sleeps. *)
Lemma worker_iteration_try {X} (f : world -> X) (wk : worker) env w :
  ignores_await f -> ignores_bookkeeping f ->
  shutdown_event w = false ->
  f (snd (worker_iteration wk env w)) = f (snd (worker_try wk env w)).
Proof.
  intros Ha Hb Hsd. unfold worker_iteration. rewrite Hsd.
  destruct (worker_try wk env w) as [[u|e|] w1]; try reflexivity.
  assert (Hh : preserves f (_ <- emit (LoggedWorkerError (worker_id wk) e) ;;
                            _ <- sleep (1 # 10) ;; ret Continue)).
  { apply preserves_bind; [apply frame_emit; [exact Hb|exact I]|intros _].
    apply preserves_bind; [apply frame_sleep; assumption|intros; apply preserves_ret]. }
  destruct e; try reflexivity; apply Hh.
Qed.

(** A turn submits the batch it generated itself, once, and leaves the
    random source where generating that batch left it: the next turn
    reads entries of the source that no turn has read. *)
Lemma worker_iteration_submits (wk : worker) env w ms pos :
  shutdown_event w = false ->
  generate_messages (message_generator wk)
    (Z.to_nat (batch_size (config wk) (rate_per_worker wk)))
    (env_source env) (rng_pos w) = (Ok ms, pos) ->
  submitted (snd (worker_iteration wk env w)) = (ms :: submissions (trace w), pos).
Proof.
  intros Hsd Hgen.
  rewrite (worker_iteration_try submitted wk env w submitted_ignores_await
             submitted_ignores_bookkeeping Hsd).
  unfold worker_try. rewrite bind_unfold. unfold lift_gen. rewrite Hgen.
  set (rest := fun sent_count : Z =>
                 _ <- add_sent sent_count ;;
                 if Qle_bool (sleep_time (config wk) (rate_per_worker wk)) 0
                 then ret tt
                 else sleep (sleep_time (config wk) (rate_per_worker wk))).
  set (attempt := try_except (with_producer (send_batch_body ms)) is_Exception
                    (fun e => _ <- emit (LoggedSendError e) ;; ret 0)).
  assert (Hk : preserves submitted (x <- attempt ;; rest x)).
  { apply preserves_bind.
    - apply preserves_try_except.
      + apply frame_send_batch_try;
          [apply submitted_ignores_await|apply submitted_ignores_bookkeeping].
      + intros e. apply preserves_bind; [|intros; apply preserves_ret].
        apply frame_emit; [apply submitted_ignores_bookkeeping|exact I].
    - intros n. apply preserves_bind; [apply submitted_add_sent|intros _].
      destruct (Qle_bool _ 0); [apply preserves_ret|].
      apply frame_sleep;
        [apply submitted_ignores_await|apply submitted_ignores_bookkeeping]. }
  exact (Hk env (submitting ms pos w)).
Qed.

(** C5, as stated, fails: a worker with a rate share of 5 msg/s whose
    submission fails pauses for its pacing interval of 0.2 s before the
    next turn; there is no pause of 0.1 s. *)
Lemma sink_failure_pause_is_pacing :
  exists w' ms,
    worker_iteration (sample_worker 5) (sample_environment true) initial_world
    = (Ok Continue, w')
    /\ trace w' = [Slept (1 # 5); Counted 0; LoggedSendError SinkError; Submitted ms]
    /\ ~ In (Slept (1 # 10)) (trace w').
Proof.
  eexists. eexists. split; [vm_compute; reflexivity|].
  split; [vm_compute; reflexivity|].
  cbn [trace]. intros [H|[H|[H|[H|[]]]]]; discriminate H.
Qed.

(** C5 (amended): when the submission raises inside [send_batch], the error
    is logged there and 0 is returned; the worker adds 0 to the counters
    and takes its ordinary pacing pause (the fixed pause of 0.1 s is taken
    only when an exception reaches the worker's own handler, as when
    generating the batch raises); it stays in its loop.  Whatever the sink
    does, a worker that is not cancelled is still looping after any number
    of turns while the shutdown flag is unset, and leaves the loop once it
    is set.  Every turn submits, once, the batch it generated itself from
    entries of the random source that no earlier turn has read. *)
Theorem worker_survives_sink_failure (wk : worker) (env : environment) (w : world) :
  (forall ms pos e w2,
      shutdown_event w = false ->
      generate_messages (message_generator wk)
        (Z.to_nat (batch_size (config wk) (rate_per_worker wk)))
        (env_source env) (rng_pos w) = (Ok ms, pos) ->
      with_producer (send_batch_body ms) env (submitting ms pos w) = (Raise e, w2) ->
      is_Exception e = true ->
      cancelled (env_awaits env (await_pos w2)) = false ->
      exists w',
        worker_iteration wk env w = (Ok Continue, w')
        /\ shutdown_event w' = false
        /\ stats w' = stats w
        /\ rng_pos w' = pos
        /\ trace w' = (pacing_pause wk
                       ++ [Counted 0; LoggedSendError e] ++ trace w2)%list)
  /\ (forall e pos,
      shutdown_event w = false ->
      generate_messages (message_generator wk)
        (Z.to_nat (batch_size (config wk) (rate_per_worker wk)))
        (env_source env) (rng_pos w) = (Raise e, pos) ->
      cancelled (env_awaits env (await_pos w)) = false ->
      exists w',
        worker_iteration wk env w = (Ok Continue, w')
        /\ trace w' = Slept (1 # 10) :: LoggedWorkerError (worker_id wk) e :: trace w)
  /\ (forall n,
      uncancelled env ->
      shutdown_event w = false ->
      exists w', worker_iterations n wk env w = (Ok Continue, w')
                 /\ shutdown_event w' = false)
  /\ (shutdown_event w = true -> worker_iteration wk env w = (Ok Exit, w))
  /\ (forall ms pos,
      shutdown_event w = false ->
      generate_messages (message_generator wk)
        (Z.to_nat (batch_size (config wk) (rate_per_worker wk)))
        (env_source env) (rng_pos w) = (Ok ms, pos) ->
      submitted (snd (worker_iteration wk env w))
      = (ms :: submissions (trace w), pos)).
Proof.
  split; [|split; [|split; [|split]]].
  - intros ms pos e w2. apply worker_iteration_sink_failure.
  - intros e pos Hsd Hgen Hcancel.
    rewrite (worker_iteration_generation_error wk env w e pos Hsd Hgen Hcancel).
    eexists. split; reflexivity.
  - intros n Hun Hsd. apply worker_iterations_continue; assumption.
  - intros Hsd. unfold worker_iteration. rewrite Hsd. reflexivity.
  - intros ms pos. apply worker_iteration_submits.
Qed.

(** A worker with a share of 5 msg/s against a sink that is down: one
    failed turn, and ten turns in a row. *)
Lemma worker_survives_sink_failure_sample :
  let wk := sample_worker 5 in
  let env := sample_environment true in
  (exists ms pos w2 w',
      generate_messages (message_generator wk)
        (Z.to_nat (batch_size (config wk) (rate_per_worker wk)))
        (env_source env) (rng_pos initial_world) = (Ok ms, pos)
      /\ with_producer (send_batch_body ms) env (submitting ms pos initial_world)
         = (Raise SinkError, w2)
      /\ worker_iteration wk env initial_world = (Ok Continue, w')
      /\ trace w' = (pacing_pause wk
                     ++ [Counted 0; LoggedSendError SinkError] ++ trace w2)%list)
  /\ (uncancelled env
      /\ exists w', worker_iterations 10 wk env initial_world = (Ok Continue, w')
                    /\ shutdown_event w' = false).
Proof.
  cbv zeta.
  pose proof (worker_survives_sink_failure (sample_worker 5)
                (sample_environment true) initial_world) as (Hfail & _ & Hrun & _).
  split.
  - destruct (generate_messages (message_generator (sample_worker 5))
                (Z.to_nat (batch_size (config (sample_worker 5))
                                      (rate_per_worker (sample_worker 5))))
                (env_source (sample_environment true)) (rng_pos initial_world))
      as [[ms| |] pos] eqn:Hgen; try (vm_compute in Hgen; discriminate Hgen).
    destruct (with_producer (send_batch_body ms) (sample_environment true)
                (submitting ms pos initial_world)) as [r w2] eqn:Hsend.
    assert (Hr : r = Raise SinkError).
    { apply (f_equal fst) in Hsend. cbn [fst] in Hsend. rewrite <- Hsend.
      reflexivity. }
    subst r.
    destruct (Hfail ms pos SinkError w2 eq_refl eq_refl Hsend eq_refl eq_refl)
      as (w' & H1 & _ & _ & _ & H5).
    exists ms, pos, w2, w'. repeat split; assumption.
  - assert (Hun : uncancelled (sample_environment true)) by (intros i; reflexivity).
    split; [exact Hun|]. exact (Hrun 10%nat Hun eq_refl).
Defined.

(* ================================================================= *)
(** ** Strings *)

Lemma append_assoc (a b c : string) : ((a ++ b) ++ c = a ++ (b ++ c))%string.
Proof. induction a as [|x a IH]; simpl; [reflexivity|now rewrite IH]. Qed.

Lemma append_nil_r (a : string) : (a ++ "" = a)%string.
Proof. induction a as [|x a IH]; simpl; [reflexivity|now rewrite IH]. Qed.

Lemma length_append (a b : string) :
  String.length (a ++ b) = (String.length a + String.length b)%nat.
Proof. induction a as [|x a IH]; simpl; [reflexivity|now rewrite IH]. Qed.

(* ================================================================= *)
(** ** What [json.dumps] writes, [json.loads] reads: numbers *)

Lemma take_digits_uint (u : Decimal.uint) (rest : string) :
  ends_digits rest ->
  take_digits (NilEmpty.string_of_uint u ++ rest)
  = (NilEmpty.string_of_uint u, rest).
Proof.
  intros Hrest. induction u; simpl; try (rewrite IHu; reflexivity).
  destruct rest as [|c rest]; [reflexivity|]. simpl. now rewrite Hrest.
Qed.

Lemma ends_number_no_digit (rest : string) :
  ends_number rest -> ends_digits rest.
Proof. destruct rest; simpl; tauto. Qed.

Lemma parse_frac_none (rest : string) :
  ends_number rest -> parse_frac rest = Some (EmptyString, rest).
Proof.
  destruct rest as [|c rest]; [reflexivity|]. simpl. intros (_ & Hdot & _).
  unfold parse_frac.
  destruct c as [[] [] [] [] [] [] [] []]; try reflexivity. now elim Hdot.
Qed.

Lemma parse_exp_none (rest : string) :
  ends_number rest -> parse_exp rest = Some (EmptyString, rest).
Proof.
  destruct rest as [|c rest]; [reflexivity|]. simpl. intros (_ & _ & He & HE).
  unfold parse_exp.
  destruct (Ascii.eqb_spec c "e"); [contradiction|].
  destruct (Ascii.eqb_spec c "E"); [contradiction|]. reflexivity.
Qed.

(** The digits of a positive number start with a digit other than 0. *)
Lemma pos_to_uint_nzhead (p : positive) :
  Decimal.nzhead (Pos.to_uint p) = Pos.to_uint p.
Proof.
  pose proof (DecimalPos.Unsigned.to_of (Pos.to_uint p)) as H.
  rewrite DecimalPos.Unsigned.of_to in H. simpl in H.
  pose proof (Unsigned.to_uint_nonzero p) as Hnz.
  destruct (Decimal.nzhead (Pos.to_uint p)) eqn:Hh;
    try (rewrite H; unfold Decimal.unorm; now rewrite Hh).
  exfalso. apply Hnz. rewrite H. apply unorm_0. exact Hh.
Qed.

Lemma valid_int_part_pos (p : positive) :
  valid_int_part (NilEmpty.string_of_uint (Pos.to_uint p)) = true.
Proof.
  pose proof (pos_to_uint_nzhead p) as H.
  pose proof (Unsigned.to_uint_nonnil p) as Hnil.
  destruct (Pos.to_uint p) eqn:E; try reflexivity.
  - now elim Hnil.
  - exfalso. exact (nzhead_nonzero _ _ H).
Qed.

Lemma valid_int_part_N (n : N) :
  valid_int_part (NilEmpty.string_of_uint (N.to_uint n)) = true.
Proof. destruct n; [reflexivity|apply valid_int_part_pos]. Qed.

Lemma parse_unsigned_N (n : N) (rest : string) :
  ends_number rest ->
  parse_unsigned (NilEmpty.string_of_uint (N.to_uint n) ++ rest)
  = Some (NilEmpty.string_of_uint (N.to_uint n), rest).
Proof.
  intros Hrest. unfold parse_unsigned.
  rewrite take_digits_uint by (apply ends_number_no_digit, Hrest).
  rewrite valid_int_part_N, parse_frac_none, parse_exp_none by exact Hrest.
  now rewrite !append_nil_r.
Qed.

Lemma string_of_uint_pos_head (p : positive) :
  exists c s, NilEmpty.string_of_uint (Pos.to_uint p) = String c s
              /\ is_digit c = true.
Proof.
  pose proof (Unsigned.to_uint_nonnil p) as Hnil.
  destruct (Pos.to_uint p); [now elim Hnil| | | | | | | | | |];
    simpl; eexists; eexists; split; reflexivity.
Qed.

Lemma string_of_uint_N_head (n : N) :
  exists c s, NilEmpty.string_of_uint (N.to_uint n) = String c s
              /\ is_digit c = true.
Proof.
  destruct n; [exists "0"%char, EmptyString; split; reflexivity|].
  apply string_of_uint_pos_head.
Qed.

Lemma str_nonneg (n : N) : str (Z.of_N n) = NilEmpty.string_of_uint (N.to_uint n).
Proof.
  destruct n as [|p]; [reflexivity|]. unfold str. simpl.
  pose proof (Unsigned.to_uint_nonnil p) as Hnil.
  unfold NilZero.string_of_uint. destruct (Pos.to_uint p); [now elim Hnil| | | | | | | | | |];
    reflexivity.
Qed.

Lemma str_neg (p : positive) :
  str (Z.neg p) = String "-" (NilEmpty.string_of_uint (N.to_uint (N.pos p))).
Proof.
  unfold str. simpl.
  pose proof (Unsigned.to_uint_nonnil p) as Hnil.
  unfold NilZero.string_of_uint. destruct (Pos.to_uint p); [now elim Hnil| | | | | | | | | |];
    reflexivity.
Qed.

(** A digit does not start a negative sign, and the other way round. *)
Lemma digit_not_minus (c : ascii) : is_digit c = true -> c <> "-"%char.
Proof. intros H ->. discriminate H. Qed.

Lemma parse_number_unsigned (s : string) (c : ascii) (t : string) :
  s = String c t -> is_digit c = true -> parse_number s = parse_unsigned s.
Proof.
  intros -> Hd. unfold parse_number.
  destruct c as [[] [] [] [] [] [] [] []]; try reflexivity. discriminate Hd.
Qed.

(** [json.loads] reads back the decimal numeral of an [int]. *)
Lemma parse_number_str (n : Z) (rest : string) :
  ends_number rest ->
  parse_number (str n ++ rest) = Some (str n, rest)
  /\ exists c s, str n = String c s /\ is_number_start c = true.
Proof.
  intros Hrest. destruct n as [|p|p].
  - change 0 with (Z.of_N 0). rewrite str_nonneg. split.
    + apply (parse_unsigned_N 0 rest Hrest).
    + exists "0"%char, EmptyString. split; reflexivity.
  - change (Z.pos p) with (Z.of_N (N.pos p)). rewrite str_nonneg.
    destruct (string_of_uint_N_head (N.pos p)) as (c & s & Hs & Hd).
    split.
    + rewrite (parse_number_unsigned _ c (s ++ rest)) by (rewrite ?Hs; auto).
      apply parse_unsigned_N, Hrest.
    + exists c, s. split; [exact Hs|]. unfold is_number_start. rewrite Hd.
      apply orb_true_r.
  - rewrite str_neg. split.
    + cbn [append parse_number]. now rewrite parse_unsigned_N.
    + eexists; eexists; split; reflexivity.
Qed.

(* ================================================================= *)
(** ** What [json.dumps] writes, [json.loads] reads: floats *)

Lemma float_repr_parts (f : pyfloat) :
  float_repr f
  = ((if fl_neg f then "-" else "")
     ++ NilEmpty.string_of_uint (N.to_uint (fl_whole f))
     ++ frac_text f ++ exp_text f)%string.
Proof. reflexivity. Qed.

Lemma string_of_uint_head (u : Decimal.uint) :
  u <> Decimal.Nil ->
  exists c s, NilEmpty.string_of_uint u = String c s /\ is_digit c = true.
Proof.
  destruct u; [intros H; now elim H| | | | | | | | | |];
    intros _; simpl; eexists; eexists; split; reflexivity.
Qed.

Lemma parse_frac_digits (u : Decimal.uint) (t : string) :
  u <> Decimal.Nil -> ends_digits t ->
  parse_frac (String "." (NilEmpty.string_of_uint u ++ t))
  = Some (String "." (NilEmpty.string_of_uint u), t).
Proof.
  intros Hu Ht. unfold parse_frac. rewrite take_digits_uint by exact Ht.
  destruct (string_of_uint_head u Hu) as (c & s & -> & _). reflexivity.
Qed.

Lemma exp_body_digits (e : ascii) (sign : string) (u : Decimal.uint) (rest : string) :
  u <> Decimal.Nil -> ends_digits rest ->
  exp_body e sign (NilEmpty.string_of_uint u ++ rest)
  = Some (String e (sign ++ NilEmpty.string_of_uint u), rest).
Proof.
  intros Hu Ht. unfold exp_body. rewrite take_digits_uint by exact Ht.
  destruct (string_of_uint_head u Hu) as (c & s & -> & _). reflexivity.
Qed.

(** The exponent digits are the numeral of a non-empty digit sequence. *)
Lemma exp_digits_uint (n : N) :
  exists u, u <> Decimal.Nil /\ exp_digits n = NilEmpty.string_of_uint u.
Proof.
  unfold exp_digits. destruct (n <? 10)%N.
  - exists (Decimal.D0 (N.to_uint n)). split; [discriminate|reflexivity].
  - exists (N.to_uint n). split; [|reflexivity].
    destruct n; [discriminate|apply Unsigned.to_uint_nonnil].
Qed.

Lemma parse_exp_text (f : pyfloat) (rest : string) :
  ends_number rest ->
  parse_exp (exp_text f ++ rest) = Some (exp_text f, rest).
Proof.
  intros Hrest. unfold exp_text. destruct (fl_exp f) as [e|].
  - destruct (exp_digits_uint (Z.abs_N e)) as (u & Hu & ->).
    pose proof (ends_number_no_digit rest Hrest) as Hd.
    destruct (e <? 0); cbn [append parse_exp Ascii.eqb Bool.eqb orb];
      apply exp_body_digits; assumption.
  - apply parse_exp_none, Hrest.
Qed.

Lemma exp_text_ends_digits (f : pyfloat) (rest : string) :
  ends_number rest -> ends_digits (exp_text f ++ rest).
Proof.
  intros Hrest. unfold exp_text. destruct (fl_exp f) as [e|].
  - reflexivity.
  - apply ends_number_no_digit, Hrest.
Qed.

Lemma parse_frac_text (f : pyfloat) (rest : string) :
  ends_number rest ->
  parse_frac (frac_text f ++ exp_text f ++ rest)
  = Some (frac_text f, (exp_text f ++ rest)%string)
  /\ ends_digits (frac_text f ++ exp_text f ++ rest).
Proof.
  intros Hrest.
  pose proof (exp_text_ends_digits f rest Hrest) as Hex.
  unfold frac_text.
  destruct (fl_frac f) eqn:Hfrac;
    try (split; [apply parse_frac_digits; [discriminate|exact Hex]|reflexivity]).
  destruct (fl_exp f) as [e|] eqn:Hexp.
  - split; [|exact Hex]. unfold exp_text. rewrite Hexp. reflexivity.
  - split; [|reflexivity].
    apply (parse_frac_digits (Decimal.D0 Decimal.Nil)); [discriminate|exact Hex].
Qed.

Lemma parse_unsigned_float (f : pyfloat) (rest : string) :
  ends_number rest ->
  parse_unsigned (NilEmpty.string_of_uint (N.to_uint (fl_whole f))
                  ++ frac_text f ++ exp_text f ++ rest)
  = Some ((NilEmpty.string_of_uint (N.to_uint (fl_whole f))
           ++ frac_text f ++ exp_text f)%string, rest).
Proof.
  intros Hrest. destruct (parse_frac_text f rest Hrest) as [Hfrac Hd].
  unfold parse_unsigned. rewrite take_digits_uint by exact Hd.
  rewrite valid_int_part_N, Hfrac, parse_exp_text by exact Hrest.
  reflexivity.
Qed.

(** [json.loads] reads back the repr of a finite float. *)
Lemma parse_number_float (f : pyfloat) (rest : string) :
  ends_number rest ->
  parse_number (float_repr f ++ rest) = Some (float_repr f, rest)
  /\ exists c s, float_repr f = String c s /\ is_number_start c = true.
Proof.
  intros Hrest. rewrite float_repr_parts.
  destruct (string_of_uint_N_head (fl_whole f)) as (c & s & Hs & Hd).
  destruct (fl_neg f).
  - split.
    + cbn [append parse_number]. rewrite !append_assoc.
      now rewrite parse_unsigned_float.
    + eexists; eexists; split; reflexivity.
  - cbn [append]. split.
    + rewrite !append_assoc.
      rewrite (parse_number_unsigned _ c (s ++ frac_text f ++ exp_text f ++ rest))
        by (rewrite ?Hs; auto).
      apply parse_unsigned_float, Hrest.
    + rewrite Hs. cbn [append]. eexists; eexists; split; [reflexivity|].
      unfold is_number_start. rewrite Hd. apply orb_true_r.
Qed.

(* ================================================================= *)
(** ** What [json.dumps] writes, [json.loads] reads: strings *)

Lemma parse_chars_encode_char (c : ascii) (t : string) :
  parse_chars (encode_char c ++ t) = cons_char c (parse_chars t).
Proof. destruct c as [[] [] [] [] [] [] [] []]; reflexivity. Qed.

Lemma parse_chars_encode_chars (s rest : string) :
  parse_chars (encode_chars s ++ String quote rest) = Some (s, rest).
Proof.
  induction s as [|c s IH]; [reflexivity|].
  cbn [encode_chars]. rewrite append_assoc, parse_chars_encode_char, IH.
  reflexivity.
Qed.

Lemma encode_basestring_append (s rest : string) :
  (encode_basestring s ++ rest)%string
  = String quote (encode_chars s ++ String quote rest).
Proof.
  unfold encode_basestring. cbn [append]. now rewrite append_assoc.
Qed.

(* ================================================================= *)
(** ** What [json.dumps] writes, [json.loads] reads: values and objects *)

(** What follows a value inside an object: a comma or the closing brace. *)
Lemma separator_ends_number (c : ascii) (rest : string) :
  c = ","%char \/ c = "}"%char -> ends_number (String c rest).
Proof. intros [->| ->]; simpl; repeat split; discriminate. Qed.

Lemma parse_value_dumps (v : pyval) (fuel : nat) (rest : string) :
  ends_number rest ->
  parse_value (S fuel) (dumps_value v ++ rest) = Some (json_of_pyval v, rest).
Proof.
  intros Hrest. destruct v as [n|f|b|s]; cbn [dumps_value json_of_pyval].
  - destruct (parse_number_str n rest Hrest) as (Hp & c & t & Hs & Hc).
    cbn [parse_value]. rewrite Hs in *. cbn [append] in *. rewrite Hc, Hp.
    reflexivity.
  - destruct (parse_number_float f rest Hrest) as (Hp & c & t & Hs & Hc).
    cbn [parse_value]. rewrite Hs in *. cbn [append] in *. rewrite Hc, Hp.
    reflexivity.
  - destruct b; reflexivity.
  - rewrite encode_basestring_append. cbn [parse_value].
    change (is_number_start quote) with false.
    change (Ascii.eqb quote quote) with true. cbn iota.
    now rewrite parse_chars_encode_chars.
Qed.

Lemma dumps_items_cons (kv : string * pyval) (d : dict) :
  d <> [] ->
  dumps_items (kv :: d) = (dumps_item kv ++ String "," (dumps_items d))%string.
Proof. destruct d; [intros H; now elim H|reflexivity]. Qed.

Lemma parse_members_item (fuel : nat) (kv : string * pyval) (t : string) :
  parse_members (S (S fuel)) (dumps_item kv ++ t)
  = match parse_value (S fuel) (dumps_value (snd kv) ++ t) with
    | Some (v, String "," r') =>
      match parse_members (S fuel) r' with
      | Some (ms, r'') => Some ((fst kv, v) :: ms, r'')
      | None => None
      end
    | Some (v, String "}" r') => Some ([(fst kv, v)], r')
    | _ => None
    end.
Proof.
  unfold dumps_item. rewrite append_assoc, encode_basestring_append.
  cbn [parse_members append]. change (Ascii.eqb quote quote) with true. cbn iota.
  rewrite parse_chars_encode_chars. reflexivity.
Qed.

Lemma parse_members_dumps (d : dict) :
  d <> [] ->
  forall fuel rest,
    (List.length d < fuel)%nat ->
    parse_members fuel (dumps_items d ++ String "}" rest)
    = Some (map (fun kv => (fst kv, json_of_pyval (snd kv))) d, rest).
Proof.
  induction d as [|kv d IH]; [intros H; now elim H|].
  intros _ fuel rest Hfuel.
  destruct fuel as [|[|fuel]]; simpl in Hfuel; try lia.
  destruct d as [|kv' d].
  - cbn [dumps_items map]. rewrite parse_members_item.
    rewrite parse_value_dumps by (apply separator_ends_number; now right).
    reflexivity.
  - rewrite dumps_items_cons by discriminate.
    rewrite append_assoc. cbn [append]. rewrite parse_members_item.
    rewrite parse_value_dumps by (apply separator_ends_number; now left).
    rewrite IH; [reflexivity|discriminate|simpl in *; lia].
Qed.

Lemma dumps_items_length (d : dict) :
  (List.length d <= String.length (dumps_items d))%nat.
Proof.
  induction d as [|kv d IH]; [simpl; lia|].
  destruct d as [|kv' d].
  - unfold dumps_items, dumps_item, encode_basestring. simpl. lia.
  - rewrite dumps_items_cons by discriminate.
    rewrite length_append. cbn [String.length]. simpl List.length in *. lia.
Qed.

(** Whatever dictionary of strings, numbers and booleans [json.dumps]
    serialises, [json.loads] reads its text back as that dictionary. *)
Lemma json_loads_dumps (d : dict) :
  json_loads (dumps d) = Some (json_of_dict d).
Proof.
  unfold json_loads, dumps, json_of_dict.
  destruct d as [|kv d]; [reflexivity|].
  set (items := dumps_items (kv :: d)).
  assert (Hlen : (List.length (kv :: d) <= String.length items)%nat)
    by apply dumps_items_length.
  cbn [String.length parse_value].
  change (is_number_start "{") with false.
  change (Ascii.eqb "{" quote) with false.
  change (Ascii.eqb "{" "{") with true. cbn iota.
  assert (Hhead : exists t, (items ++ "}")%string = String quote t).
  { unfold items. destruct d; cbn [dumps_items]; unfold dumps_item, encode_basestring;
      cbn [append]; eexists; reflexivity. }
  destruct Hhead as [t Ht]. rewrite Ht.
  change (match String quote t with
          | String "}" r => Some (JObj [], r)
          | _ => match parse_members (String.length (String quote t)) (String quote t) with
                 | Some (ms, r) => Some (JObj ms, r)
                 | None => None
                 end
          end)
    with (match parse_members (String.length (String quote t)) (String quote t) with
          | Some (ms, r) => Some (JObj ms, r)
          | None => None
          end).
  rewrite <- Ht.
  rewrite (parse_members_dumps (kv :: d)); [reflexivity|discriminate|].
  rewrite length_append. simpl String.length. lia.
Qed.

(* ================================================================= *)
(** ** The dictionary [generate_message] builds *)

Lemma dict_get_set_other (d : dict) (k k' : string) (v : pyval) :
  k <> k' -> dict_get (dict_set d k v) k' = dict_get d k'.
Proof.
  intros Hk. induction d as [|[k0 v0] d IH]; simpl.
  - destruct (String.eqb_spec k k'); [contradiction|reflexivity].
  - destruct (String.eqb_spec k0 k) as [->|Hne]; simpl.
    + destruct (String.eqb_spec k k'); [contradiction|reflexivity].
    + destruct (String.eqb_spec k0 k'); [reflexivity|exact IH].
Qed.

Lemma member_json_of_dict (d : dict) (k : string) :
  member (map (fun kv => (fst kv, json_of_pyval (snd kv))) d) k
  = option_map json_of_pyval (dict_get d k).
Proof.
  induction d as [|[k0 v0] d IH]; simpl; [reflexivity|].
  destruct (String.eqb k0 k); [reflexivity|exact IH].
Qed.

(** The loop only assigns keys [field_<n>]; any other key keeps its value. *)
Lemma fields_loop_keeps (g : MessageGenerator) (max_fields : Z) (k : string) :
  (forall n, ("field_" ++ str n)%string <> k) ->
  forall fuel message cur cnt src pos d pos',
    fields_loop fuel g max_fields message cur cnt src pos = (Ok d, pos') ->
    dict_get d k = dict_get message k.
Proof.
  intros Hk. induction fuel as [|fuel IH]; intros message cur cnt src pos d pos';
    cbn [fields_loop]; destruct (_ && _)%bool;
    try (unfold ret; intros H; inversion H; reflexivity);
    try discriminate.
  rewrite bind_unfold.
  destruct (draw_field g src pos) as [[v| |] p1]; try discriminate.
  rewrite bind_unfold.
  match goal with
  | |- context [?c src p1] =>
    destruct (c src p1) as [[[v'|]| |] p2]; try discriminate
  end.
  - intros H. apply IH in H. rewrite H. apply dict_get_set_other, Hk.
  - unfold ret; intros H; inversion H; reflexivity.
Qed.

Lemma field_name_not_timestamp (n : Z) : ("field_" ++ str n)%string <> "timestamp"%string.
Proof. cbn [append]. discriminate. Qed.

Lemma field_name_not_stockName (n : Z) : ("field_" ++ str n)%string <> "stockName"%string.
Proof. cbn [append]. discriminate. Qed.

(** The two mandatory fields of the dictionary: the clock reading, and a
    symbol of the generator's list. *)
Lemma generate_dict_mandatory (g : MessageGenerator) src pos d pos' :
  generate_dict g src pos = (Ok d, pos') ->
  dict_get d "timestamp" = Some (PStr (clock src pos))
  /\ exists sym, In sym (stock_symbols g)
                 /\ dict_get d "stockName" = Some (PStr sym).
Proof.
  unfold generate_dict. rewrite bind_unfold. cbn [now_isoformat].
  rewrite bind_unfold.
  destruct (choice (stock_symbols g) src (S pos)) as [[sym| |] p1] eqn:Hsym;
    try discriminate.
  apply choice_In in Hsym.
  rewrite bind_unfold.
  destruct (randint _ _ src p1) as [[delta| |] p2]; try discriminate.
  intros H. split.
  - rewrite (fields_loop_keeps g _ "timestamp" field_name_not_timestamp
               _ _ _ _ _ _ _ _ H). reflexivity.
  - exists sym. split; [exact Hsym|].
    rewrite (fields_loop_keeps g _ "stockName" field_name_not_stockName
               _ _ _ _ _ _ _ _ H). reflexivity.
Qed.

(** With ranges that are not empty, a number range within the floats and
    a symbol to choose, generating a message returns. *)
Lemma generate_dict_succeeds (g : MessageGenerator) src pos :
  ranges_ok g -> floats_ok g -> stock_symbols g <> [] ->
  exists d pos', generate_dict g src pos = (Ok d, pos').
Proof.
  intros Hr Hf Hs.
  destruct (generate_dict g src pos) as [[d|e|] p1] eqn:Hrun.
  - exists d, p1. reflexivity.
  - exfalso.
    apply (never_generate_dict (fun _ => True) (Some e) g
             (conj (fun _ => Hr) (conj (fun _ => Hs) (fun _ => Hf))) src pos I).
    rewrite Hrun. reflexivity.
  - exfalso.
    apply (never_generate_dict (fun _ => True) None g
             (conj (fun _ => Hr) (conj (fun _ => Hs) (fun _ => Hf))) src pos I).
    rewrite Hrun. exact I.
Qed.

Lemma generate_message_succeeds (g : MessageGenerator) src pos :
  ranges_ok g -> floats_ok g -> stock_symbols g <> [] ->
  exists out pos', generate_message g src pos = (Ok out, pos').
Proof.
  intros Hr Hf Hs.
  destruct (generate_dict_succeeds g src pos Hr Hf Hs) as (d & pos' & Hd).
  exists (dumps d), pos'. unfold generate_message. rewrite bind_unfold, Hd.
  reflexivity.
Qed.

(** A message that is returned is the text of a dictionary that was
    generated. *)
Lemma generate_message_dict (g : MessageGenerator) src pos out pos' :
  generate_message g src pos = (Ok out, pos') ->
  exists d, generate_dict g src pos = (Ok d, pos') /\ out = dumps d.
Proof.
  unfold generate_message. rewrite bind_unfold.
  destruct (generate_dict g src pos) as [[d|e|] p1]; try discriminate.
  unfold ret. intros H; inversion H; subst. exists d. split; reflexivity.
Qed.

(** The default number range and precision are within the floats. *)
Lemma default_floats_ok target symbols :
  floats_ok (MessageGenerator_init target symbols no_message_generation_config).
Proof. split; [vm_compute; reflexivity|left; simpl; lia]. Qed.

Lemma init_stock_symbols target symbols msg_config :
  stock_symbols (MessageGenerator_init target symbols msg_config)
  = match symbols with [] => default_stock_symbols | _ => symbols end
  /\ stock_symbols (MessageGenerator_init target symbols msg_config) <> [].
Proof. destruct symbols; split; try reflexivity; discriminate. Qed.

(* ================================================================= *)
(** ** C3: every generated message is JSON with the two mandatory fields *)




(* ================================================================= *)
(** ** The strings the templates make need no escaping *)

Lemma plain_cons (c : ascii) (s : string) :
  encode_char c = String c EmptyString -> plain s -> plain (String c s).
Proof. intros Hc Hs. split; assumption. Qed.

Lemma plain_append (a b : string) : plain a -> plain b -> plain (a ++ b).
Proof.
  intros Ha Hb. induction a as [|c a IH]; [exact Hb|].
  destruct Ha as [Hc Ha]. split; [exact Hc|apply IH, Ha].
Qed.

Lemma plain_take (n : nat) (s : string) : plain s -> plain (take n s).
Proof.
  revert s. induction n as [|n IH]; intros [|c s] Hs; simpl; try exact I.
  destruct Hs as [Hc Hs]. split; [exact Hc|apply IH, Hs].
Qed.

Lemma encode_chars_plain (s : string) : plain s -> encode_chars s = s.
Proof.
  induction s as [|c s IH]; [reflexivity|]. intros [Hc Hs].
  cbn [encode_chars]. now rewrite Hc, IH.
Qed.

Lemma plain_uint (u : Decimal.uint) : plain (NilEmpty.string_of_uint u).
Proof. induction u; simpl; try exact I; split; auto. Qed.

Lemma plain_str (n : Z) : plain (str n).
Proof.
  destruct n as [|p|p].
  - split; [reflexivity|exact I].
  - change (Z.pos p) with (Z.of_N (N.pos p)). rewrite str_nonneg. apply plain_uint.
  - rewrite str_neg. apply plain_cons; [reflexivity|apply plain_uint].
Qed.

Lemma plain_letters_digits :
  Forall (fun c => encode_char c = String c EmptyString) ascii_letters_digits.
Proof. unfold ascii_letters_digits. simpl. repeat constructor. Qed.

Lemma choices_plain (k : nat) :
  forall src pos s pos',
    choices ascii_letters_digits k src pos = (Ok s, pos') -> plain s.
Proof.
  induction k as [|k IH]; intros src pos s pos'; cbn [choices].
  - unfold ret. intros H; inversion H. exact I.
  - rewrite bind_unfold.
    destruct (choice ascii_letters_digits src pos) as [[c| |] p1] eqn:Hc;
      try discriminate.
    rewrite bind_unfold.
    destruct (choices ascii_letters_digits k src p1) as [[t| |] p2] eqn:Ht;
      try discriminate.
    unfold ret. intros H; inversion H; subst.
    apply plain_cons; [|eapply IH; eauto].
    apply choice_In in Hc.
    pose proof plain_letters_digits as Hall. rewrite Forall_forall in Hall. auto.
Qed.

Lemma plain_length (s : string) :
  plain s -> len (dumps_value (PStr s)) = len s + 2.
Proof.
  unfold len. intros Hs. cbn [dumps_value]. unfold encode_basestring.
  rewrite (encode_chars_plain s Hs). cbn [String.length].
  rewrite length_append. simpl. lia.
Qed.

(** Every string a template returns is plain. *)
Lemma draw_field_plain (g : MessageGenerator) src pos s pos' :
  draw_field g src pos = (Ok (PStr s), pos') -> plain s.
Proof.
  unfold draw_field. rewrite bind_unfold.
  destruct (choice (field_templates g) src pos) as [[t| |] p1] eqn:Ht;
    try discriminate.
  apply choice_In in Ht. unfold field_templates in Ht.
  destruct (string_length_range g) as [min_str max_str].
  destruct (number_range g) as [min_num max_num].
  cbn [In] in Ht.
  destruct Ht as [<-|[<-|[<-|[<-|[<-|[<-|[<-|[<-|[]]]]]]]]];
    rewrite bind_unfold.
  - destruct (randint _ _ src p1) as [[n| |] p2]; discriminate.
  - unfold of_result. destruct (truediv max_num 100) as [upper| |]; try discriminate.
    rewrite bind_unfold. unfold round_uniform.
    destruct (_ && _)%bool; discriminate.
  - destruct (choice [true; false] src p1) as [[b| |] p2]; discriminate.
  - destruct (randint _ _ src p1) as [[k| |] p2]; try discriminate.
    rewrite bind_unfold.
    destruct (choices _ _ src p2) as [[t| |] p3] eqn:Hch; try discriminate.
    unfold ret. intros H; inversion H; subst. eapply choices_plain; eauto.
  - destruct (choice status_strings src p1) as [[t| |] p2] eqn:Hch;
      try discriminate.
    unfold ret. intros H; inversion H; subst.
    apply choice_In in Hch. unfold status_strings in Hch. cbn [In] in Hch.
    destruct Hch as [<-|[<-|[<-|[<-|[<-|[]]]]]]; cbn; repeat split.
  - destruct (randint _ _ src p1) as [[n| |] p2]; try discriminate.
    unfold ret. intros H; inversion H; subst.
    apply (plain_append "user_"); [cbn; repeat split|apply plain_str].
  - destruct (randint _ _ src p1) as [[n| |] p2]; try discriminate.
    unfold ret. intros H; inversion H; subst.
    apply (plain_append "session_"); [cbn; repeat split|apply plain_str].
  - destruct (randint _ _ src p1) as [[n| |] p2]; discriminate.
Qed.

(* ================================================================= *)
(** ** C4: a candidate field that does not fit *)

Lemma field_json_length (name : string) (v : pyval) :
  len (field_json name v) = len name + len (dumps_value v) + 3.
Proof.
  unfold len, field_json. cbn [String.length]. rewrite length_append.
  cbn [String.length]. lia.
Qed.

Lemma take_length (n : nat) (s : string) :
  (n <= String.length s)%nat -> String.length (take n s) = n.
Proof.
  revert s. induction n as [|n IH]; intros [|c s] H; simpl in *; try lia.
  now rewrite IH by lia.
Qed.

(** One turn of the loop whose condition holds and whose candidate is [v]. *)
Lemma fields_loop_turn g max_fields fuel message cur cnt src pos v p1 :
  cur < target_size g - size_tolerance g ->
  cnt < max_fields ->
  draw_field g src pos = (Ok v, p1) ->
  fields_loop (S fuel) g max_fields message cur cnt src pos
  = let name := ("field_" ++ str cnt)%string in
    let size := len (field_json name v) + 1 in
    match (if cur + size >? target_size g
           then shrink_field g cur cnt name v
           else ret (Some v)) src p1 with
    | (Ok (Some v'), p2) =>
      fields_loop fuel g max_fields (dict_set message name v')
                  (cur + size) (cnt + 1) src p2
    | (Ok None, p2) => (Ok message, p2)
    | (Raise e, p2) => (Raise e, p2)
    | (OutOfFuel, p2) => (OutOfFuel, p2)
    end.
Proof.
  intros Hcur Hcnt Hdraw. cbn [fields_loop].
  apply Z.ltb_lt in Hcur. apply Z.ltb_lt in Hcnt. rewrite Hcur, Hcnt.
  cbn [andb]. rewrite bind_unfold, Hdraw. rewrite bind_unfold. cbv zeta.
  destruct (cur + (len (field_json ("field_" ++ str cnt) v) + 1) >? target_size g).
  - destruct (shrink_field g cur cnt ("field_" ++ str cnt) v src p1)
      as [[[v'|]| |] p2]; reflexivity.
  - reflexivity.
Qed.

(** A string candidate that does not fit, cut or not. *)
Lemma overflow_string g max_fields fuel message cur cnt src pos s p1 :
  cur < target_size g - size_tolerance g ->
  cnt < max_fields ->
  draw_field g src pos = (Ok (PStr s), p1) ->
  let name := ("field_" ++ str cnt)%string in
  let size := len (field_json name (PStr s)) + 1 in
  let usable := target_size g - cur - len name - 10 in
  target_size g < cur + size ->
  (0 < usable ->
   fields_loop (S fuel) g max_fields message cur cnt src pos
   = fields_loop fuel g max_fields
       (dict_set message name (PStr (take (Z.to_nat usable) s)))
       (cur + size) (cnt + 1) src p1
   /\ len (take (Z.to_nat usable) s) = usable
   /\ cur + (len (field_json name (PStr (take (Z.to_nat usable) s))) + 1)
      <= target_size g)
  /\ (usable <= 0 ->
      fields_loop (S fuel) g max_fields message cur cnt src pos = (Ok message, p1)).
Proof.
  intros Hcur Hcnt Hdraw name size usable Hover.
  pose proof (draw_field_plain g src pos s p1 Hdraw) as Hplain.
  pose proof (fields_loop_turn g max_fields fuel message cur cnt src pos
                (PStr s) p1 Hcur Hcnt Hdraw) as Hturn.
  cbv zeta in Hturn. fold name in Hturn. fold size in Hturn.
  assert (Hgt : (cur + size >? target_size g) = true) by (apply Z.gtb_lt; lia).
  rewrite Hgt in Hturn. cbn [shrink_field] in Hturn. fold usable in Hturn.
  assert (Hsize : size = len name + len s + 6).
  { unfold size. rewrite field_json_length, plain_length by exact Hplain. lia. }
  split.
  - intros Hpos.
    assert (H5 : (len s >? 5) = true) by (apply Z.gtb_lt; lia).
    assert (H0 : (usable >? 0) = true) by (apply Z.gtb_lt; lia).
    rewrite H5, H0 in Hturn. cbn [ret] in Hturn.
    assert (Hlen : len (take (Z.to_nat usable) s) = usable).
    { unfold len. rewrite take_length; [lia|]. unfold len in *. lia. }
    split; [exact Hturn|]. split; [exact Hlen|].
    rewrite field_json_length, plain_length by (apply plain_take, Hplain).
    rewrite Hlen. unfold usable. lia.
  - intros Hneg.
    assert (H0 : (usable >? 0) = false) by (rewrite Z.gtb_ltb; apply Z.ltb_ge; lia).
    rewrite H0 in Hturn. destruct (len s >? 5); exact Hturn.
Qed.

(** A number candidate that does not fit, replaced or not. *)
Lemma overflow_number g max_fields fuel message cur cnt src pos v p1 :
  cur < target_size g - size_tolerance g ->
  cnt < max_fields ->
  draw_field g src pos = (Ok v, p1) ->
  is_int_or_float v = true ->
  let name := ("field_" ++ str cnt)%string in
  let size := len (field_json name v) + 1 in
  target_size g < cur + size ->
  (10 < cnt ->
   exists k,
     1 <= k <= 99
     /\ fields_loop (S fuel) g max_fields message cur cnt src pos
        = fields_loop fuel g max_fields (dict_set message name (PInt k))
            (cur + size) (cnt + 1) src (S p1))
  /\ (cnt <= 10 ->
      fields_loop (S fuel) g max_fields message cur cnt src pos = (Ok message, p1)).
Proof.
  intros Hcur Hcnt Hdraw Hnum name size Hover.
  pose proof (fields_loop_turn g max_fields fuel message cur cnt src pos
                v p1 Hcur Hcnt Hdraw) as Hturn.
  cbv zeta in Hturn. fold name in Hturn. fold size in Hturn.
  assert (Hgt : (cur + size >? target_size g) = true) by (apply Z.gtb_lt; lia).
  rewrite Hgt in Hturn.
  assert (Hshrink : shrink_field g cur cnt name v
                    = if cnt >? 10
                      then n <- randint 1 99 ;; ret (Some (PInt n))
                      else ret None).
  { destruct v; try discriminate Hnum; reflexivity. }
  rewrite Hshrink in Hturn. split.
  - intros H10. assert (Hc : (cnt >? 10) = true) by (apply Z.gtb_lt; lia).
    rewrite Hc in Hturn.
    exists (1 + Z.of_N (ints src p1) mod (99 - 1 + 1)). split.
    + pose proof (Z.mod_pos_bound (Z.of_N (ints src p1)) (99 - 1 + 1)). lia.
    + exact Hturn.
  - intros H10.
    assert (Hc : (cnt >? 10) = false) by (rewrite Z.gtb_ltb; apply Z.ltb_ge; lia).
    rewrite Hc in Hturn. exact Hturn.
Qed.

(** C4, as stated, fails: with ten fields added (running size 217 of 230)
    the eleventh candidate is the integer 1000000002, which does not fit;
    no small number is put in its place, the loop stops and the message
    has no [field_10]. *)
Lemma overflow_at_ten_fields_stops :
  generate_dict tight_generator ten_bools_then_int 0%nat = (Ok ten_bools, 25%nat)
  /\ dict_get ten_bools "field_10" = None
  /\ len (dumps ten_bools) = 217
  /\ draw_field tight_generator ten_bools_then_int 23%nat
     = (Ok (PInt 1000000002), 25%nat)
  /\ target_size tight_generator
     < 217 + (len (field_json "field_10" (PInt 1000000002)) + 1)
  /\ fields_loop 1 tight_generator 97 ten_bools 217 10 ten_bools_then_int 23%nat
     = (Ok ten_bools, 25%nat).
Proof. repeat split; vm_compute; reflexivity. Qed.

(** C4 (amended): when the loop condition holds and the candidate [v] does
    not fit ([current_size + field_size > target_size]):
    - a string candidate is cut to its first
      [target_size - current_size - len(field_name) - 10] characters when
      that number is positive, the cut field then fits, and the loop goes
      on; when that number is zero or negative the loop stops;
    - a candidate that is an integer, a float or a boolean is replaced by
      an integer drawn from 1..99, and the loop goes on, when more than 10
      fields have been added; with 10 fields or fewer the loop stops.
    In the turns that go on, [current_size] grows by the size of the
    candidate as it was drawn. *)
Theorem overflow_policy (g : MessageGenerator) (max_fields : Z) (fuel : nat)
    (message : dict) (cur cnt : Z) (src : source) (pos : nat)
    (v : pyval) (p1 : nat) :
  cur < target_size g - size_tolerance g ->
  cnt < max_fields ->
  draw_field g src pos = (Ok v, p1) ->
  let name := ("field_" ++ str cnt)%string in
  let size := len (field_json name v) + 1 in
  let usable := target_size g - cur - len name - 10 in
  target_size g < cur + size ->
  (forall s, v = PStr s ->
     (0 < usable ->
      fields_loop (S fuel) g max_fields message cur cnt src pos
      = fields_loop fuel g max_fields
          (dict_set message name (PStr (take (Z.to_nat usable) s)))
          (cur + size) (cnt + 1) src p1
      /\ len (take (Z.to_nat usable) s) = usable
      /\ cur + (len (field_json name (PStr (take (Z.to_nat usable) s))) + 1)
         <= target_size g)
     /\ (usable <= 0 ->
         fields_loop (S fuel) g max_fields message cur cnt src pos
         = (Ok message, p1)))
  /\ (is_int_or_float v = true ->
      (10 < cnt ->
       exists k,
         1 <= k <= 99
         /\ fields_loop (S fuel) g max_fields message cur cnt src pos
            = fields_loop fuel g max_fields (dict_set message name (PInt k))
                (cur + size) (cnt + 1) src (S p1))
      /\ (cnt <= 10 ->
          fields_loop (S fuel) g max_fields message cur cnt src pos
          = (Ok message, p1))).
Proof.
  intros Hcur Hcnt Hdraw name size usable Hover. split.
  - intros s ->.
    exact (overflow_string g max_fields fuel message cur cnt src pos s p1
             Hcur Hcnt Hdraw Hover).
  - intros Hnum.
    exact (overflow_number g max_fields fuel message cur cnt src pos v p1
             Hcur Hcnt Hdraw Hnum Hover).
Qed.

(** The eleventh candidate of the tight generator: a number, ten fields
    added, so the loop stops. *)
Lemma overflow_policy_sample :
  217 < target_size tight_generator - size_tolerance tight_generator
  /\ 10 < 97
  /\ draw_field tight_generator ten_bools_then_int 23%nat
     = (Ok (PInt 1000000002), 25%nat)
  /\ target_size tight_generator
     < 217 + (len (field_json ("field_" ++ str 10) (PInt 1000000002)) + 1)
  /\ fields_loop 1 tight_generator 97 ten_bools 217 10 ten_bools_then_int 23%nat
     = (Ok ten_bools, 25%nat).
Proof.
  assert (H1 : 217 < target_size tight_generator - size_tolerance tight_generator)
    by (vm_compute; reflexivity).
  assert (H2 : 10 < 97) by lia.
  assert (H3 : draw_field tight_generator ten_bools_then_int 23%nat
               = (Ok (PInt 1000000002), 25%nat)) by (vm_compute; reflexivity).
  assert (H4 : target_size tight_generator
               < 217 + (len (field_json ("field_" ++ str 10) (PInt 1000000002)) + 1))
    by (vm_compute; reflexivity).
  split; [exact H1|]. split; [exact H2|]. split; [exact H3|]. split; [exact H4|].
  exact (proj2 (proj2 (overflow_policy tight_generator 97 0 ten_bools 217 10
                         ten_bools_then_int 23%nat (PInt 1000000002) 25%nat
                         H1 H2 H3 H4) eq_refl)
               ltac:(lia)).
Defined.

(* ################################################################# *)
(** * Further properties of the code *)

(* ================================================================= *)
(** ** The fields of a generated message *)

Lemma randint_range (a b : Z) src pos n pos' :
  randint a b src pos = (Ok n, pos') -> a <= n <= b.
Proof.
  unfold randint. destruct (Z.ltb_spec b a) as [Hlt|Hle]; [discriminate|].
  rewrite bind_unfold. cbn [draw]. unfold ret. intros H; inversion H; subst.
  pose proof (Z.mod_pos_bound (Z.of_N (ints src pos)) (b - a + 1)). lia.
Qed.

(** [str] writes different integers differently. *)
Lemma str_inj (n m : Z) : str n = str m -> n = m.
Proof.
  unfold str. intros H. apply to_int_inj.
  assert (Hback : forall z, NilZero.int_of_string (NilZero.string_of_int (Z.to_int z))
                            = Some (Z.to_int z)).
  { intros z. apply NilZero.isi; destruct z; simpl; try discriminate;
      intros E; inversion E as [E'];
      exact (DecimalPos.Unsigned.to_uint_nonnil _ E'). }
  pose proof (Hback n) as Hn. rewrite H, Hback in Hn. now inversion Hn.
Qed.

Lemma field_names_S (k : nat) :
  field_names (S k) = (field_names k ++ [("field_" ++ str (Z.of_nat k))%string])%list.
Proof. unfold field_names. rewrite seq_S, map_app. reflexivity. Qed.

Lemma field_names_length (k : nat) : List.length (field_names k) = k.
Proof. unfold field_names. now rewrite length_map, length_seq. Qed.

Lemma field_name_fresh (k : nat) :
  ~ In ("field_" ++ str (Z.of_nat k))%string (field_names k).
Proof.
  unfold field_names. rewrite in_map_iff. intros (i & Heq & Hin).
  apply in_seq in Hin. cbn [append] in Heq. inversion Heq as [Hs].
  apply str_inj in Hs. lia.
Qed.

Lemma field_names_NoDup (k : nat) : NoDup (field_names k).
Proof.
  induction k as [|k IH]; [constructor|].
  rewrite field_names_S. apply NoDup_app; [exact IH|repeat constructor; intros []|].
  intros x Hx [<-|[]]. exact (field_name_fresh k Hx).
Qed.

Lemma field_names_mandatory (k : nat) (x : string) :
  In x (field_names k) -> x <> "timestamp"%string /\ x <> "stockName"%string.
Proof.
  unfold field_names. rewrite in_map_iff. intros (i & <- & _).
  split; [apply field_name_not_timestamp|apply field_name_not_stockName].
Qed.

(** Assigning to a key the dictionary does not have appends an entry. *)
Lemma dict_set_fresh (d : dict) (k : string) (v : pyval) :
  ~ In k (keys d) -> dict_set d k v = (d ++ [(k, v)])%list.
Proof.
  induction d as [|[k0 v0] d IH]; intros Hk; cbn [dict_set]; [reflexivity|].
  cbn [keys map fst In] in Hk.
  destruct (String.eqb_spec k0 k) as [->|Hne]; [tauto|].
  cbn [app]. f_equal. apply IH. unfold keys. tauto.
Qed.

Lemma keys_app (d d' : dict) : keys (d ++ d') = (keys d ++ keys d')%list.
Proof. unfold keys. apply map_app. Qed.

Lemma dumps_items_snoc (d : dict) (kv : string * pyval) :
  d <> [] ->
  dumps_items (d ++ [kv]) = (dumps_items d ++ String "," (dumps_item kv))%string.
Proof.
  induction d as [|kv0 d IH]; intros Hd; [now elim Hd|].
  destruct d as [|kv1 d]; [reflexivity|].
  change ((kv0 :: kv1 :: d) ++ [kv])%list with (kv0 :: ((kv1 :: d) ++ [kv]))%list.
  rewrite dumps_items_cons by (cbn [app]; discriminate).
  rewrite IH by discriminate.
  rewrite (dumps_items_cons kv0 (kv1 :: d)) by discriminate.
  rewrite append_assoc. reflexivity.
Qed.

Lemma dumps_item_length (name : string) (v : pyval) :
  plain name -> len (dumps_item (name, v)) = len (field_json name v).
Proof.
  intros Hp. rewrite field_json_length.
  unfold len, dumps_item, encode_basestring. cbn [fst snd].
  rewrite (encode_chars_plain name Hp).
  cbn [append String.length]. rewrite !length_append. cbn [String.length]. lia.
Qed.

(** What one more field adds to the text: the field and a comma. *)
Lemma dumps_snoc_length (d : dict) (name : string) (v : pyval) :
  d <> [] -> plain name ->
  len (dumps (d ++ [(name, v)])) = len (dumps d) + (len (field_json name v) + 1).
Proof.
  intros Hd Hp. rewrite <- (dumps_item_length name v Hp).
  unfold dumps. rewrite dumps_items_snoc by exact Hd.
  unfold len. cbn [String.length]. rewrite !length_append.
  cbn [String.length]. rewrite ?length_append. lia.
Qed.

Lemma plain_field_name (n : Z) : plain ("field_" ++ str n).
Proof. apply (plain_append "field_"); [cbn; repeat split|apply plain_str]. Qed.

Lemma take_shorter (n : nat) (s : string) :
  (String.length (take n s) <= n /\ String.length (take n s) <= String.length s)%nat.
Proof.
  revert s. induction n as [|n IH]; intros [|c s]; simpl; try lia.
  specialize (IH s). lia.
Qed.

(** A property of the first integers, checked on each of them. *)
Lemma below_forall (P : Z -> bool) (bound : nat) :
  forallb P (map Z.of_nat (seq 0 bound)) = true ->
  forall n, 0 <= n < Z.of_nat bound -> P n = true.
Proof.
  intros Hall n Hn. rewrite forallb_forall in Hall. apply Hall.
  rewrite in_map_iff. exists (Z.to_nat n). split; [lia|].
  apply in_seq. lia.
Qed.

Lemma str_digits (n : Z) :
  0 <= n < 1000 -> len (str n) <= (if n <? 100 then 2 else 3).
Proof.
  intros Hn.
  apply Z.leb_le.
  apply (below_forall (fun n => len (str n) <=? (if n <? 100 then 2 else 3)) 1000);
    [vm_compute; reflexivity|exact Hn].
Qed.

(** What [shrink_field] stores, when it stores something. *)
Lemma shrink_field_some g cur cnt name v src p1 v' p2 :
  shrink_field g cur cnt name v src p1 = (Ok (Some v'), p2) ->
  (exists s, v = PStr s
             /\ 0 < target_size g - cur - len name - 10
             /\ v' = PStr (take (Z.to_nat (target_size g - cur - len name - 10)) s))
  \/ (10 < cnt /\ exists n, 1 <= n <= 99 /\ v' = PInt n).
Proof.
  unfold shrink_field.
  assert (Hnum : ((if (true && (cnt >? 10))%bool
                   then n <- randint 1 99 ;; ret (Some (PInt n))
                   else ret None) src p1 = (Ok (Some v'), p2)) ->
                 10 < cnt /\ exists n, 1 <= n <= 99 /\ v' = PInt n).
  { cbn [andb]. destruct (Z.gtb_spec cnt 10) as [Hc|Hc]; [|discriminate].
    rewrite bind_unfold.
    destruct (randint 1 99 src p1) as [[n| |] p] eqn:Hr; try discriminate.
    unfold ret. intros H; inversion H; subst.
    split; [exact Hc|]. exists n. split; [|reflexivity].
    eapply randint_range; eauto. }
  destruct v as [n|f|b|s]; cbn [is_int_or_float]; try (intros H; right; apply Hnum; exact H).
  destruct (len s >? 5); [|discriminate].
  destruct (Z.gtb_spec (target_size g - cur - len name - 10) 0) as [Hm|Hm];
    [|discriminate].
  unfold ret. intros H; inversion H; subst. left. exists s. auto.
Qed.

(** An invariant of the loop holds of the dictionary it returns. *)
Lemma fields_loop_invariant (I : dict -> Z -> Z -> Prop) g max_fields :
  (forall message cur cnt src pos v p1 v' p2,
      I message cur cnt ->
      cur < target_size g - size_tolerance g ->
      cnt < max_fields ->
      draw_field g src pos = (Ok v, p1) ->
      (if cur + (len (field_json ("field_" ++ str cnt) v) + 1) >? target_size g
       then shrink_field g cur cnt ("field_" ++ str cnt) v
       else ret (Some v)) src p1 = (Ok (Some v'), p2) ->
      I (dict_set message ("field_" ++ str cnt) v')
        (cur + (len (field_json ("field_" ++ str cnt) v) + 1)) (cnt + 1)) ->
  forall fuel message cur cnt src pos d pos',
    I message cur cnt ->
    fields_loop fuel g max_fields message cur cnt src pos = (Ok d, pos') ->
    exists cur' cnt', I d cur' cnt'.
Proof.
  intros Hstep. induction fuel as [|fuel IH]; intros message cur cnt src pos d pos' HI;
    cbn [fields_loop];
    destruct ((cur <? target_size g - size_tolerance g) && (cnt <? max_fields))%bool
      eqn:Hguard;
    try (unfold ret; intros H; inversion H; subst; eauto; fail);
    try discriminate.
  apply andb_true_iff in Hguard. destruct Hguard as [Hcur Hcnt].
  apply Z.ltb_lt in Hcur. apply Z.ltb_lt in Hcnt.
  rewrite bind_unfold.
  destruct (draw_field g src pos) as [[v| |] p1] eqn:Hdraw; try discriminate.
  rewrite bind_unfold. cbv zeta.
  match goal with
  | |- context [?c src p1] =>
    destruct (c src p1) as [[[v'|]| |] p2] eqn:Hkept; try discriminate
  end.
  - intros H. eapply IH; [|exact H]. eapply Hstep; eauto.
  - unfold ret; intros H; inversion H; subst; eauto.
Qed.

(** The steps of [generate_message] before its loop, for a dictionary
    that is returned. *)
Lemma generate_dict_inv (g : MessageGenerator) src pos d pos' :
  generate_dict g src pos = (Ok d, pos') ->
  exists sym p1 delta p2,
    In sym (stock_symbols g)
    /\ - field_count_variance g <= delta <= field_count_variance g
    /\ choice (stock_symbols g) src (S pos) = (Ok sym, p1)
    /\ randint (- field_count_variance g) (field_count_variance g) src p1
       = (Ok delta, p2)
    /\ fields_loop (Z.to_nat (target_field_count g + delta)) g
         (target_field_count g + delta)
         (base_message (clock src pos) sym)
         (len (dumps (base_message (clock src pos) sym))) 0 src p2 = (Ok d, pos').
Proof.
  unfold generate_dict. rewrite bind_unfold. cbn [now_isoformat].
  rewrite bind_unfold.
  destruct (choice (stock_symbols g) src (S pos)) as [[sym| |] p1] eqn:Hsym;
    try discriminate.
  rewrite bind_unfold.
  destruct (randint _ _ src p1) as [[delta| |] p2] eqn:Hdelta; try discriminate.
  intros Hloop. exists sym, p1, delta, p2.
  split; [eapply choice_In; eauto|].
  split; [eapply randint_range; eauto|].
  repeat split; auto.
Qed.

Lemma choice_succeeds {A} (seq : list A) src pos :
  seq <> [] -> exists x pos', choice seq src pos = (Ok x, pos').
Proof.
  intros Hne. destruct (choice seq src pos) as [[x|e|] p1] eqn:Hrun.
  - exists x, p1. reflexivity.
  - exfalso.
    apply (never_choice (fun _ => True) (Some e) seq (fun _ => Hne) src pos I).
    rewrite Hrun. reflexivity.
  - exfalso.
    apply (never_choice (fun _ => True) None seq (fun _ => Hne) src pos I).
    rewrite Hrun. exact I.
Qed.

(** With a variance that is not negative and a symbol to choose,
    [generate_message] reaches its loop. *)
Lemma generate_dict_start (g : MessageGenerator) src pos :
  0 <= field_count_variance g -> stock_symbols g <> [] ->
  exists sym delta p2,
    In sym (stock_symbols g)
    /\ - field_count_variance g <= delta <= field_count_variance g
    /\ generate_dict g src pos
       = fields_loop (Z.to_nat (target_field_count g + delta)) g
           (target_field_count g + delta)
           (base_message (clock src pos) sym)
           (len (dumps (base_message (clock src pos) sym))) 0 src p2.
Proof.
  intros Hvar Hs.
  destruct (choice_succeeds (stock_symbols g) src (S pos) Hs) as (sym & p1 & Hsym).
  exists sym.
  unfold generate_dict. rewrite bind_unfold. cbn [now_isoformat].
  rewrite bind_unfold, Hsym, bind_unfold.
  unfold randint at 1.
  destruct (Z.ltb_spec (field_count_variance g) (- field_count_variance g)) as [H|H];
    [lia|].
  rewrite bind_unfold. cbn [draw ret].
  eexists. exists (S p1).
  split; [eapply choice_In; eauto|]. split; [|reflexivity].
  pose proof (Z.mod_pos_bound (Z.of_N (ints src p1))
                (field_count_variance g - - field_count_variance g + 1)).
  lia.
Qed.

(** The keys the loop has written so far are [field_0], [field_1], ... *)
Lemma fields_loop_keys g max_fields ts sym fuel message cur cnt src pos d pos' k :
  cnt = Z.of_nat k ->
  keys message = (keys (base_message ts sym) ++ field_names k)%list ->
  fields_loop fuel g max_fields message cur cnt src pos = (Ok d, pos') ->
  exists k', keys d = (keys (base_message ts sym) ++ field_names k')%list
             /\ Z.of_nat k' <= Z.max (Z.of_nat k) max_fields.
Proof.
  intros Hcnt Hkeys Hloop.
  unshelve epose proof
    (fields_loop_invariant
       (fun message _ cnt =>
          exists k', cnt = Z.of_nat k'
                     /\ keys message
                        = (keys (base_message ts sym) ++ field_names k')%list
                     /\ Z.of_nat k' <= Z.max (Z.of_nat k) max_fields)
       g max_fields _ _ _ _ _ _ _ _ _ _ Hloop) as (cur' & cnt' & k' & _ & Hk' & Hb).
  - clear. intros message cur cnt src pos v p1 v' p2 (k' & -> & Hkeys & Hb) _ Hlt _ _.
    exists (S k'). split; [lia|]. split; [|lia].
    rewrite dict_set_fresh.
    + rewrite keys_app, Hkeys, field_names_S, List.app_assoc. reflexivity.
    + rewrite Hkeys. intros Hin. apply in_app_or in Hin. destruct Hin as [Hin|Hin].
      * cbn in Hin. destruct Hin as [Hin|[Hin|[]]];
          [exact (field_name_not_timestamp _ (eq_sym Hin))
          |exact (field_name_not_stockName _ (eq_sym Hin))].
      * exact (field_name_fresh k' Hin).
  - exists k. split; [exact Hcnt|]. split; [exact Hkeys|lia].
  - exists k'. split; assumption.
Qed.



(* ================================================================= *)
(** ** The size of a generated message *)

Lemma field_name_length (n : Z) : len ("field_" ++ str n) = 6 + len (str n).
Proof. unfold len. cbn [append String.length]. lia. Qed.

Lemma base_message_length (ts sym : string) :
  31 <= len (dumps (base_message ts sym)).
Proof.
  unfold len, dumps, base_message. cbn [dumps_items].
  unfold dumps_item. cbn [fst snd dumps_value]. unfold encode_basestring.
  change (encode_chars "timestamp") with "timestamp"%string.
  change (encode_chars "stockName") with "stockName"%string.
  repeat (rewrite ?length_append; cbn [String.length append]).
  lia.
Qed.

Lemma keys_nonempty (d : dict) (k : string) (ks : list string) :
  keys d = k :: ks -> d <> [].
Proof. intros H ->. discriminate H. Qed.

(** While no field had to be cut or replaced, [current_size] is the length
    of the text; a field that is cut makes the text fit the target, and a
    replaced number is at most two digits long. *)
Lemma fields_loop_size g max_fields ts sym fuel src pos d pos' :
  max_fields <= 1000 ->
  14 <= size_tolerance g ->
  fields_loop fuel g max_fields (base_message ts sym)
    (len (dumps (base_message ts sym))) 0 src pos = (Ok d, pos') ->
  len (dumps d) <= Z.max (target_size g) (len (dumps (base_message ts sym))).
Proof.
  intros Hmax Htol Hloop.
  unshelve epose proof
    (fields_loop_invariant
       (fun message cur cnt =>
          exists k, cnt = Z.of_nat k
                    /\ keys message
                       = (keys (base_message ts sym) ++ field_names k)%list
                    /\ len (dumps message)
                       <= Z.max (target_size g) (len (dumps (base_message ts sym)))
                    /\ (cur < target_size g - size_tolerance g ->
                        len (dumps message) <= cur))
       g max_fields _ _ _ _ _ _ _ _ _ _ Hloop) as (cur' & cnt' & k' & _ & _ & Hb & _).
  - clear - Hmax Htol.
    intros message cur cnt src pos v p1 v' p2 (k & -> & Hkeys & HA & Hacc)
           Hcur Hlt Hdraw Hkept.
    specialize (Hacc Hcur).
    set (name := ("field_" ++ str (Z.of_nat k))%string) in *.
    assert (Hfresh : ~ In name (keys message)).
    { rewrite Hkeys. intros Hin. apply in_app_or in Hin. destruct Hin as [Hin|Hin].
      - cbn in Hin. destruct Hin as [Hin|[Hin|[]]];
          [exact (field_name_not_timestamp _ (eq_sym Hin))
          |exact (field_name_not_stockName _ (eq_sym Hin))].
      - exact (field_name_fresh k Hin). }
    assert (Hne : message <> []) by (eapply keys_nonempty; exact Hkeys).
    exists (S k). split; [lia|].
    rewrite (dict_set_fresh message name v' Hfresh).
    split; [rewrite keys_app, Hkeys, field_names_S, List.app_assoc; reflexivity|].
    rewrite (dumps_snoc_length message name v' Hne (plain_field_name _)).
    rewrite !field_json_length in *.
    destruct (Z.gtb_spec (cur + (len name + len (dumps_value v) + 3 + 1))
                         (target_size g)) as [Hover|Hfit].
    + apply shrink_field_some in Hkept.
      destruct Hkept as [(s & -> & Hm & ->)|(Hcnt & n & Hn & ->)].
      * pose proof (draw_field_plain g src pos s p1 Hdraw) as Hplain.
        rewrite (plain_length s Hplain) in *.
        rewrite (plain_length _ (plain_take _ s Hplain)).
        destruct (take_shorter (Z.to_nat (target_size g - cur - len name - 10)) s)
          as [Hs1 Hs2].
        unfold len in *. split; [|intros _]; lia.
      * cbn [dumps_value].
        assert (Hd1 : len (str n) <= 2).
        { pose proof (str_digits n ltac:(lia)) as Hd.
          destruct (Z.ltb_spec n 100); lia. }
        assert (Hd2 : len name <= 9).
        { unfold name. rewrite field_name_length.
          pose proof (str_digits (Z.of_nat k) ltac:(lia)) as Hd.
          destruct (Z.ltb_spec (Z.of_nat k) 100); lia. }
        split; [|intros Hc]; lia.
    + unfold ret in Hkept. inversion Hkept; subst v'. split; [|intros _]; lia.
  - exists 0%nat. split; [reflexivity|]. split; [reflexivity|]. split; lia.
  - exact Hb.
Qed.



(** X3: When the target size is within the tolerance of 31 characters, or the
    configured field count and variance allow no numbered field, the
    message holds the two mandatory fields and nothing else; it is at
    least 31 characters long, whatever the target size. *)
Theorem generate_message_minimal (g : MessageGenerator) (src : source) (pos : nat) :
  ranges_ok g -> stock_symbols g <> [] ->
  target_size g - size_tolerance g <= 31
  \/ target_field_count g + field_count_variance g <= 0 ->
  exists sym pos',
    In sym (stock_symbols g)
    /\ generate_message g src pos
       = (Ok (dumps (base_message (clock src pos) sym)), pos')
    /\ 31 <= len (dumps (base_message (clock src pos) sym)).
Proof.
  intros Hr Hs Hsmall.
  destruct (generate_dict_start g src pos (proj1 Hr) Hs)
    as (sym & delta & p2 & Hin & Hdelta & Hrun).
  pose proof (base_message_length (clock src pos) sym) as Hbase.
  assert (Hguard : ((len (dumps (base_message (clock src pos) sym))
                     <? target_size g - size_tolerance g)
                    && (0 <? target_field_count g + delta))%bool = false).
  { apply andb_false_iff. destruct Hsmall as [Hsz|Hcnt];
      [left|right]; apply Z.ltb_ge; lia. }
  exists sym, p2. split; [exact Hin|]. split; [|exact Hbase].
  unfold generate_message. rewrite bind_unfold, Hrun.
  destruct (Z.to_nat (target_field_count g + delta));
    cbn [fields_loop]; rewrite Hguard; reflexivity.
Qed.

(** A generator for messages of 40 characters. *)
Lemma generate_message_minimal_sample :
  let g := MessageGenerator_init 40 [] no_message_generation_config in
  ranges_ok g /\ stock_symbols g <> []
  /\ (target_size g - size_tolerance g <= 31
      \/ target_field_count g + field_count_variance g <= 0)
  /\ exists sym pos',
       In sym (stock_symbols g)
       /\ generate_message g sample_source 0%nat
          = (Ok (dumps (base_message (clock sample_source 0%nat) sym)), pos')
       /\ 31 <= len (dumps (base_message (clock sample_source 0%nat) sym)).
Proof.
  cbv zeta.
  assert (Hr : ranges_ok (MessageGenerator_init 40 [] no_message_generation_config))
    by (unfold ranges_ok; simpl; lia).
  assert (Hs : stock_symbols (MessageGenerator_init 40 [] no_message_generation_config)
               <> []) by discriminate.
  assert (Hsmall : target_size (MessageGenerator_init 40 [] no_message_generation_config)
                   - size_tolerance (MessageGenerator_init 40 [] no_message_generation_config)
                   <= 31
                   \/ target_field_count
                        (MessageGenerator_init 40 [] no_message_generation_config)
                      + field_count_variance
                          (MessageGenerator_init 40 [] no_message_generation_config)
                      <= 0) by (left; simpl; lia).
  split; [exact Hr|]. split; [exact Hs|]. split; [exact Hsmall|].
  exact (generate_message_minimal _ sample_source 0%nat Hr Hs Hsmall).
Defined.

(* ================================================================= *)
(** ** What [send_batch] hands to the producer *)

Lemma batch_bytes_snoc env (b : list string) (m : string) :
  batch_bytes env (b ++ [m]) = batch_bytes env b + event_size env m.
Proof.
  unfold batch_bytes. induction b as [|x b IH]; cbn [app fold_right]; lia.
Qed.

Lemma batch_bytes_nonneg env (b : list string) :
  (forall m, 0 <= event_size env m) -> 0 <= batch_bytes env b.
Proof.
  intros Hsize. unfold batch_bytes.
  induction b as [|x b IH]; cbn [fold_right]; [lia|]. specialize (Hsize x). lia.
Qed.

Lemma add_messages_app (l1 l2 : list string) :
  forall b env w,
    add_messages (l1 ++ l2) b env w
    = (b' <- add_messages l1 b ;; add_messages l2 b') env w.
Proof.
  induction l1 as [|m l1 IH]; intros b env w; [reflexivity|].
  cbn [app add_messages]. rewrite !bind_unfold.
  match goal with
  | |- context [try_except ?c ?h ?k env w] =>
    destruct (try_except c h k env w) as [[b1|e|] w1]; try reflexivity
  end.
  rewrite IH. reflexivity.
Qed.

(** The loop over messages that fit, with the sink up: the batches sent
    on the way and the batch left open hold the messages, in order. *)
Lemma add_messages_delivers env messages :
  sink_up env -> Forall (fits env) messages ->
  forall b w,
    size_in_bytes b = batch_bytes env (events b) ->
    events b = [] \/ batch_bytes env (events b) <= max_size_in_bytes env ->
    exists batches b' w',
      add_messages messages b env w = (Ok b', w')
      /\ deliveries (trace w') = (rev batches ++ deliveries (trace w))%list
      /\ (List.concat batches ++ events b' = events b ++ messages)%list
      /\ Forall (fun x => x <> [] /\ batch_bytes env x <= max_size_in_bytes env)
                batches
      /\ size_in_bytes b' = batch_bytes env (events b')
      /\ (events b' = [] \/ batch_bytes env (events b') <= max_size_in_bytes env).
Proof.
  intros Hup Hfit. induction Hfit as [|m rest Hm Hrest IH]; intros b w Hsize Hmax.
  - exists [], b, w. rewrite List.app_nil_r. repeat split; auto.
  - cbn [add_messages]. rewrite bind_unfold. unfold try_except.
    unfold batch_add at 1. unfold fits in Hm.
    destruct (Z.gtb_spec (size_in_bytes b + event_size env m) (max_size_in_bytes env))
      as [Hover|Hroom].
    + cbn [is_ValueError]. rewrite bind_unfold.
      unfold producer_send_batch. rewrite bind_unfold, await_up by exact Hup.
      cbn [emit]. rewrite bind_unfold.
      unfold create_batch. rewrite bind_unfold, await_up by exact Hup.
      cbn [ret]. unfold batch_add, empty_batch. cbn [size_in_bytes events].
      assert (Hz : (0 + event_size env m >? max_size_in_bytes env) = false).
      { rewrite Z.gtb_ltb. apply Z.ltb_ge. lia. }
      rewrite Hz. cbn [app].
      match goal with
      | |- context [add_messages rest ?b1 env ?w1] =>
        destruct (IH b1 w1) as (bs & b' & w' & Hrun & Hdel & Hcat & Hall & Hs' & Hm')
      end.
      { cbn [size_in_bytes events batch_bytes fold_right]. lia. }
      { right. cbn [events batch_bytes fold_right]. lia. }
      exists (events b :: bs), b', w'. rewrite Hrun.
      cbn [trace deliveries events] in Hdel.
      split; [reflexivity|].
      split; [rewrite Hdel; cbn [rev]; rewrite <- List.app_assoc; reflexivity|].
      split; [cbn [List.concat]; rewrite <- List.app_assoc, Hcat; reflexivity|].
      split; [|split; assumption].
      constructor; [|exact Hall].
      assert (Hne : events b <> []).
      { intros Hnil. rewrite Hnil in Hsize. cbn in Hsize. lia. }
      split; [exact Hne|]. destruct Hmax as [Hnil|Hle]; [now elim Hne|exact Hle].
    + match goal with
      | |- context [add_messages rest ?b1 env w] =>
        destruct (IH b1 w) as (bs & b' & w' & Hrun & Hdel & Hcat & Hall & Hs' & Hm')
      end.
      { cbn [size_in_bytes events]. rewrite batch_bytes_snoc. lia. }
      { right. cbn [events]. rewrite batch_bytes_snoc. lia. }
      exists bs, b', w'. rewrite Hrun.
      split; [reflexivity|]. split; [exact Hdel|].
      split; [rewrite Hcat; cbn [events]; rewrite <- List.app_assoc; reflexivity|].
      split; [exact Hall|split; assumption].
Qed.

Lemma Forall_snoc {A} (P : A -> Prop) (l : list A) (x : A) :
  Forall P l -> P x -> Forall P (l ++ [x]).
Proof. intros Hl Hx. apply Forall_app. split; [exact Hl|repeat constructor; exact Hx]. Qed.

(** X4: With the sink up and messages that each fit a batch, [send_batch]
    returns their number after the producer was handed every message
    exactly once and in the order of the list, in batches none of which is
    empty or larger than the size limit. *)
Theorem send_batch_delivers (messages : list string) (env : environment) (w : world) :
  sink_up env -> Forall (fits env) messages ->
  exists batches w',
    send_batch messages env w = (Ok (Z.of_nat (List.length messages)), w')
    /\ deliveries (trace w') = (rev batches ++ deliveries (trace w))%list
    /\ List.concat batches = messages
    /\ Forall (fun b => b <> [] /\ batch_bytes env b <= max_size_in_bytes env)
              batches.
Proof.
  intros Hup Hfit. unfold send_batch. rewrite bind_unfold. cbn [emit].
  unfold try_except, with_producer, send_batch_body.
  rewrite bind_unfold. unfold create_batch. rewrite bind_unfold, await_up by exact Hup.
  cbn [ret]. rewrite bind_unfold.
  match goal with
  | |- context [add_messages messages ?b env ?w0] =>
    destruct (add_messages_delivers env messages Hup Hfit b w0 eq_refl
                (or_introl eq_refl))
      as (bs & b' & w' & Hrun & Hdel & Hcat & Hall & Hs' & Hm')
  end.
  rewrite Hrun. cbn [events empty_batch app trace deliveries] in Hdel, Hcat.
  rewrite bind_unfold.
  destruct (events b') as [|m ms] eqn:Hev.
  - cbn [List.length Z.of_nat Z.gtb Z.compare ret]. rewrite await_up by exact Hup.
    exists bs. eexists. split; [reflexivity|]. cbn [trace].
    rewrite List.app_nil_r in Hcat. auto.
  - assert (Hpos : (Z.of_nat (List.length (m :: ms)) >? 0) = true).
    { apply Z.gtb_lt. cbn [List.length]. lia. }
    rewrite Hpos. unfold producer_send_batch.
    rewrite bind_unfold, await_up by exact Hup.
    cbn [emit ret]. rewrite await_up by exact Hup.
    exists (bs ++ [m :: ms])%list. eexists. split; [reflexivity|]. cbn [trace deliveries].
    rewrite Hev.
    split; [rewrite rev_app_distr, Hdel; reflexivity|].
    split; [rewrite List.concat_app; cbn [List.concat]; rewrite List.app_nil_r; exact Hcat|].
    apply Forall_snoc; [exact Hall|].
    split; [discriminate|]. destruct Hm' as [Hnil|Hle]; [discriminate Hnil|exact Hle].
Qed.

(** Three messages of 66 bytes against a limit of 150 bytes. *)
Lemma send_batch_delivers_sample :
  let env := {| env_source := sample_source;
                env_awaits := fun _ => {| cancelled := false; sdk_fails := false |};
                max_size_in_bytes := 150;
                event_size := fun m => len m + 64 |} in
  let messages := ["{}"; "[]"; "{}"]%string in
  sink_up env /\ Forall (fits env) messages
  /\ exists batches w',
       send_batch messages env initial_world = (Ok 3, w')
       /\ deliveries (trace w') = (rev batches ++ [])%list
       /\ List.concat batches = messages
       /\ Forall (fun b => b <> [] /\ batch_bytes env b <= max_size_in_bytes env)
                 batches.
Proof.
  cbv zeta.
  set (env := {| env_source := sample_source;
                 env_awaits := fun _ => {| cancelled := false; sdk_fails := false |};
                 max_size_in_bytes := 150;
                 event_size := fun m => len m + 64 |}).
  assert (Hup : sink_up env) by (intros i; split; reflexivity).
  assert (Hfit : Forall (fits env) ["{}"; "[]"; "{}"]%string).
  { repeat constructor; unfold fits; simpl; lia. }
  split; [exact Hup|]. split; [exact Hfit|].
  exact (send_batch_delivers ["{}"; "[]"; "{}"]%string env initial_world Hup Hfit).
Defined.

(** X5: A message that no batch can take makes [send_batch] return 0, after
    the producer was handed every message before it in the list and none
    after it: the count reported for them is 0 all the same. *)
Theorem send_batch_oversize (before after : list string) (message : string)
    (env : environment) (w : world) :
  sink_up env ->
  (forall m, 0 <= event_size env m) ->
  Forall (fits env) before ->
  max_size_in_bytes env < event_size env message ->
  exists batches w',
    send_batch (before ++ message :: after) env w = (Ok 0, w')
    /\ deliveries (trace w') = (rev batches ++ deliveries (trace w))%list
    /\ List.concat batches = before
    /\ hd_error (trace w') = Some (LoggedSendError ValueError).
Proof.
  intros Hup Hsize Hfit Hbig. unfold send_batch. rewrite bind_unfold. cbn [emit].
  unfold try_except, with_producer, send_batch_body.
  rewrite bind_unfold. unfold create_batch. rewrite bind_unfold, await_up by exact Hup.
  cbn [ret]. rewrite bind_unfold.
  rewrite add_messages_app, bind_unfold.
  match goal with
  | |- context [add_messages before ?b env ?w0] =>
    destruct (add_messages_delivers env before Hup Hfit b w0 eq_refl
                (or_introl eq_refl))
      as (bs & b' & w' & Hrun & Hdel & Hcat & Hall & Hs' & Hm')
  end.
  rewrite Hrun. cbn [events empty_batch app trace deliveries] in Hdel, Hcat.
  cbn [add_messages]. rewrite bind_unfold. unfold try_except.
  unfold batch_add at 1.
  pose proof (batch_bytes_nonneg env (events b') Hsize) as Hnn.
  assert (Hover : (size_in_bytes b' + event_size env message >? max_size_in_bytes env)
                  = true) by (apply Z.gtb_lt; lia).
  rewrite Hover. cbn [is_ValueError]. rewrite bind_unfold.
  unfold producer_send_batch. rewrite bind_unfold, await_up by exact Hup.
  cbn [emit]. rewrite bind_unfold.
  unfold create_batch. rewrite bind_unfold, await_up by exact Hup.
  cbn [ret]. unfold batch_add, empty_batch. cbn [size_in_bytes events].
  assert (Hz : (0 + event_size env message >? max_size_in_bytes env) = true)
    by (apply Z.gtb_lt; lia).
  rewrite Hz. rewrite await_up by exact Hup.
  cbn [is_Exception]. rewrite bind_unfold. cbn [emit ret].
  exists (bs ++ [events b'])%list. eexists. split; [reflexivity|]. cbn [trace deliveries].
  split; [rewrite rev_app_distr, Hdel; reflexivity|].
  split; [rewrite List.concat_app; cbn [List.concat]; rewrite List.app_nil_r; exact Hcat|].
  reflexivity.
Qed.

(** Two messages that fit, one of 1000 bytes, one more that would fit. *)
Lemma send_batch_oversize_sample :
  let env := {| env_source := sample_source;
                env_awaits := fun _ => {| cancelled := false; sdk_fails := false |};
                max_size_in_bytes := 150;
                event_size := fun m => if String.eqb m "big" then 1000 else 66 |} in
  sink_up env
  /\ (forall m, 0 <= event_size env m)
  /\ Forall (fits env) ["a"; "b"]%string
  /\ max_size_in_bytes env < event_size env "big"
  /\ exists batches w',
       send_batch (["a"; "b"]%string ++ "big"%string :: ["c"]%string)%list
         env initial_world = (Ok 0, w')
       /\ deliveries (trace w') = (rev batches ++ [])%list
       /\ List.concat batches = ["a"; "b"]%string
       /\ hd_error (trace w') = Some (LoggedSendError ValueError).
Proof.
  cbv zeta.
  set (env := {| env_source := sample_source;
                 env_awaits := fun _ => {| cancelled := false; sdk_fails := false |};
                 max_size_in_bytes := 150;
                 event_size := fun m => if String.eqb m "big" then 1000 else 66 |}).
  assert (Hup : sink_up env) by (intros i; split; reflexivity).
  assert (Hsize : forall m, 0 <= event_size env m).
  { intros m. cbn [env event_size]. destruct (String.eqb m "big"); lia. }
  assert (Hfit : Forall (fits env) ["a"; "b"]%string).
  { repeat constructor; unfold fits; simpl; lia. }
  assert (Hbig : max_size_in_bytes env < event_size env "big") by (simpl; lia).
  split; [exact Hup|]. split; [exact Hsize|]. split; [exact Hfit|].
  split; [exact Hbig|].
  exact (send_batch_oversize ["a"; "b"]%string ["c"]%string "big" env initial_world
           Hup Hsize Hfit Hbig).
Defined.

(* ================================================================= *)
(** ** A worker cancelled while it sends *)

(** X6: A task cancelled while it waits for [create_batch]: the producer is
    closed on the way out of the [async with].  When the close completes,
    the [CancelledError] passes [except Exception], the worker leaves its
    loop, and nothing is counted for the batch.  When the close raises, its
    exception takes the place of the [CancelledError] and is caught in
    [send_batch]: the worker counts 0, pauses and stays in its loop. *)
Theorem worker_cancelled_in_send (wk : worker) (env : environment) (w : world)
    (ms : list string) (pos : nat) :
  shutdown_event w = false ->
  generate_messages (message_generator wk)
    (Z.to_nat (batch_size (config wk) (rate_per_worker wk)))
    (env_source env) (rng_pos w) = (Ok ms, pos) ->
  cancelled (env_awaits env (await_pos w)) = true ->
  cancelled (env_awaits env (S (await_pos w))) = false ->
  (sdk_fails (env_awaits env (S (await_pos w))) = false ->
   worker_iteration wk env w
   = (Ok Exit,
      {| shutdown_event := false; stats := stats w; rng_pos := pos;
         await_pos := S (S (await_pos w));
         trace := Submitted ms :: trace w |}))
  /\ (sdk_fails (env_awaits env (S (await_pos w))) = true ->
      cancelled (env_awaits env (S (S (await_pos w)))) = false ->
      exists w',
        worker_iteration wk env w = (Ok Continue, w')
        /\ stats w' = stats w
        /\ trace w' = (pacing_pause wk
                       ++ [Counted 0; LoggedSendError SinkError]
                       ++ Submitted ms :: trace w)%list).
Proof.
  intros Hsd Hgen Hc0 Hc1.
  assert (Hbody : forall fails,
             sdk_fails (env_awaits env (S (await_pos w))) = fails ->
             with_producer (send_batch_body ms) env (submitting ms pos w)
             = (Raise (if fails then SinkError else CancelledError),
                {| shutdown_event := shutdown_event w; stats := stats w;
                   rng_pos := pos; await_pos := S (S (await_pos w));
                   trace := Submitted ms :: trace w |})).
  { intros fails Hf. unfold with_producer, send_batch_body.
    rewrite bind_unfold. unfold create_batch. rewrite bind_unfold.
    unfold await at 1. cbn [submitting await_pos]. rewrite Hc0.
    unfold await. cbn [await_pos shutdown_event stats rng_pos trace].
    rewrite Hc1, Hf. destruct fails; reflexivity. }
  split.
  - intros Hf. specialize (Hbody false Hf). cbn iota in Hbody.
    unfold worker_iteration. rewrite Hsd.
    unfold worker_try. rewrite bind_unfold. unfold lift_gen. rewrite Hgen.
    rewrite bind_unfold. unfold send_batch. rewrite bind_unfold. cbn [emit].
    unfold try_except, submitting in *.
    cbn [shutdown_event stats rng_pos await_pos trace].
    rewrite Hbody. cbn [is_Exception]. rewrite Hsd. reflexivity.
  - intros Hf Hc2. specialize (Hbody true Hf). cbn iota in Hbody.
    destruct (worker_iteration_sink_failure wk env w ms pos SinkError _
                Hsd Hgen Hbody eq_refl Hc2) as (w' & Hrun & _ & Hst & _ & Htr).
    exists w'. split; [exact Hrun|]. split; [exact Hst|exact Htr].
Qed.

(** A worker cancelled at its first await: once with a producer that
    closes, once with a producer whose close raises. *)
Lemma worker_cancelled_in_send_sample :
  let awaits := fun close_fails i =>
                  {| cancelled := Nat.eqb i 0;
                     sdk_fails := (close_fails && Nat.eqb i 1)%bool |} in
  let env := fun close_fails =>
               {| env_source := sample_source;
                  env_awaits := awaits close_fails;
                  max_size_in_bytes := 1048576;
                  event_size := fun m => len m + 64 |} in
  exists ms pos,
    generate_messages (message_generator (sample_worker 5))
      (Z.to_nat (batch_size (config (sample_worker 5))
                            (rate_per_worker (sample_worker 5))))
      sample_source 0%nat = (Ok ms, pos)
    /\ worker_iteration (sample_worker 5) (env false) initial_world
       = (Ok Exit,
          {| shutdown_event := false; stats := initial_stats; rng_pos := pos;
             await_pos := 2; trace := [Submitted ms] |})
    /\ exists w',
         worker_iteration (sample_worker 5) (env true) initial_world
         = (Ok Continue, w')
         /\ stats w' = initial_stats
         /\ trace w' = [Slept (1 # 5); Counted 0; LoggedSendError SinkError;
                        Submitted ms].
Proof.
  cbv zeta.
  destruct (generate_messages (message_generator (sample_worker 5))
              (Z.to_nat (batch_size (config (sample_worker 5))
                                    (rate_per_worker (sample_worker 5))))
              sample_source 0%nat) as [[ms| |] pos] eqn:Hgen;
    [|exfalso; vm_compute in Hgen; discriminate Hgen
     |exfalso; vm_compute in Hgen; discriminate Hgen].
  exists ms, pos. split; [reflexivity|]. split.
  - match goal with
    | |- worker_iteration _ ?env _ = _ =>
      destruct (worker_cancelled_in_send (sample_worker 5) env initial_world ms pos
                  eq_refl Hgen eq_refl eq_refl) as [Hexit _]
    end.
    exact (Hexit eq_refl).
  - match goal with
    | |- exists w', worker_iteration _ ?env _ = _ /\ _ =>
      destruct (worker_cancelled_in_send (sample_worker 5) env initial_world ms pos
                  eq_refl Hgen eq_refl eq_refl) as [_ Hstay]
    end.
    exact (Hstay eq_refl eq_refl).
Defined.

(* ================================================================= *)
(** ** The reporter's windows add up to the total *)

Lemma reported_await (sdk : bool) : preserves (fun w => reported (trace w)) (await sdk).
Proof. apply preserves_await. intros w a. reflexivity. Qed.

Lemma reported_emit (ev : event) :
  (forall o, ev <> Printed o) -> preserves (fun w => reported (trace w)) (emit ev).
Proof.
  intros Hev. apply preserves_emit. intros w. cbn [trace].
  destruct ev; try reflexivity. now elim (Hev line).
Qed.

Lemma reported_sleep (q : Q) : preserves (fun w => reported (trace w)) (sleep q).
Proof.
  apply preserves_bind; [apply reported_await|intros _].
  apply reported_emit. discriminate.
Qed.

Lemma reported_producer_send_batch b :
  preserves (fun w => reported (trace w)) (producer_send_batch b).
Proof.
  apply preserves_bind; [apply reported_await|intros _].
  apply reported_emit. discriminate.
Qed.

Lemma reported_create_batch : preserves (fun w => reported (trace w)) create_batch.
Proof. apply preserves_bind; [apply reported_await|intros _; apply preserves_ret]. Qed.

Lemma reported_add_messages messages :
  forall b, preserves (fun w => reported (trace w)) (add_messages messages b).
Proof.
  induction messages as [|m rest IH]; intros b; cbn [add_messages].
  - apply preserves_ret.
  - apply preserves_bind; [|exact IH].
    apply preserves_try_except; [apply preserves_batch_add|].
    intros _. apply preserves_bind; [apply reported_producer_send_batch|].
    intros _. apply preserves_bind; [apply reported_create_batch|].
    intros fresh. apply preserves_batch_add.
Qed.

Lemma reported_send_batch messages :
  preserves (fun w => reported (trace w)) (send_batch messages).
Proof.
  unfold send_batch.
  apply preserves_bind; [apply reported_emit; discriminate|intros _].
  apply preserves_try_except.
  - apply preserves_with_producer; [intros w a; reflexivity|].
    unfold send_batch_body.
    apply preserves_bind; [apply reported_create_batch|intros b].
    apply preserves_bind; [apply reported_add_messages|intros b'].
    apply preserves_bind; [|intros; apply preserves_ret].
    destruct (_ >? _); [apply reported_producer_send_batch|apply preserves_ret].
  - intros e. apply preserves_bind; [|intros; apply preserves_ret].
    apply reported_emit. discriminate.
Qed.

(** A worker prints no report. *)
Lemma reported_worker_iteration (wk : worker) :
  preserves (fun w => reported (trace w)) (worker_iteration wk).
Proof.
  assert (Htry : preserves (fun w => reported (trace w)) (worker_try wk)).
  { unfold worker_try.
    apply preserves_bind; [apply preserves_lift_gen; intros w r; reflexivity|].
    intros ms. apply preserves_bind; [apply reported_send_batch|intros n].
    apply preserves_bind; [intros env w; reflexivity|intros _].
    destruct (Qle_bool _ 0); [apply preserves_ret|apply reported_sleep]. }
  intros env w. unfold worker_iteration.
  destruct (shutdown_event w); [reflexivity|].
  specialize (Htry env w).
  destruct (worker_try wk env w) as [[u|e|] w1]; cbn [snd] in *; try exact Htry.
  assert (Hh : preserves (fun w => reported (trace w))
                 (_ <- emit (LoggedWorkerError (worker_id wk) e) ;;
                  _ <- sleep (1 # 10) ;; ret Continue)).
  { apply preserves_bind; [apply reported_emit; discriminate|intros _].
    apply preserves_bind; [apply reported_sleep|intros; apply preserves_ret]. }
  destruct e; try exact Htry; rewrite <- Htry; apply Hh.
Qed.

(** One action leaves [total_sent - last_second_count - reported] alone. *)
Lemma perform_reported (a : action) env w :
  let w' := snd (perform a env w) in
  total w' - window w' - reported (trace w')
  = total w - window w - reported (trace w).
Proof.
  destruct a as [wk|now|t| | |now]; cbv zeta.
  - assert (Hw : snd (perform (WorkerTurn wk) env w)
                 = snd (worker_iteration wk env w)).
    { cbn [perform]. rewrite bind_unfold.
      destruct (worker_iteration wk env w) as [[c|e|] w1]; reflexivity. }
    rewrite Hw.
    destruct (worker_iteration_ledger wk env w) as (n & _ & Hl).
    unfold ledger in Hl. inversion Hl as [[Hsd Hst Hct]].
    rewrite (reported_worker_iteration wk env w).
    unfold total, window. rewrite Hst. unfold add_counts; simpl. lia.
  - reflexivity.
  - rewrite perform_reporter_turn. unfold reporter_iteration.
    destruct (shutdown_event w) eqn:Hsd; [reflexivity|].
    unfold sleep. rewrite !bind_unfold. unfold await.
    destruct (cancelled (env_awaits env (await_pos w))); [reflexivity|].
    cbn [andb emit]. unfold reporter_tick. rewrite bind_unfold.
    cbn [get_stats stats].
    destruct (start_time (stats w)) eqn:Hst; [|reflexivity].
    cbn. unfold total, window. lia.
  - reflexivity.
  - reflexivity.
  - reflexivity.
Qed.

(** X7: However workers, reporter and shutdown triggers take turns, every
    message added to [total_sent] is in exactly one of the per-second
    counts the reporter printed or in the window still open: from the
    start of the process, [total_sent] is the sum of the printed counts
    plus [last_second_count]. *)
Theorem reported_windows_add_up (actions : list action) (env : environment) :
  (forall w,
      total (run actions env w) - window (run actions env w)
      - reported (trace (run actions env w))
      = total w - window w - reported (trace w))
  /\ total (run actions env initial_world)
     = reported (trace (run actions env initial_world))
       + window (run actions env initial_world).
Proof.
  assert (Hinv : forall w,
             total (run actions env w) - window (run actions env w)
             - reported (trace (run actions env w))
             = total w - window w - reported (trace w)).
  { induction actions as [|a rest IH]; intros w; cbn [run]; [reflexivity|].
    rewrite IH. apply perform_reported. }
  split; [exact Hinv|].
  specialize (Hinv initial_world). cbn in Hinv. lia.
Qed.

(* ================================================================= *)
(** ** The workers [main] starts *)

Lemma total_rate_map (g : MessageGenerator) (share : Z) (cfg : simulator_config)
    (ids : list nat) :
  total_rate (map (fun i => {| message_generator := g; rate_per_worker := share;
                               worker_id := Z.of_nat i; config := cfg |}) ids)
  = Z.of_nat (List.length ids) * share.
Proof.
  unfold total_rate. induction ids as [|i ids IH]; [reflexivity|].
  cbn [map fold_right List.length rate_per_worker]. rewrite IH. lia.
Qed.

Lemma num_workers_range (rate cap : Z) :
  1 <= cap -> 1 <= num_workers rate cap <= cap.
Proof. unfold num_workers. lia. Qed.

(** What [main_workers] returns when the cap is not 0. *)
Lemma main_workers_eq (rate : Z) (cfg : simulator_config) (g : MessageGenerator) :
  num_workers rate (max_workers cfg) <> 0 ->
  main_workers rate cfg g
  = Ok (map (fun i => {| message_generator := g;
                         rate_per_worker := rate / num_workers rate (max_workers cfg);
                         worker_id := Z.of_nat i; config := cfg |})
            (seq 0 (Z.to_nat (num_workers rate (max_workers cfg))))).
Proof.
  intros Hn. unfold main_workers, main_split, floordiv.
  apply Z.eqb_neq in Hn. rewrite Hn. reflexivity.
Qed.

(** X8: With a cap of at least 1, [main] starts between 1 and [max_workers]
    workers, numbered from 0, each with the same share of the rate,
    [rate // num_workers]; the shares add up to the requested rate or to
    less, by less than the number of workers; and for a rate of at least
    1000 no share is below 1000. *)
Theorem main_workers_share (rate : Z) (cfg : simulator_config) (g : MessageGenerator) :
  1 <= max_workers cfg ->
  exists workers,
    main_workers rate cfg g = Ok workers
    /\ Z.of_nat (List.length workers) = num_workers rate (max_workers cfg)
    /\ 1 <= Z.of_nat (List.length workers) <= max_workers cfg
    /\ map worker_id workers = map Z.of_nat (seq 0 (List.length workers))
    /\ rate - Z.of_nat (List.length workers) < total_rate workers <= rate
    /\ (1000 <= rate -> Forall (fun wk => 1000 <= rate_per_worker wk) workers)
    /\ Forall (fun wk => rate_per_worker wk
                         = rate / num_workers rate (max_workers cfg)) workers.
Proof.
  intros Hcap.
  pose proof (num_workers_range rate (max_workers cfg) Hcap) as Hn.
  rewrite main_workers_eq by lia.
  set (n := num_workers rate (max_workers cfg)) in *.
  eexists. split; [reflexivity|].
  rewrite length_map, length_seq, total_rate_map, length_seq, map_map.
  cbn [worker_id]. rewrite Z2Nat.id by lia.
  split; [reflexivity|]. split; [exact Hn|]. split; [reflexivity|].
  pose proof (Z.div_mod rate n ltac:(lia)) as Hdm.
  pose proof (Z.mod_pos_bound rate n ltac:(lia)) as Hmod.
  split; [lia|]. split.
  - intros Hrate. apply Forall_forall. intros wk Hin.
    apply in_map_iff in Hin. destruct Hin as (i & <- & _). cbn [rate_per_worker].
    apply Z.div_le_lower_bound; [lia|].
    pose proof (Z.mul_div_le rate 1000 ltac:(lia)) as Hlo.
    pose proof (Z.mul_succ_div_gt rate 1000 ltac:(lia)) as Hhi.
    assert (Hk : n <= rate / 1000) by (unfold n, num_workers; lia).
    lia.
  - apply Forall_forall. intros wk Hin.
    apply in_map_iff in Hin. destruct Hin as (i & <- & _). reflexivity.
Qed.

(** A rate of 10500 under the default cap of 50. *)
Lemma main_workers_share_sample :
  let g := MessageGenerator_init 500 [] no_message_generation_config in
  1 <= max_workers default_simulator_config
  /\ exists workers,
       main_workers 10500 default_simulator_config g = Ok workers
       /\ Z.of_nat (List.length workers) = num_workers 10500 50
       /\ 1 <= Z.of_nat (List.length workers) <= 50
       /\ map worker_id workers = map Z.of_nat (seq 0 (List.length workers))
       /\ 10500 - Z.of_nat (List.length workers) < total_rate workers <= 10500
       /\ (1000 <= 10500 -> Forall (fun wk => 1000 <= rate_per_worker wk) workers)
       /\ Forall (fun wk => rate_per_worker wk = 10500 / num_workers 10500 50) workers.
Proof.
  cbv zeta. split; [simpl; lia|].
  apply (main_workers_share 10500 default_simulator_config). simpl; lia.
Defined.

(** X9: A rate of 0 or below does not stop the traffic: [main] starts one
    worker, whose batch is the configured [batch_size_per_1k_rate] (brought
    into the batch limits) and whose pause is 10 ms. *)
Theorem main_workers_rate_not_positive (rate : Z) (cfg : simulator_config)
    (g : MessageGenerator) :
  1 <= max_workers cfg -> rate <= 0 ->
  exists wk,
    main_workers rate cfg g = Ok [wk]
    /\ rate_per_worker wk = rate
    /\ batch_size (config wk) (rate_per_worker wk)
       = Z.max (min_batch_size cfg)
               (Z.min (max_batch_size cfg) (batch_size_per_1k_rate cfg))
    /\ pacing_pause wk = [Slept (1 # 100)].
Proof.
  intros Hcap Hrate.
  assert (Hn : num_workers rate (max_workers cfg) = 1).
  { unfold num_workers. pose proof (Z.div_le_upper_bound rate 1000 0). lia. }
  rewrite main_workers_eq by lia. rewrite Hn, Z.div_1_r.
  eexists. split; [reflexivity|]. cbn [rate_per_worker config].
  assert (Hgt : (rate >? 0) = false) by (rewrite Z.gtb_ltb; apply Z.ltb_ge; lia).
  split; [reflexivity|]. split.
  - unfold batch_size, target_batch. rewrite Hgt. reflexivity.
  - unfold pacing_pause, sleep_time. cbn [rate_per_worker config].
    rewrite Hgt. reflexivity.
Qed.

(** [--rate 0] under the default configuration: 100 messages every 10 ms. *)
Lemma main_workers_rate_not_positive_sample :
  let g := MessageGenerator_init 500 [] no_message_generation_config in
  1 <= max_workers default_simulator_config /\ 0 <= 0
  /\ exists wk,
       main_workers 0 default_simulator_config g = Ok [wk]
       /\ rate_per_worker wk = 0
       /\ batch_size (config wk) (rate_per_worker wk) = 100
       /\ pacing_pause wk = [Slept (1 # 100)].
Proof.
  cbv zeta. split; [simpl; lia|]. split; [lia|].
  apply (main_workers_rate_not_positive 0 default_simulator_config); simpl; lia.
Defined.

(** X10: A negative cap is not refused: [main] starts no worker at all and
    raises nothing, so only the reporter runs. *)
Theorem main_workers_negative_cap (rate : Z) (cfg : simulator_config)
    (g : MessageGenerator) :
  max_workers cfg < 0 -> main_workers rate cfg g = Ok [].
Proof.
  intros Hcap.
  assert (Hn : num_workers rate (max_workers cfg) = max_workers cfg)
    by (unfold num_workers; lia).
  rewrite main_workers_eq by lia. rewrite Hn.
  destruct (max_workers cfg); try lia. reflexivity.
Qed.

Lemma main_workers_negative_cap_sample :
  let cfg := {| max_workers := -3; min_batch_size := 1; max_batch_size := 1000;
                batch_size_per_1k_rate := 100 |} in
  max_workers cfg < 0
  /\ main_workers 10000 cfg (MessageGenerator_init 500 [] no_message_generation_config)
     = Ok [].
Proof.
  cbv zeta. split; [simpl; lia|].
  apply main_workers_negative_cap. simpl; lia.
Defined.

(* ================================================================= *)
(** ** The pace of the workers under the default configuration *)

Lemma default_share (rate : Z) :
  1000 <= rate <= 500499 ->
  1000 <= rate / num_workers rate 50 <= 10009.
Proof.
  intros Hrate.
  pose proof (num_workers_range rate 50 ltac:(lia)) as Hn.
  pose proof (Z.mul_div_le rate 1000 ltac:(lia)) as Hlo.
  pose proof (Z.mul_succ_div_gt rate 1000 ltac:(lia)) as Hhi.
  assert (Hk : num_workers rate 50 <= rate / 1000) by (unfold num_workers; lia).
  split.
  - apply Z.div_le_lower_bound; lia.
  - assert (rate / num_workers rate 50 < 10010); [|lia].
    apply Z.div_lt_upper_bound; [lia|].
    unfold num_workers in *. lia.
Qed.

(** X11: Under the default configuration and for every rate from 1000 to
    500499 messages per second, each worker [main] starts sends batches of
    a tenth of its share, 100 to 1000 messages, and pauses for more than
    99 ms and at most 100 ms after each batch. *)
Theorem default_pacing (rate : Z) (g : MessageGenerator) :
  1000 <= rate <= 500499 ->
  exists workers,
    main_workers rate default_simulator_config g = Ok workers
    /\ Forall (fun wk =>
                 batch_size (config wk) (rate_per_worker wk) = rate_per_worker wk / 10
                 /\ 100 <= batch_size (config wk) (rate_per_worker wk) <= 1000
                 /\ (99 # 1000 < sleep_time (config wk) (rate_per_worker wk))%Q
                 /\ (sleep_time (config wk) (rate_per_worker wk) <= 1 # 10)%Q)
              workers.
Proof.
  intros Hrate.
  pose proof (num_workers_range rate 50 ltac:(lia)) as Hn.
  pose proof (default_share rate Hrate) as Hshare.
  rewrite main_workers_eq by (cbn [max_workers default_simulator_config]; lia).
  cbn [max_workers default_simulator_config].
  set (share := rate / num_workers rate 50) in *.
  eexists. split; [reflexivity|].
  apply Forall_forall. intros wk Hin.
  apply in_map_iff in Hin. destruct Hin as (i & <- & _).
  cbn [rate_per_worker config].
  assert (Hgt : (share >? 0) = true) by (apply Z.gtb_lt; lia).
  pose proof (Z.mul_div_le share 10 ltac:(lia)) as Hlo.
  pose proof (Z.mul_succ_div_gt share 10 ltac:(lia)) as Hhi.
  assert (Hbatch : batch_size default_simulator_config share = share / 10).
  { unfold batch_size, target_batch. rewrite Hgt.
    cbn [min_batch_size max_batch_size default_simulator_config]. lia. }
  unfold sleep_time. rewrite Hgt, Hbatch.
  split; [reflexivity|]. split; [lia|].
  assert (Hpos : (0 < inject_Z share)%Q) by (unfold Qlt; simpl; lia).
  split.
  - apply Qlt_shift_div_l; [exact Hpos|].
    unfold Qlt, Qmult, inject_Z; cbn [Qnum Qden]. lia.
  - apply Qle_shift_div_r; [exact Hpos|].
    unfold Qle, Qmult, inject_Z; cbn [Qnum Qden]. lia.
Qed.

(** The default rate of 10000 messages per second. *)
Lemma default_pacing_sample :
  1000 <= 10000 <= 500499
  /\ exists workers,
       main_workers 10000 default_simulator_config
         (MessageGenerator_init 500 [] no_message_generation_config) = Ok workers
       /\ Forall (fun wk =>
                    batch_size (config wk) (rate_per_worker wk)
                    = rate_per_worker wk / 10
                    /\ 100 <= batch_size (config wk) (rate_per_worker wk) <= 1000
                    /\ (99 # 1000 < sleep_time (config wk) (rate_per_worker wk))%Q
                    /\ (sleep_time (config wk) (rate_per_worker wk) <= 1 # 10)%Q)
                 workers.
Proof.
  split; [lia|]. apply default_pacing. lia.
Defined.

(* ================================================================= *)
(** ** Where the connection details come from *)

Lemma truthy_Some (v : option string) :
  truthy v = true -> exists c s, v = Some (String c s).
Proof. destruct v as [[|c s]|]; try discriminate. intros _. eauto. Qed.

Lemma py_or_truthy (a b : option string) : truthy a = true -> py_or a b = a.
Proof. unfold py_or. intros ->. reflexivity. Qed.

Lemma py_or_falsy (a b : option string) : truthy a = false -> py_or a b = b.
Proof. unfold py_or. intros ->. reflexivity. Qed.

(** The vault fills in what is missing and leaves alone what is there. *)
Lemma keyvault_lookup_keeps sdk config c n c' n' notices :
  keyvault_lookup sdk config c n = (c', n', notices) ->
  (truthy c = true -> c' = c) /\ (truthy n = true -> n' = n).
Proof.
  unfold keyvault_lookup.
  destruct (sdk_importable sdk); cbn [negb];
    [|intros H; inversion H; auto].
  destruct (kv_vault_url config) as [[|u url]|];
    try (intros H; inversion H; auto; fail).
  destruct (secret_client sdk (String u url)) as [get_secret|];
    [|intros H; inversion H; auto].
  destruct (truthy c) eqn:Hc.
  - destruct (truthy n) eqn:Hn.
    + intros H; inversion H; auto.
    + destruct (get_secret _) as [v|]; intros H; inversion H; subst;
        split; auto; discriminate.
  - destruct (get_secret _) as [v|]; [|intros H; inversion H; auto].
    destruct (truthy n) eqn:Hn.
    + intros H; inversion H; subst. split; [discriminate|auto].
    + destruct (get_secret _) as [v'|]; intros H; inversion H; subst;
        split; discriminate.
Qed.

(** What the function checks before it returns. *)
Lemma connection_details_resolved getenv sdk config notices cs name :
  get_eventhub_connection_details getenv sdk config = (notices, Returns (cs, name)) ->
  exists c' n' notices',
    (if (get (kv_enabled config) false
         && negb (truthy (py_or (getenv "EVENT_HUB_CONNECTION_STRING"%string)
                                (cfg_connection_string config))))%bool
     then keyvault_lookup sdk config
            (py_or (getenv "EVENT_HUB_CONNECTION_STRING"%string)
                   (cfg_connection_string config))
            (py_or (getenv "EVENT_HUB_NAME"%string) (cfg_eventhub_name config))
     else (py_or (getenv "EVENT_HUB_CONNECTION_STRING"%string)
                 (cfg_connection_string config),
           py_or (getenv "EVENT_HUB_NAME"%string) (cfg_eventhub_name config), []))
    = (c', n', notices')
    /\ c' = Some cs /\ n' = Some name
    /\ cs <> EmptyString /\ name <> EmptyString.
Proof.
  unfold get_eventhub_connection_details. cbv zeta.
  remember (if (get (kv_enabled config) false && _)%bool then _ else _) as r eqn:Hr.
  destruct r as [[c' n'] notices'].
  destruct c' as [[|c1 s1]|]; try discriminate.
  destruct n' as [[|c2 s2]|]; try discriminate.
  intros H; inversion H; subst. do 3 eexists. split; [reflexivity|].
  repeat split; discriminate.
Qed.

(** X12: Whenever [get_eventhub_connection_details] returns, neither string is
    empty; a setting that the environment has comes from the environment,
    whatever the configuration file and the vault hold, and a setting that
    only the configuration file has comes from the file. *)
Theorem connection_details_precedence (getenv : string -> option string)
    (sdk : keyvault_sdk) (config : connection_config)
    (notices : list notice) (connection_string eventhub_name : string) :
  get_eventhub_connection_details getenv sdk config
  = (notices, Returns (connection_string, eventhub_name)) ->
  connection_string <> EmptyString /\ eventhub_name <> EmptyString
  /\ (truthy (getenv "EVENT_HUB_CONNECTION_STRING"%string) = true ->
      getenv "EVENT_HUB_CONNECTION_STRING"%string = Some connection_string)
  /\ (truthy (getenv "EVENT_HUB_NAME"%string) = true ->
      getenv "EVENT_HUB_NAME"%string = Some eventhub_name)
  /\ (truthy (getenv "EVENT_HUB_CONNECTION_STRING"%string) = false ->
      truthy (cfg_connection_string config) = true ->
      cfg_connection_string config = Some connection_string)
  /\ (truthy (getenv "EVENT_HUB_NAME"%string) = false ->
      truthy (cfg_eventhub_name config) = true ->
      cfg_eventhub_name config = Some eventhub_name).
Proof.
  intros H. apply connection_details_resolved in H.
  destruct H as (c' & n' & notices' & Hres & -> & -> & Hc & Hn).
  split; [exact Hc|]. split; [exact Hn|].
  set (c0 := py_or (getenv "EVENT_HUB_CONNECTION_STRING"%string)
                   (cfg_connection_string config)) in *.
  set (n0 := py_or (getenv "EVENT_HUB_NAME"%string) (cfg_eventhub_name config)) in *.
  assert (Hkeep : (truthy c0 = true -> Some connection_string = c0)
                  /\ (truthy n0 = true -> Some eventhub_name = n0)).
  { destruct (get (kv_enabled config) false && negb (truthy c0))%bool.
    - apply keyvault_lookup_keeps in Hres. exact Hres.
    - inversion Hres; subst. auto. }
  destruct Hkeep as [Hkc Hkn]. unfold c0, n0 in *.
  repeat split.
  - intros He. rewrite (py_or_truthy _ _ He) in Hkc. symmetry. auto.
  - intros He. rewrite (py_or_truthy _ _ He) in Hkn. symmetry. auto.
  - intros He Hcfg. rewrite (py_or_falsy _ _ He) in Hkc. symmetry. auto.
  - intros He Hcfg. rewrite (py_or_falsy _ _ He) in Hkn. symmetry. auto.
Qed.

(** Both variables set, a connection string in the file, the vault on. *)
Lemma connection_details_precedence_sample :
  get_eventhub_connection_details sample_getenv sample_sdk sample_connection_config
  = ([], Returns ("Endpoint=sb://env/", "env-hub")%string)
  /\ sample_getenv "EVENT_HUB_CONNECTION_STRING"%string
     = Some "Endpoint=sb://env/"%string
  /\ sample_getenv "EVENT_HUB_NAME"%string = Some "env-hub"%string.
Proof.
  assert (H : get_eventhub_connection_details sample_getenv sample_sdk
                sample_connection_config
              = ([], Returns ("Endpoint=sb://env/", "env-hub")%string))
    by reflexivity.
  split; [exact H|].
  destruct (connection_details_precedence _ _ _ _ _ _ H) as (_ & _ & Hc & Hn & _).
  split; [exact (Hc eq_refl)|exact (Hn eq_refl)].
Defined.

(** X13: The vault is asked only for a missing connection string.  Once the
    environment or the file gives one, the outcome does not depend on the
    vault, and an event hub name that only the vault holds is never read:
    the process exits with code 1. *)
Theorem keyvault_not_asked_for_name (getenv : string -> option string)
    (sdk : keyvault_sdk) (config : connection_config) :
  truthy (py_or (getenv "EVENT_HUB_CONNECTION_STRING"%string)
                (cfg_connection_string config)) = true ->
  (forall sdk',
      get_eventhub_connection_details getenv sdk config
      = get_eventhub_connection_details getenv sdk' config)
  /\ (truthy (py_or (getenv "EVENT_HUB_NAME"%string) (cfg_eventhub_name config))
      = false ->
      get_eventhub_connection_details getenv sdk config
      = ([EventHubNameNotFound], Exits 1)).
Proof.
  intros Hc. unfold get_eventhub_connection_details. cbv zeta.
  rewrite Hc. cbn [negb]. rewrite andb_false_r.
  split; [reflexivity|]. intros Hn.
  apply truthy_Some in Hc. destruct Hc as (c & s & ->).
  destruct (py_or (getenv "EVENT_HUB_NAME"%string) (cfg_eventhub_name config))
    as [[|c2 s2]|]; try discriminate; reflexivity.
Qed.

(** A connection string in the file, the event hub name in the vault. *)
Lemma keyvault_not_asked_for_name_sample :
  secret_client sample_sdk "https://vault.example/"%string <> None
  /\ kv_enabled sample_connection_config = Some true
  /\ get_eventhub_connection_details no_environment sample_sdk sample_connection_config
     = ([EventHubNameNotFound], Exits 1).
Proof.
  split; [discriminate|]. split; [reflexivity|].
  exact (proj2 (keyvault_not_asked_for_name no_environment sample_sdk
                  sample_connection_config eq_refl) eq_refl).
Defined.

(** X14: When the check of [setup.py] passes, the simulator takes both settings
    from the environment and prints nothing, whatever the configuration
    file and the vault hold. *)
Theorem check_environment_suffices (getenv : string -> option string)
    (sdk : keyvault_sdk) (config : connection_config) :
  check_environment getenv = true ->
  exists connection_string eventhub_name,
    getenv "EVENT_HUB_CONNECTION_STRING"%string = Some connection_string
    /\ getenv "EVENT_HUB_NAME"%string = Some eventhub_name
    /\ get_eventhub_connection_details getenv sdk config
       = ([], Returns (connection_string, eventhub_name)).
Proof.
  unfold check_environment, missing_vars. cbn [filter].
  destruct (truthy (getenv "EVENT_HUB_CONNECTION_STRING"%string)) eqn:Hc;
    cbn [negb]; [|discriminate].
  destruct (truthy (getenv "EVENT_HUB_NAME"%string)) eqn:Hn;
    cbn [negb]; [|discriminate].
  intros _. unfold get_eventhub_connection_details. cbv zeta.
  rewrite (py_or_truthy _ _ Hc), (py_or_truthy _ _ Hn), Hc.
  cbn [negb]. rewrite andb_false_r.
  apply truthy_Some in Hc. destruct Hc as (c1 & s1 & Hc).
  apply truthy_Some in Hn. destruct Hn as (c2 & s2 & Hn).
  rewrite Hc, Hn. eauto.
Qed.

Lemma check_environment_suffices_sample :
  check_environment sample_getenv = true
  /\ exists connection_string eventhub_name,
       sample_getenv "EVENT_HUB_CONNECTION_STRING"%string = Some connection_string
       /\ sample_getenv "EVENT_HUB_NAME"%string = Some eventhub_name
       /\ get_eventhub_connection_details sample_getenv sample_sdk
            sample_connection_config
          = ([], Returns (connection_string, eventhub_name)).
Proof.
  split; [reflexivity|].
  exact (check_environment_suffices sample_getenv sample_sdk sample_connection_config
           eq_refl).
Defined.

(* ================================================================= *)
(** ** The test version of the lookup *)

Lemma truthy_cases (v : option string) :
  (truthy v = true /\ exists c s, v = Some (String c s))
  \/ (truthy v = false /\ (v = None \/ v = Some EmptyString)).
Proof. destruct v as [[|c s]|]; [right|left|right]; split; eauto. Qed.

(** X15: With the vault off, [test_simulator.py] finds both settings exactly
    when the simulator returns; the two give the same values unless the
    environment and the file both have a setting and differ on it: then
    the simulator takes the environment's value, the test version the
    file's. *)
Theorem test_version_agreement (getenv : string -> option string)
    (sdk : keyvault_sdk) (config : connection_config) :
  get (kv_enabled config) false = false ->
  let found := test_get_eventhub_connection_details getenv config in
  let outcome := snd (get_eventhub_connection_details getenv sdk config) in
  ((exists cs name, outcome = Returns (cs, name))
   <-> truthy (fst found) = true /\ truthy (snd found) = true)
  /\ (forall cs name,
         outcome = Returns (cs, name) ->
         (truthy (getenv "EVENT_HUB_CONNECTION_STRING"%string) = true ->
          truthy (cfg_connection_string config) = true ->
          getenv "EVENT_HUB_CONNECTION_STRING"%string = cfg_connection_string config) ->
         (truthy (getenv "EVENT_HUB_NAME"%string) = true ->
          truthy (cfg_eventhub_name config) = true ->
          getenv "EVENT_HUB_NAME"%string = cfg_eventhub_name config) ->
         found = (Some cs, Some name))
  /\ (forall cs name,
         outcome = Returns (cs, name) ->
         truthy (getenv "EVENT_HUB_CONNECTION_STRING"%string) = true ->
         truthy (cfg_connection_string config) = true ->
         getenv "EVENT_HUB_CONNECTION_STRING"%string = Some cs
         /\ fst found = cfg_connection_string config)
  /\ (forall cs name,
         outcome = Returns (cs, name) ->
         truthy (getenv "EVENT_HUB_NAME"%string) = true ->
         truthy (cfg_eventhub_name config) = true ->
         getenv "EVENT_HUB_NAME"%string = Some name
         /\ snd found = cfg_eventhub_name config).
Proof.
  intros Hkv. cbv zeta.
  unfold get_eventhub_connection_details, test_get_eventhub_connection_details, py_or.
  cbv zeta. rewrite Hkv. cbn [andb fst snd].
  destruct (truthy_cases (getenv "EVENT_HUB_CONNECTION_STRING"%string))
    as [(He1 & c1 & s1 & E1)|(He1 & [E1|E1])];
    destruct (truthy_cases (cfg_connection_string config))
      as [(Hf1 & c2 & s2 & F1)|(Hf1 & [F1|F1])];
    destruct (truthy_cases (getenv "EVENT_HUB_NAME"%string))
      as [(He2 & c3 & s3 & E2)|(He2 & [E2|E2])];
    destruct (truthy_cases (cfg_eventhub_name config))
      as [(Hf2 & c4 & s4 & F2)|(Hf2 & [F2|F2])];
    rewrite ?He1, ?Hf1, ?He2, ?Hf2; cbn [negb];
    rewrite ?E1, ?F1, ?E2, ?F2; cbn [snd truthy];
    (split; [split; [intros (cs & name & H); try discriminate H; auto
                    |intros [H1 H2]; try discriminate H1; try discriminate H2; eauto]|]);
    (split; [intros cs name H Hc Hn; try discriminate H; inversion H; subst;
             rewrite <- ?Hc, <- ?Hn by reflexivity; reflexivity
            |split; intros cs name H Hc Hn; try discriminate H; try discriminate Hc;
             try discriminate Hn; inversion H; subst; auto]).
Qed.

(** The environment and the file both name a connection string. *)
Lemma test_version_agreement_sample :
  let config := {| cfg_connection_string := Some "Endpoint=sb://config/"%string;
                   cfg_eventhub_name := Some "config-hub"%string;
                   kv_enabled := None; kv_vault_url := None;
                   kv_connection_string_secret_name := None;
                   kv_eventhub_name_secret_name := None |} in
  get (kv_enabled config) false = false
  /\ snd (get_eventhub_connection_details sample_getenv sample_sdk config)
     = Returns ("Endpoint=sb://env/", "env-hub")%string
  /\ fst (test_get_eventhub_connection_details sample_getenv config)
     = Some "Endpoint=sb://config/"%string.
Proof.
  cbv zeta. split; [reflexivity|]. split; [reflexivity|].
  match goal with
  | |- fst (test_get_eventhub_connection_details _ ?config) = _ =>
    destruct (test_version_agreement sample_getenv sample_sdk config eq_refl)
      as (_ & _ & H & _)
  end.
  exact (proj2 (H _ _ eq_refl eq_refl eq_refl)).
Defined.

(* ================================================================= *)
(** ** Splitting, joining and stripping *)

Lemma contains_append (c : ascii) (a b : string) :
  contains c (a ++ b) = (contains c a || contains c b)%bool.
Proof.
  induction a as [|x a IH]; [reflexivity|].
  cbn [append contains]. rewrite IH. apply orb_assoc.
Qed.

Lemma split_nonempty (sep : ascii) (s : string) : split sep s <> [].
Proof.
  destruct s as [|c s]; cbn [split]; [discriminate|].
  destruct (Ascii.eqb c sep); [discriminate|].
  destruct (split sep s); discriminate.
Qed.

(** A string without the separator is one piece. *)
Lemma split_one (sep : ascii) (s : string) :
  contains sep s = false -> split sep s = [s].
Proof.
  induction s as [|c s IH]; [reflexivity|]. cbn [contains split].
  intros H. apply orb_false_iff in H. destruct H as [Hc Hs].
  rewrite Hc, (IH Hs). reflexivity.
Qed.

Lemma split_append (sep : ascii) (a rest : string) :
  contains sep a = false ->
  split sep (a ++ String sep rest) = a :: split sep rest.
Proof.
  induction a as [|c a IH]; cbn [append contains split].
  - intros _. rewrite Ascii.eqb_refl. reflexivity.
  - intros H. apply orb_false_iff in H. destruct H as [Hc Ha].
    rewrite Hc, (IH Ha). reflexivity.
Qed.

(** No piece holds the separator. *)
Lemma split_pieces (sep : ascii) (s : string) :
  Forall (fun piece => contains sep piece = false) (split sep s).
Proof.
  induction s as [|c s IH]; cbn [split]; [repeat constructor|].
  destruct (Ascii.eqb c sep) eqn:Hc; [constructor; [reflexivity|exact IH]|].
  destruct (split sep s) as [|piece pieces]; [repeat constructor; cbn; now rewrite Hc|].
  inversion IH as [|? ? Hp Hps]; subst.
  constructor; [cbn [contains]; now rewrite Hc, Hp|exact Hps].
Qed.

(** Splitting what [join] made of pieces without the separator gives the
    pieces back; the empty list comes back as one empty piece. *)
Lemma split_join (sep : ascii) (l : list string) :
  l <> [] ->
  Forall (fun piece => contains sep piece = false) l ->
  split sep (join (String sep EmptyString) l) = l.
Proof.
  intros Hne Hall. induction Hall as [|x l Hx Hl IH]; [now elim Hne|].
  destruct l as [|y l]; [apply split_one, Hx|].
  change (join (String sep "") (x :: y :: l))
    with (x ++ String sep (join (String sep "") (y :: l)))%string.
  rewrite split_append by exact Hx. rewrite IH by discriminate. reflexivity.
Qed.

Lemma contains_join (sep : ascii) (x y : string) (l : list string) :
  contains sep (join (String sep EmptyString) (x :: y :: l)) = true.
Proof.
  change (join (String sep "") (x :: y :: l))
    with (x ++ String sep (join (String sep "") (y :: l)))%string.
  rewrite contains_append. cbn [contains]. rewrite Ascii.eqb_refl.
  apply orb_true_r.
Qed.

Lemma lstrip_shorter (s : string) :
  lstrip s = s \/ (String.length (lstrip s) < String.length s)%nat.
Proof.
  induction s as [|c s IH]; [now left|]. cbn [lstrip].
  destruct (isspace c); [right|now left].
  cbn [String.length]. destruct IH as [->|IH]; lia.
Qed.

Lemma rstrip_shorter (s : string) :
  (String.length (rstrip s) <= String.length s)%nat.
Proof.
  induction s as [|c s IH]; [reflexivity|]. cbn [rstrip].
  destruct (rstrip s) as [|c' r]; [destruct (isspace c)|]; cbn [String.length] in *; lia.
Qed.

Lemma rstrip_idempotent (s : string) : rstrip (rstrip s) = rstrip s.
Proof.
  induction s as [|c s IH]; [reflexivity|]. cbn [rstrip].
  destruct (rstrip s) as [|c' r] eqn:Hr.
  - destruct (isspace c) eqn:Hc; [reflexivity|]. cbn [rstrip]. now rewrite Hc.
  - cbn [rstrip] in *. rewrite IH. reflexivity.
Qed.

Lemma left_stripped_lstrip (s : string) : left_stripped (lstrip s).
Proof.
  induction s as [|c s IH]; [exact I|]. cbn [lstrip].
  destruct (isspace c) eqn:Hc; [exact IH|exact Hc].
Qed.

Lemma lstrip_left_stripped (s : string) : left_stripped s -> lstrip s = s.
Proof. destruct s as [|c s]; [reflexivity|]. cbn. now intros ->. Qed.

Lemma left_stripped_rstrip (s : string) : left_stripped s -> left_stripped (rstrip s).
Proof.
  destruct s as [|c s]; [exact (fun H => H)|]. cbn [left_stripped rstrip].
  intros Hc. destruct (rstrip s); [rewrite Hc|]; exact Hc.
Qed.

Lemma strip_idempotent (s : string) : strip (strip s) = strip s.
Proof.
  unfold strip.
  rewrite (lstrip_left_stripped (rstrip (lstrip s)))
    by apply left_stripped_rstrip, left_stripped_lstrip.
  apply rstrip_idempotent.
Qed.

(** A string that [strip] leaves alone is left alone by both halves. *)
Lemma strip_fixed (s : string) : strip s = s -> lstrip s = s /\ rstrip s = s.
Proof.
  unfold strip. intros H.
  assert (Hl : lstrip s = s).
  { destruct (lstrip_shorter s) as [Hl|Hl]; [exact Hl|].
    pose proof (rstrip_shorter (lstrip s)) as Hr. rewrite H in Hr. lia. }
  split; [exact Hl|]. now rewrite Hl in H.
Qed.

Lemma contains_lstrip (c : ascii) (s : string) :
  contains c s = false -> contains c (lstrip s) = false.
Proof.
  induction s as [|x s IH]; [reflexivity|]. cbn [lstrip].
  destruct (isspace x); [|exact (fun H => H)].
  cbn [contains]. intros H. apply orb_false_iff in H. apply IH, H.
Qed.

Lemma contains_rstrip (c : ascii) (s : string) :
  contains c s = false -> contains c (rstrip s) = false.
Proof.
  induction s as [|x s IH]; [reflexivity|]. cbn [contains rstrip].
  intros H. apply orb_false_iff in H. destruct H as [Hx Hs]. specialize (IH Hs).
  destruct (rstrip s) as [|y r].
  - destruct (isspace x); [reflexivity|]. cbn [contains]. now rewrite Hx.
  - cbn [contains] in *. now rewrite Hx, IH.
Qed.

Lemma rstrip_space (s : string) (c : ascii) :
  isspace c = true -> rstrip (s ++ String c EmptyString) = rstrip s.
Proof.
  intros Hc. induction s as [|x s IH]; cbn [append rstrip].
  - now rewrite Hc.
  - rewrite IH. reflexivity.
Qed.

Lemma nonempty_true (s : string) : s <> EmptyString -> nonempty s = true.
Proof. destruct s; [intros H; now elim H|reflexivity]. Qed.

(* ================================================================= *)
(** ** The symbols [load_stock_symbols] returns *)

Lemma stripped_upper_clean (upper : string -> string) (pieces : list string) :
  Forall (clean_symbol upper) pieces -> stripped_upper upper pieces = pieces.
Proof.
  unfold stripped_upper. induction 1 as [|x l (Hne & Hs & _ & Hu) Hl IH]; [reflexivity|].
  cbn [filter]. rewrite Hs, (nonempty_true x Hne). cbn [map].
  rewrite Hs, Hu, IH. reflexivity.
Qed.

Lemma stripped_upper_In (upper : string -> string) (pieces : list string) (x : string) :
  In x (stripped_upper upper pieces) ->
  exists piece, In piece pieces /\ x = upper (strip piece)
                /\ strip piece <> EmptyString.
Proof.
  unfold stripped_upper. rewrite in_map_iff. intros (piece & <- & Hin).
  apply filter_In in Hin. destruct Hin as [Hin Hne].
  exists piece. repeat split; [exact Hin|].
  intros E. rewrite E in Hne. discriminate Hne.
Qed.

(** X16: Whatever [load_stock_symbols] returns for a list with commas or for a
    file is made of the pieces between the commas, or of the lines, that
    are not blank: each symbol is the upper case of a string that is not
    empty and that begins and ends with no whitespace (and, in a list with
    commas, holds no comma). *)
Theorem load_stock_symbols_stripped (upper : string -> string) (files : string -> file_state)
    (stocks_input : string) (symbols : list string) :
  load_stock_symbols upper files stocks_input = Returns symbols ->
  contains "," stocks_input = true
  \/ (exists lines, files stocks_input = Lines lines) ->
  Forall (fun symbol =>
            exists s, symbol = upper s
                      /\ s <> EmptyString /\ strip s = s
                      /\ (contains "," stocks_input = true -> contains "," s = false))
         symbols.
Proof.
  unfold load_stock_symbols. intros Hload Hkind.
  assert (Hfrom : exists pieces,
             symbols = stripped_upper upper pieces
             /\ (contains "," stocks_input = true ->
                 Forall (fun piece => contains "," piece = false) pieces)).
  { destruct (contains "," stocks_input) eqn:Hc.
    - inversion Hload; subst. eexists. split; [reflexivity|].
      intros _. apply split_pieces.
    - destruct Hkind as [Hk|(lines & Hk)]; [discriminate Hk|].
      rewrite Hk in Hload. inversion Hload; subst.
      eexists. split; [reflexivity|]. discriminate. }
  destruct Hfrom as (pieces & -> & Hpieces).
  apply Forall_forall. intros x Hx.
  apply stripped_upper_In in Hx. destruct Hx as (piece & Hin & -> & Hne).
  exists (strip piece). split; [reflexivity|]. split; [exact Hne|].
  split; [apply strip_idempotent|].
  intros Hc. specialize (Hpieces Hc). rewrite Forall_forall in Hpieces.
  unfold strip. apply contains_rstrip, contains_lstrip, Hpieces, Hin.
Qed.

(** X17: A list of two or more symbols, each of them upper case, without a
    comma and without whitespace around it, comes back from
    [load_stock_symbols] as it was joined: what [main] does with the
    configured default symbols. *)
Theorem load_stock_symbols_join (upper : string -> string) (files : string -> file_state)
    (symbols : list string) :
  (2 <= List.length symbols)%nat ->
  Forall (clean_symbol upper) symbols ->
  load_stock_symbols upper files (join "," symbols) = Returns symbols.
Proof.
  intros Hlen Hclean. unfold load_stock_symbols.
  destruct symbols as [|x [|y l]]; cbn [List.length] in Hlen; try lia.
  rewrite contains_join.
  rewrite split_join; [|discriminate|].
  - now rewrite stripped_upper_clean.
  - eapply Forall_impl; [|exact Hclean]. intros s (_ & _ & Hc & _). exact Hc.
Qed.

(** X18: A file that lists the symbols one per line gives the same symbols,
    also when there is one symbol or none. *)
Theorem load_stock_symbols_file (upper : string -> string) (files : string -> file_state)
    (path : string) (symbols : list string) :
  contains "," path = false ->
  files path = Lines (map (fun s => (s ++ String "010" EmptyString)%string) symbols) ->
  Forall (clean_symbol upper) symbols ->
  load_stock_symbols upper files path = Returns symbols.
Proof.
  intros Hpath Hfile Hclean. unfold load_stock_symbols. rewrite Hpath, Hfile.
  clear Hfile. f_equal. unfold stripped_upper.
  induction Hclean as [|x l (Hne & Hs & _ & Hu) Hl IH]; [reflexivity|].
  assert (Hline : strip (x ++ String "010" EmptyString) = x).
  { apply strip_fixed in Hs. destruct Hs as [Hl' Hr']. unfold strip.
    assert (Hhead : lstrip (x ++ String "010" "") = (x ++ String "010" "")%string).
    { destruct x as [|c x]; [now elim Hne|]. cbn [append lstrip] in *.
      destruct (isspace c) eqn:Hc; [|reflexivity].
      exfalso. pose proof (lstrip_shorter x) as Hsh. rewrite Hl' in Hsh.
      cbn [String.length] in Hsh. destruct Hsh as [Hsh|Hsh]; [|lia].
      apply (f_equal String.length) in Hsh. cbn [String.length] in Hsh. lia. }
    rewrite Hhead, rstrip_space by reflexivity. exact Hr'. }
  cbn [map filter]. rewrite Hline, (nonempty_true x Hne). cbn [map].
  rewrite Hline, Hu. f_equal. exact IH.
Qed.

(** X19: An argument of commas and whitespace only names no symbol, and the
    generator falls back on its five built-in symbols. *)
Theorem blank_stock_list_uses_defaults (upper : string -> string) (files : string -> file_state)
    (default_symbols : option (list string)) (stocks : string) (msg_size : Z) (msg_config : message_generation_config) :
  contains "," stocks = true ->
  Forall (fun piece => strip piece = EmptyString) (split "," stocks) ->
  exists g,
    main_generator upper files default_symbols (Some stocks) msg_size msg_config
    = Returns g
    /\ stock_symbols g = default_stock_symbols.
Proof.
  intros Hc Hblank. unfold main_generator, load_stock_symbols. cbn [get].
  rewrite Hc.
  assert (Hnone : stripped_upper upper (split "," stocks) = []).
  { unfold stripped_upper. induction Hblank as [|p l Hp Hl IH]; [reflexivity|].
    cbn [filter]. rewrite Hp. exact IH. }
  rewrite Hnone. eexists. split; reflexivity.
Qed.

(** X20: An empty [default_symbols] list in the configuration is joined to the
    empty string, which [load_stock_symbols] takes for a single symbol: the
    generator does not fall back on its built-in symbols, and every message
    it makes has the upper case of the empty string as its [stockName]. *)
Theorem empty_default_symbols (upper : string -> string) (files : string -> file_state)
    (msg_size : Z) (msg_config : message_generation_config) :
  files EmptyString = NoFile ->
  exists g,
    main_generator upper files (Some []) None msg_size msg_config = Returns g
    /\ stock_symbols g = [upper EmptyString]
    /\ forall src pos d pos',
         generate_dict g src pos = (Ok d, pos') ->
         dict_get d "stockName" = Some (PStr (upper EmptyString)).
Proof.
  intros Hfile. unfold main_generator, load_stock_symbols. cbn [get join contains].
  rewrite Hfile. eexists. split; [reflexivity|]. split; [reflexivity|].
  intros src pos d pos' Hrun.
  apply generate_dict_mandatory in Hrun. destruct Hrun as (_ & sym & Hin & Hget).
  cbn in Hin. destruct Hin as [<-|[]]. exact Hget.
Qed.

Lemma clean_AAPL_MSFT :
  Forall (clean_symbol ascii_upper) ["AAPL"; "MSFT"]%string.
Proof. repeat constructor; try discriminate. Qed.

Lemma load_stock_symbols_stripped_sample :
  load_stock_symbols ascii_upper no_files " aapl, ,msft " = Returns ["AAPL"; "MSFT"]%string
  /\ Forall (fun symbol =>
               exists s, symbol = ascii_upper s
                         /\ s <> EmptyString /\ strip s = s
                         /\ (contains "," " aapl, ,msft " = true -> contains "," s = false))
            ["AAPL"; "MSFT"]%string.
Proof.
  split; [reflexivity|].
  exact (load_stock_symbols_stripped ascii_upper no_files " aapl, ,msft "
           ["AAPL"; "MSFT"]%string eq_refl (or_introl eq_refl)).
Defined.

Lemma load_stock_symbols_join_sample :
  (2 <= List.length ["AAPL"; "MSFT"]%string)%nat
  /\ Forall (clean_symbol ascii_upper) ["AAPL"; "MSFT"]%string
  /\ load_stock_symbols ascii_upper no_files (join "," ["AAPL"; "MSFT"]%string)
     = Returns ["AAPL"; "MSFT"]%string.
Proof.
  split; [simpl; lia|]. split; [exact clean_AAPL_MSFT|].
  apply load_stock_symbols_join; [simpl; lia|exact clean_AAPL_MSFT].
Defined.

Lemma load_stock_symbols_file_sample :
  let files := fun path =>
                 if String.eqb path "stocks.txt"
                 then Lines (map (fun s => (s ++ String "010" EmptyString)%string)
                                 ["AAPL"; "MSFT"]%string)
                 else NoFile in
  contains "," "stocks.txt" = false
  /\ Forall (clean_symbol ascii_upper) ["AAPL"; "MSFT"]%string
  /\ load_stock_symbols ascii_upper files "stocks.txt" = Returns ["AAPL"; "MSFT"]%string.
Proof.
  cbv zeta. split; [reflexivity|]. split; [exact clean_AAPL_MSFT|].
  apply load_stock_symbols_file; [reflexivity|reflexivity|exact clean_AAPL_MSFT].
Defined.

Lemma blank_stock_list_uses_defaults_sample :
  contains "," " , ," = true
  /\ Forall (fun piece => strip piece = EmptyString) (split "," " , ,")
  /\ exists g,
       main_generator ascii_upper no_files None (Some " , ,"%string) 500
         no_message_generation_config = Returns g
       /\ stock_symbols g = default_stock_symbols.
Proof.
  assert (Hblank : Forall (fun piece => strip piece = EmptyString) (split "," " , ,"))
    by (repeat constructor).
  split; [reflexivity|]. split; [exact Hblank|].
  exact (blank_stock_list_uses_defaults ascii_upper no_files None " , ," 500
           no_message_generation_config eq_refl Hblank).
Defined.

Lemma empty_default_symbols_sample :
  no_files EmptyString = NoFile
  /\ exists g,
       main_generator ascii_upper no_files (Some []) None 500
         no_message_generation_config = Returns g
       /\ stock_symbols g = [EmptyString]
       /\ forall src pos d pos',
            generate_dict g src pos = (Ok d, pos') ->
            dict_get d "stockName" = Some (PStr EmptyString).
Proof.
  split; [reflexivity|].
  exact (empty_default_symbols ascii_upper no_files 500 no_message_generation_config
           eq_refl).
Defined.

(* ================================================================= *)
(** ** The counters never run ahead of the producer *)

Lemma delivered_count_nonneg (tr : list event) : 0 <= delivered_count tr.
Proof.
  induction tr as [|ev tr IH]; cbn [delivered_count]; [lia|].
  destruct ev; lia.
Qed.

Lemma await_inv (sdk : bool) env w r w1 :
  await sdk env w = (r, w1) ->
  trace w1 = trace w /\ stats w1 = stats w /\ r <> OutOfFuel.
Proof.
  unfold await. destruct (cancelled _);
    [intros H; inversion H; subst; repeat split; discriminate|].
  destruct (sdk && _)%bool; intros H; inversion H; subst; repeat split; discriminate.
Qed.

(** Whatever the SDK does, the loop over the messages only adds to what
    the producer was handed; when it completes, every message is in a
    batch that was sent or in the batch still open. *)
Lemma add_messages_count env messages :
  forall b w r w',
    add_messages messages b env w = (r, w') ->
    delivered_count (trace w) <= delivered_count (trace w')
    /\ (forall b', r = Ok b' ->
          delivered_count (trace w') + Z.of_nat (List.length (events b'))
          = delivered_count (trace w) + Z.of_nat (List.length (events b))
            + Z.of_nat (List.length messages)).
Proof.
  induction messages as [|m rest IH]; intros b w r w' H.
  - cbn [add_messages ret] in H. inversion H; subst. split; [lia|].
    intros b' Hb; inversion Hb; subst. cbn [List.length]. lia.
  - cbn [add_messages] in H. rewrite bind_unfold in H. unfold try_except in H.
    unfold batch_add at 1 in H.
    destruct (size_in_bytes b + event_size env m >? max_size_in_bytes env).
    + cbn [is_ValueError] in H. rewrite bind_unfold in H.
      unfold producer_send_batch in H. rewrite bind_unfold in H.
      destruct (await true env w) as [[u1|e1|] w1] eqn:Ha1;
        apply await_inv in Ha1; destruct Ha1 as (Ht1 & _ & Hf1);
        [|inversion H; subst; rewrite Ht1; split; [lia|discriminate]
         |now elim Hf1].
      cbn [emit] in H. rewrite bind_unfold in H.
      unfold create_batch in H. rewrite bind_unfold in H.
      match type of H with
      | context [await true env ?w2] =>
        destruct (await true env w2) as [[u2|e2|] w3] eqn:Ha2;
          apply await_inv in Ha2; destruct Ha2 as (Ht2 & _ & Hf2);
          cbn [trace] in Ht2
      end;
        [|inversion H; subst; rewrite Ht2, Ht1; cbn [delivered_count];
          split; [lia|discriminate]
         |now elim Hf2].
      cbn [ret] in H. unfold batch_add, empty_batch in H.
      cbn [size_in_bytes events] in H.
      destruct (0 + event_size env m >? max_size_in_bytes env).
      * inversion H; subst. rewrite Ht2, Ht1. cbn [delivered_count].
        split; [lia|discriminate].
      * apply IH in H. destruct H as [Hmono Hdone].
        rewrite Ht2, Ht1 in Hmono, Hdone.
        cbn [delivered_count events app List.length] in Hmono, Hdone.
        split; [lia|]. intros b' Hb'. specialize (Hdone b' Hb').
        cbn [List.length]. lia.
    + apply IH in H. destruct H as [Hmono Hdone].
      cbn [events] in Hdone. split; [exact Hmono|].
      intros b' Hb'. specialize (Hdone b' Hb').
      rewrite List.length_app in Hdone. cbn [List.length] in *. lia.
Qed.

Lemma send_batch_body_count env messages w r w' :
  send_batch_body messages env w = (r, w') ->
  delivered_count (trace w) <= delivered_count (trace w')
  /\ (forall n, r = Ok n ->
        n <= delivered_count (trace w') - delivered_count (trace w)).
Proof.
  unfold send_batch_body. rewrite bind_unfold.
  unfold create_batch. rewrite bind_unfold.
  destruct (await true env w) as [[u|e|] w1] eqn:Ha;
    apply await_inv in Ha; destruct Ha as (Ht & _ & Hf);
    [|intros H; inversion H; subst; rewrite Ht; split; [lia|discriminate]
     |now elim Hf].
  cbn [ret]. rewrite bind_unfold.
  destruct (add_messages messages empty_batch env w1) as [[b'|e|] w2] eqn:Hadd;
    apply add_messages_count in Hadd; destruct Hadd as [Hmono Hdone];
    rewrite Ht in *;
    try (intros H; inversion H; subst; split; [exact Hmono|discriminate]).
  specialize (Hdone b' eq_refl). cbn [events empty_batch List.length] in Hdone.
  rewrite bind_unfold.
  destruct (Z.of_nat (List.length (events b')) >? 0) eqn:Hlen.
  - unfold producer_send_batch. rewrite bind_unfold.
    destruct (await true env w2) as [[u2|e2|] w3] eqn:Ha2;
      apply await_inv in Ha2; destruct Ha2 as (Ht2 & _ & Hf2);
      [|intros H; inversion H; subst; rewrite Ht2; split; [lia|discriminate]
       |now elim Hf2].
    cbn [emit ret]. intros H; inversion H; subst. cbn [trace delivered_count].
    rewrite Ht2. split; [lia|]. intros n Hn; inversion Hn; subst. lia.
  - cbn [ret]. intros H; inversion H; subst. split; [lia|].
    intros n Hn; inversion Hn; subst.
    rewrite Z.gtb_ltb in Hlen. apply Z.ltb_ge in Hlen. lia.
Qed.

(** The count [send_batch] returns is never more than what it handed to
    the producer. *)
Lemma send_batch_count env messages w r w' :
  send_batch messages env w = (r, w') ->
  delivered_count (trace w) <= delivered_count (trace w')
  /\ (forall n, r = Ok n ->
        n <= delivered_count (trace w') - delivered_count (trace w)).
Proof.
  unfold send_batch. rewrite bind_unfold. cbn [emit].
  set (w0 := {| shutdown_event := _ |}).
  assert (Hw0 : delivered_count (trace w0) = delivered_count (trace w)) by reflexivity.
  rewrite <- Hw0. clearbody w0. clear Hw0 w.
  unfold try_except, with_producer.
  destruct (send_batch_body messages env w0) as [rb w1] eqn:Hbody.
  apply send_batch_body_count in Hbody. destruct Hbody as [Hmono Hdone].
  destruct (await true env w1) as [[u|e|] w2] eqn:Ha;
    apply await_inv in Ha; destruct Ha as (Ht & _ & Hf); [| |now elim Hf].
  - destruct rb as [n|e|].
    + intros H; inversion H; subst. rewrite Ht. split; [exact Hmono|].
      intros n' Hn; inversion Hn; subst. auto.
    + destruct (is_Exception e).
      * rewrite bind_unfold. cbn [emit ret]. intros H; inversion H; subst.
        cbn [trace delivered_count]. rewrite Ht. split; [lia|].
        intros n' Hn; inversion Hn; subst. lia.
      * intros H; inversion H; subst. rewrite Ht. split; [lia|discriminate].
    + intros H; inversion H; subst. rewrite Ht. split; [lia|discriminate].
  - destruct (is_Exception e).
    + rewrite bind_unfold. cbn [emit ret]. intros H; inversion H; subst.
      cbn [trace delivered_count]. rewrite Ht. split; [lia|].
      intros n' Hn; inversion Hn; subst. lia.
    + intros H; inversion H; subst. rewrite Ht. split; [lia|discriminate].
Qed.

Lemma sleep_inv (q : Q) env w r w1 :
  sleep q env w = (r, w1) ->
  delivered_count (trace w1) = delivered_count (trace w) /\ stats w1 = stats w.
Proof.
  unfold sleep. rewrite bind_unfold.
  destruct (await false env w) as [[u|e|] w2] eqn:Ha;
    apply await_inv in Ha; destruct Ha as (Ht & Hs & _);
    cbn [emit]; intros H; inversion H; subst; cbn [trace stats delivered_count];
    rewrite ?Ht, ?Hs; split; reflexivity.
Qed.

(** The body of the worker's [try] adds to [total_sent] no more than it
    handed to the producer. *)
Lemma worker_try_count (wk : worker) env w r w' :
  worker_try wk env w = (r, w') ->
  total w' - total w <= delivered_count (trace w') - delivered_count (trace w).
Proof.
  unfold worker_try. rewrite bind_unfold. unfold lift_gen.
  destruct (generate_messages _ _ (env_source env) (rng_pos w)) as [[ms|e|] p1];
    try (intros H; inversion H; subst; unfold total; cbn [stats trace]; lia).
  set (w1 := {| shutdown_event := _ |}).
  assert (Hw1 : total w1 = total w
                /\ delivered_count (trace w1) = delivered_count (trace w))
    by (split; reflexivity).
  destruct Hw1 as [<- <-]. clearbody w1.
  rewrite bind_unfold.
  pose proof (ledger_send_batch ms env w1) as Hled.
  destruct (send_batch ms env w1) as [[n|e|] w2] eqn:Hsend;
    apply send_batch_count in Hsend; destruct Hsend as [Hmono Hdone];
    cbn [snd] in Hled; unfold ledger in Hled; inversion Hled as [[Hsd Hst Hct]];
    try (intros H; inversion H; subst; unfold total; rewrite Hst; lia).
  specialize (Hdone n eq_refl).
  rewrite bind_unfold. cbn [add_sent get_stats put_stats emit bind stats].
  destruct (Qle_bool _ 0).
  - cbn [ret]. intros H; inversion H; subst. unfold total.
    cbn [stats total_sent trace delivered_count]. rewrite Hst. lia.
  - intros H. apply sleep_inv in H. destruct H as [Hd Hs].
    unfold total. rewrite Hd, Hs. cbn [stats total_sent trace delivered_count].
    rewrite Hst. lia.
Qed.

(** One turn of a worker adds to [total_sent] no more than it handed to
    the producer. *)
Lemma worker_iteration_count (wk : worker) env w :
  let w' := snd (worker_iteration wk env w) in
  total w' - total w <= delivered_count (trace w') - delivered_count (trace w).
Proof.
  cbv zeta. unfold worker_iteration.
  destruct (shutdown_event w); [cbn [snd]; lia|].
  destruct (worker_try wk env w) as [[u|e|] w1] eqn:Htry;
    apply worker_try_count in Htry; cbn [snd]; try exact Htry.
  assert (Hh : forall c1 w2,
             (_ <- emit (LoggedWorkerError (worker_id wk) e) ;;
              _ <- sleep (1 # 10) ;; ret Continue) env w1 = (c1, w2) ->
             total w2 = total w1
             /\ delivered_count (trace w2) = delivered_count (trace w1)).
  { intros c1 w2. rewrite bind_unfold. cbn [emit]. rewrite bind_unfold.
    match goal with
    | |- context [sleep ?q env ?w3] =>
      destruct (sleep q env w3) as [[u|e'|] w4] eqn:Hsl;
        apply sleep_inv in Hsl; destruct Hsl as [Hd Hs]
    end;
      cbn [ret]; intros H; inversion H; subst; unfold total;
      rewrite Hd, Hs; split; reflexivity. }
  destruct e; cbn [snd]; try exact Htry;
    match goal with
    | |- context [snd (?c env w1)] =>
      destruct (c env w1) as [c1 w2]; cbn [snd];
        destruct (Hh _ _ eq_refl) as [-> ->]; exact Htry
    end.
Qed.

Lemma perform_count (a : action) env w :
  let w' := snd (perform a env w) in
  total w' - total w <= delivered_count (trace w') - delivered_count (trace w).
Proof.
  destruct a as [wk|now|t| | |now]; cbv zeta.
  - assert (Hw : snd (perform (WorkerTurn wk) env w)
                 = snd (worker_iteration wk env w)).
    { cbn [perform]. rewrite bind_unfold.
      destruct (worker_iteration wk env w) as [[c|e|] w1]; reflexivity. }
    rewrite Hw. apply worker_iteration_count.
  - cbn. unfold total. cbn. lia.
  - rewrite perform_reporter_turn. unfold reporter_iteration.
    destruct (shutdown_event w) eqn:Hsd; [cbn [snd]; lia|].
    unfold sleep. rewrite !bind_unfold. unfold await.
    destruct (cancelled (env_awaits env (await_pos w))); [cbn; unfold total; cbn; lia|].
    cbn [andb emit]. unfold reporter_tick. rewrite bind_unfold.
    cbn [get_stats stats].
    destruct (start_time (stats w)) eqn:Hst; cbn; unfold total; cbn; lia.
  - cbn. unfold total. cbn. lia.
  - cbn. unfold total. cbn. lia.
  - cbn. unfold total. cbn. lia.
Qed.

(** Over whole turns, [total_sent] grows by no more than what the producer
    was handed in the same turns.  (Inside a worker's turn the batch is
    handed over first and counted afterwards, so this is a fact about
    runs that start and end between turns.) *)
Lemma run_count (actions : list action) (env : environment) (w : world) :
  total (run actions env w) - total w
  <= delivered_count (trace (run actions env w)) - delivered_count (trace w).
Proof.
  revert w. induction actions as [|a rest IH]; intros w; cbn [run]; [lia|].
  pose proof (perform_count a env w) as Ha. cbv zeta in Ha.
  specialize (IH (snd (perform a env w))). lia.
Qed.

(** X21: whatever the SDK does (failures, cancellations, messages too
    large for a batch) and however the tasks take turns, from the start of
    the process [total_sent] is at most the number of messages handed to
    the producer: the statistics never count a message that was not
    sent. *)
Theorem total_sent_never_ahead (actions : list action) (env : environment) :
  total (run actions env initial_world)
  <= delivered_count (trace (run actions env initial_world)).
Proof.
  pose proof (run_count actions env initial_world) as H.
  change (total initial_world) with 0 in H.
  change (delivered_count (trace initial_world)) with 0 in H. lia.
Qed.

(* ================================================================= *)
(** ** After the shutdown flag is set *)

Lemma perform_after_shutdown (a : action) env w :
  shutdown_event w = true ->
  let w' := snd (perform a env w) in
  shutdown_event w' = true
  /\ submissions (trace w') = submissions (trace w)
  /\ deliveries (trace w') = deliveries (trace w)
  /\ total w' = total w /\ window w' = window w.
Proof.
  intros Hsd. destruct a as [wk|now|t| | |now]; cbv zeta.
  - cbn [perform]. rewrite bind_unfold. unfold worker_iteration. rewrite Hsd.
    cbn. auto.
  - cbn. auto.
  - rewrite perform_reporter_turn. unfold reporter_iteration. rewrite Hsd.
    cbn. auto.
  - cbn. auto.
  - cbn. auto.
  - cbn. auto.
Qed.

(** X22: once the shutdown flag is set, by the signal handler or by the
    end of the configured duration, no pass of a worker's or of the
    reporter's loop that starts afterwards submits a batch, hands anything
    to the producer or changes a counter, and the flag stays set: a worker
    that tests its loop condition leaves, whatever follows in the run. *)
Theorem nothing_sent_after_shutdown (actions : list action) (env : environment)
    (w : world) :
  shutdown_event w = true ->
  shutdown_event (run actions env w) = true
  /\ submissions (trace (run actions env w)) = submissions (trace w)
  /\ deliveries (trace (run actions env w)) = deliveries (trace w)
  /\ total (run actions env w) = total w
  /\ window (run actions env w) = window w.
Proof.
  revert w. induction actions as [|a rest IH]; intros w Hsd; cbn [run]; [auto|].
  destruct (perform_after_shutdown a env w Hsd) as (H1 & H2 & H3 & H4 & H5).
  destruct (IH _ H1) as (I1 & I2 & I3 & I4 & I5).
  repeat split; congruence.
Qed.

(** A worker's turn, a reporter's turn and the final summary after Ctrl+C. *)
Lemma nothing_sent_after_shutdown_sample :
  let env := sample_environment false in
  let w := run [WorkerTurn (sample_worker 5); Sigint] env initial_world in
  let actions := [WorkerTurn (sample_worker 5); ReporterTurn 3; FinalSummary 4] in
  shutdown_event w = true
  /\ total w = 1
  /\ total (run actions env w) = 1
  /\ deliveries (trace (run actions env w)) = deliveries (trace w).
Proof.
  cbv zeta.
  assert (Hsd : shutdown_event (run [WorkerTurn (sample_worker 5); Sigint]
                                    (sample_environment false) initial_world) = true)
    by (vm_compute; reflexivity).
  assert (Htotal : total (run [WorkerTurn (sample_worker 5); Sigint]
                              (sample_environment false) initial_world) = 1)
    by (vm_compute; reflexivity).
  destruct (nothing_sent_after_shutdown
              [WorkerTurn (sample_worker 5); ReporterTurn 3; FinalSummary 4]
              (sample_environment false) _ Hsd) as (_ & _ & Hdel & Htot & _).
  split; [exact Hsd|]. split; [exact Htotal|].
  split; [rewrite Htot; exact Htotal|exact Hdel].
Defined.

(* ================================================================= *)
(** ** A failing vault *)

(** X23: whenever the lookup in Key Vault fails (the packages cannot be
    imported, the client cannot be made, or reading a secret raises) the
    function prints its warning and then ends the process with exit code
    1: the vault is only asked when the connection string is missing, so
    after a failure a required setting is still missing. *)
Theorem keyvault_warning_is_fatal (getenv : string -> option string)
    (sdk : keyvault_sdk) (config : connection_config) :
  In KeyVaultWarning (fst (get_eventhub_connection_details getenv sdk config)) ->
  snd (get_eventhub_connection_details getenv sdk config) = Exits 1.
Proof.
  unfold get_eventhub_connection_details. cbv zeta.
  set (c0 := py_or (getenv "EVENT_HUB_CONNECTION_STRING"%string)
                   (cfg_connection_string config)).
  set (n0 := py_or (getenv "EVENT_HUB_NAME"%string) (cfg_eventhub_name config)).
  assert (Hno : forall (c n : option string) (x : notice),
             x <> KeyVaultWarning ->
             In KeyVaultWarning
                (fst (match c with
                      | Some (String _ _ as cs) =>
                        match n with
                        | Some (String _ _ as name) => ([x], Returns (cs, name))
                        | _ => (([x] ++ [EventHubNameNotFound])%list, Exits 1)
                        end
                      | _ => (([x] ++ [ConnectionStringNotFound])%list, Exits 1)
                      end)) -> False).
  { intros c n x Hx. destruct c as [[|a s]|]; [| destruct n as [[|a' s']|] |];
      cbn; intros H; repeat destruct H as [H|H]; try discriminate H;
        try (now apply Hx); exact H. }
  assert (Hnone : forall (c n : option string),
             In KeyVaultWarning
                (fst (match c with
                      | Some (String _ _ as cs) =>
                        match n with
                        | Some (String _ _ as name) =>
                          (@nil notice, Returns (cs, name))
                        | _ => (([] ++ [EventHubNameNotFound])%list, Exits 1)
                        end
                      | _ => (([] ++ [ConnectionStringNotFound])%list, Exits 1)
                      end)) -> False).
  { intros c n. destruct c as [[|a s]|]; [| destruct n as [[|a' s']|] |];
      cbn; intros H; repeat destruct H as [H|H]; try discriminate H; exact H. }
  assert (Hexit : forall (c n : option string) (notices : list notice),
             truthy c = false \/ truthy n = false ->
             snd (match c with
                  | Some (String _ _ as cs) =>
                    match n with
                    | Some (String _ _ as name) => (notices, Returns (cs, name))
                    | _ => ((notices ++ [EventHubNameNotFound])%list, Exits 1)
                    end
                  | _ => ((notices ++ [ConnectionStringNotFound])%list, Exits 1)
                  end) = Exits 1).
  { intros c n notices H. destruct c as [[|a s]|]; try reflexivity.
    destruct n as [[|a' s']|]; try reflexivity.
    destruct H as [H|H]; discriminate H. }
  destruct (get (kv_enabled config) false); cbn [andb];
    [|intros H; now apply Hnone in H].
  destruct (truthy c0) eqn:Hc0; cbn [negb];
    [intros H; now apply Hnone in H|].
  unfold keyvault_lookup.
  destruct (sdk_importable sdk); cbn [negb];
    [|intros _; apply Hexit; now left].
  destruct (kv_vault_url config) as [[|u url]|];
    try (intros H; now apply Hnone in H).
  destruct (secret_client sdk (String u url)) as [get_secret|];
    [|intros _; apply Hexit; now left].
  rewrite Hc0.
  destruct (get_secret _) as [c'|]; [|intros _; apply Hexit; now left].
  destruct (truthy n0) eqn:Hn0.
  - intros H. exfalso. revert H. apply Hno. discriminate.
  - destruct (get_secret _) as [n'|]; [|intros _; apply Hexit; now right].
    intros H. exfalso. revert H. apply Hno. discriminate.
Qed.

(** The vault enabled, no connection string configured, the packages not
    installed. *)
Lemma keyvault_warning_is_fatal_sample :
  let config := {| cfg_connection_string := None; cfg_eventhub_name := Some "hub"%string;
                   kv_enabled := Some true;
                   kv_vault_url := Some "https://vault.example/"%string;
                   kv_connection_string_secret_name := None;
                   kv_eventhub_name_secret_name := None |} in
  In KeyVaultWarning (fst (get_eventhub_connection_details no_environment no_sdk config))
  /\ snd (get_eventhub_connection_details no_environment no_sdk config) = Exits 1.
Proof.
  cbv zeta. split; [left; reflexivity|].
  apply keyvault_warning_is_fatal. left; reflexivity.
Defined.
